(** * SubQG Image Transformer: the numeric core and its properties

    A shallow embedding of the field simulator ([SubQGSimulator]), of the
    statistics helpers ([mathHelpers.ts]) and of the pixel pipeline
    ([imageUtils.ts]: [resizeKnotMap], [processImageWithSubQG]).

    Numbers.  A JavaScript [number] is modelled as a real ([R]): the
    arithmetic is exact, so the rounding of IEEE doubles is outside the
    model, and a statement that compares a computed number with a bound it
    can meet holds of the doubles only up to that rounding.  What does not
    depend on rounding is modelled: the [NaN] of [linspace] with a single
    point and of a read outside an array ([Js.number], [option]), the
    engine's [Math.sin] and [Math.cos] (functions of the engine, not the
    real sine and cosine) in the simulator, and the engine's limit on the
    arguments of a call.  Integer quantities (array lengths, grid sizes,
    knot counters, bytes) are [nat] or [Z]; the grid sizes and the duration
    of a configuration are integers.

    State.  The simulator's instance fields are a record threaded through
    the methods; [Math.random()] is a stream [nat -> R] read at a counter;
    typed arrays live in a store of array buffers so that two views over one
    buffer really share their bytes. *)

From Stdlib Require Import Reals Lra Lia ZArith List Bool.
From stdpp Require Import base option list sorting strings.

Local Open Scope R_scope.

(** ** JavaScript primitives used by the sources *)

Module Js.

(** The exceptions the modelled code can meet: [Array(n)] with a length
    that is no array length and a call with too many arguments, a
    property read on [undefined], a canvas without a 2D context (the
    source's own [throw new Error]) and the size checks of the host's
    [ImageData] and [getImageData]. *)
Inductive Error : Type :=
| RangeError
| TypeError
| NoContextError
| IndexSizeError.

(** The engine that runs the code.

    [Math.sin] and [Math.cos] return the double next to the sine or
    cosine of their argument, itself a double: [Math.sin(2 * Math.PI)]
    is about -2.4e-16, not 0.  They are functions of the engine here, and
    the theorems assume of them no more than holds of the doubles.

    [max_arguments] is the largest number of arguments a call can take:
    [Math.max(...arr)] on a longer array raises a [RangeError].  The
    language fixes no value for it. *)
Record Engine : Type := {
  Math_sin : R -> R;
  Math_cos : R -> R;
  max_arguments : nat
}.

(** A number that may be [NaN]. *)
Inductive number : Type :=
| Num (x : R)
| NaN.

(** Arithmetic on a number that may be [NaN]: [NaN] in, [NaN] out. *)
Definition lift (f : R -> R) (v : number) : number :=
  match v with
  | Num x => Num (f x)
  | NaN => NaN
  end.

Definition lift2 (f : R -> R -> R) (u v : number) : number :=
  match u, v with
  | Num x, Num y => Num (f x y)
  | _, _ => NaN
  end.

(** [Math.round]: the integer nearest to [x], ties towards +infinity. *)
Definition Math_round (x : R) : Z := Zfloor (x + / 2).

(** [Math.floor]. *)
Definition Math_floor (x : R) : Z := Zfloor x.

(** Boolean comparisons of numbers. *)
Definition gtb (x y : R) : bool := if Rlt_dec y x then true else false.
Definition geb (x y : R) : bool := if Rle_dec y x then true else false.
Definition leb (x y : R) : bool := if Rle_dec x y then true else false.
Definition eqb (x y : R) : bool := if Req_dec_T x y then true else false.

(** [Math.max(...arr)] and [Math.min(...arr)]: the array is spread into
    the arguments of the call, which fails when there are more of them
    than the engine takes.  (On an empty array the source gets -Infinity
    and Infinity; every caller guards that case.) *)
Definition Math_max_spread (engine : Engine) (arr : list R) : Error + R :=
  if Nat.ltb (max_arguments engine) (length arr) then inl RangeError
  else inr match arr with
           | [] => 0
           | x :: t => fold_left Rmax t x
           end.

Definition Math_min_spread (engine : Engine) (arr : list R) : Error + R :=
  if Nat.ltb (max_arguments engine) (length arr) then inl RangeError
  else inr match arr with
           | [] => 0
           | x :: t => fold_left Rmin t x
           end.

(** The lengths [Array(n)] accepts among the integers: from 0 to
    [2^32 - 1]. *)
Definition array_length_limit : Z := 4294967296.

Definition valid_array_length (n : Z) : bool :=
  (0 <=? n)%Z && (n <? array_length_limit)%Z.

(** [Array(n).fill(x)] for an integer [n]: a length that is negative or
    not below [2^32] raises [RangeError].  (So does a length that is no
    integer: the application's fractional sizes are met in
    [App.array_length], before they reach an integer size here.) *)
Definition Array_fill {A : Type} (n : Z) (x : A) : Error + list A :=
  if valid_array_length n then inr (replicate (Z.to_nat n) x)
  else inl RangeError.

(** [Array(h).fill(null).map(() => Array(w).fill(x))]: the callback runs
    once per row, so a bad [w] is only met when there is a row. *)
Definition Array_grid {A : Type} (h w : Z) (x : A) : Error + list (list A) :=
  if negb (valid_array_length h) then inl RangeError
  else if (h =? 0)%Z then inr []
  else match Array_fill w x with
       | inl e => inl e
       | inr row => inr (replicate (Z.to_nat h) row)
       end.

(** Conversion of a number stored into a [Uint8ClampedArray]: clamp to
    [0,255] and round to the nearest integer, ties to even. *)
Definition ToUint8Clamp (x : R) : Z :=
  if Rle_dec x 0 then 0%Z
  else if Rle_dec 255 x then 255%Z
  else
    let f := Zfloor x in
    if Rlt_dec (x - IZR f) (/ 2) then f
    else if Rlt_dec (/ 2) (x - IZR f) then (f + 1)%Z
    else if Z.even f then f else (f + 1)%Z.

End Js.

(** ** services/mathHelpers.ts *)

Module MathHelpers.

Definition calculateMean (arr : list R) : R :=
  if Nat.eqb (length arr) 0 then 0
  else fold_left (fun sum val => sum + val) arr 0 / INR (length arr).

(** [[...arr].sort((a, b) => a - b)]: ascending order. *)
Fixpoint insert_sorted (x : R) (l : list R) : list R :=
  match l with
  | [] => [x]
  | y :: t => if Rle_dec x y then x :: l else y :: insert_sorted x t
  end.

Definition sort_ascending (arr : list R) : list R :=
  fold_right insert_sorted [] arr.

Definition calculateMedian (arr : list R) : R :=
  if Nat.eqb (length arr) 0 then 0
  else
    let sortedArr := sort_ascending arr in
    let mid := Nat.div (length sortedArr) 2 in
    if negb (Nat.eqb (Nat.modulo (length sortedArr) 2) 0)
    then nth mid sortedArr 0
    else (nth (mid - 1) sortedArr 0 + nth mid sortedArr 0) / 2.

Definition calculateStdDev (arr : list R) : R :=
  if Nat.leb (length arr) 1 then 0
  else
    let mean := calculateMean arr in
    let variance :=
      fold_left (fun sum val => sum + (val - mean) ^ 2) arr 0
      / INR (length arr) in
    sqrt variance.

Definition calculatePtp (engine : Js.Engine) (arr : list R)
    : Js.Error + R :=
  if Nat.eqb (length arr) 0 then inr 0
  else
    match Js.Math_max_spread engine arr with
    | inl e => inl e
    | inr hi =>
      match Js.Math_min_spread engine arr with
      | inl e => inl e
      | inr lo => inr (hi - lo)
      end
    end.

(** [linspace(start, stop, num)].  With [num = 1] the step is a division
    by zero, an infinity or [NaN], and the only element,
    [start + step * 0], is [NaN].  The array is taken to hold the [num]
    elements pushed into it, whatever their number: a [push] beyond
    [2^32 - 1] elements, which fails in the code, is outside the model
    (the constructor has refused such a width before, unless the grid
    has no row). *)
Definition linspace (start stop : R) (num : Z) : list Js.number :=
  if (num =? 1)%Z then [Js.NaN]
  else
    let step := (stop - start) / (IZR num - 1) in
    map (fun i => Js.Num (start + step * INR i)) (seq 0 (Z.to_nat num)).

Definition clamp (value min max : R) : R := Rmin (Rmax value min) max.

End MathHelpers.

(** ** types.ts *)

Record SubQGParams : Type := {
  sim_duration : Z;
  noise_factor : R;
  threshold_s : R;
  decimal_precision : Z;
  f_energy : R;
  f_phase : R;
  re_s_scaling_c : R;
  field_w : Z;
  field_h : Z
}.

Record RiemannStats : Type := {
  mean_re_s : R;
  median_re_s : R;
  std_dev_re_s : R;
  count_near_0_5 : nat;
  total_projected_knots : nat;
  harmony_score : R;
  internal_prescale_factor_used : R
}.

(** [KnotMap = number[][]]; the simulator only ever stores counters. *)
Abbreviation KnotMap := (list (list nat)).

(** ** Two-dimensional arrays *)

(** [g[r][c]]: [None] stands for [undefined]. *)
Definition grid_get {A : Type} (r c : nat) (g : list (list A)) : option A :=
  match g !! r with
  | Some row => row !! c
  | None => None
  end.

(** [g[r][c] = f(g[r][c])] for a cell that exists; the simulator's grids
    are built with the dimensions its loops run over, so it never writes
    anywhere else. *)
Definition grid_alter {A : Type} (f : A -> A) (r c : nat)
    (g : list (list A)) : list (list A) :=
  alter (alter f c) r g.

Definition grid_set {A : Type} (r c : nat) (v : A)
    (g : list (list A)) : list (list A) :=
  grid_alter (fun _ => v) r c g.

(** [for (let i = 0; i < n; i++) body(i)] over a state. *)
Definition for_range {S : Type} (n : nat) (body : nat -> S -> S) (s : S) : S :=
  fold_left (fun acc i => body i acc) (seq 0 n) s.

(** Sum of all counters of a knot map. *)
Definition knot_sum (m : KnotMap) : nat := sum_list (map sum_list m).

(** ** services/subqg.ts: class SubQGSimulator *)

Module SubQGSimulator.
Import MathHelpers.

(** The instance fields, and [draws]: how many numbers the run has taken
    from [Math.random()] so far. *)
Record t : Type := {
  params : SubQGParams;
  energy_field : list (list Js.number);
  phase_field : list (list Js.number);
  knot_map : KnotMap;
  detected_knot_base_values : list R;
  rounding_factor : R;
  omega_energy : R;
  omega_phase : R;
  draws : nat
}.

Definition with_fields (e p : list (list Js.number)) (n : nat) (s : t)
    : t :=
  {| params := params s; energy_field := e; phase_field := p;
     knot_map := knot_map s;
     detected_knot_base_values := detected_knot_base_values s;
     rounding_factor := rounding_factor s;
     omega_energy := omega_energy s; omega_phase := omega_phase s;
     draws := n |}.

Definition with_knots (m : KnotMap) (l : list R) (s : t) : t :=
  {| params := params s; energy_field := energy_field s;
     phase_field := phase_field s;
     knot_map := m; detected_knot_base_values := l;
     rounding_factor := rounding_factor s;
     omega_energy := omega_energy s; omega_phase := omega_phase s;
     draws := draws s |}.

Definition constructor (p : SubQGParams) : Js.Error + t :=
  match Js.Array_grid (field_h p) (field_w p) (Js.Num 0) with
  | inl e => inl e
  | inr ef =>
    match Js.Array_grid (field_h p) (field_w p) (Js.Num 0) with
    | inl e => inl e
    | inr pf =>
      match Js.Array_grid (field_h p) (field_w p) 0%nat with
      | inl e => inl e
      | inr km =>
        inr {| params := p;
               energy_field := ef; phase_field := pf; knot_map := km;
               detected_knot_base_values := [];
               rounding_factor := powerRZ 10 (decimal_precision p);
               omega_energy := f_energy p * 2 * PI;
               omega_phase := f_phase p * 2 * PI;
               draws := 0 |}
      end
    end
  end.

Section Methods.
Variable engine : Js.Engine.

(** [Math.random()]: the [i]-th number the generator hands out. *)
Variable random : nat -> R.

(** Body of the inner loop of [updateWaves] at cell [(r, c)].  The
    coordinates may be [NaN], which then reaches both fields through
    the sums and through [clamp]; the two calls of [Math.random()] are
    made all the same. *)
Definition updateWaves_cell (time_component_energy time_component_phase : R)
    (xCoords yCoords : list Js.number) (r c : nat) (s : t) : t :=
  let noise := noise_factor (params s) in
  let xv := nth c xCoords Js.NaN in
  let yv := nth r yCoords Js.NaN in
  let spatial_component :=
    Js.lift2 (fun x y => Js.Math_sin engine x * Js.Math_cos engine y)
             xv yv in
  let e1 := grid_set r c
              (Js.lift
                 (fun spatial =>
                    Rabs (time_component_energy + spatial) / 2
                    + random (draws s) * noise)
                 spatial_component)
              (energy_field s) in
  let p1 := grid_set r c
              (Js.lift
                 (fun spatial =>
                    Rabs (time_component_phase + spatial) / 2
                    + random (S (draws s)) * noise)
                 spatial_component)
              (phase_field s) in
  let e2 := grid_alter (Js.lift (fun v => clamp v 0 (1 + noise))) r c e1 in
  let p2 := grid_alter (Js.lift (fun v => clamp v 0 (1 + noise))) r c p1 in
  with_fields e2 p2 (S (S (draws s))) s.

(** [updateWaves(t)]; [runSimulation] calls it for [t < sim_duration]
    only, so the division is by a positive number. *)
Definition updateWaves (t0 : nat) (s : t) : t :=
  let p := params s in
  let time_component_energy :=
    Js.Math_sin engine (omega_energy s * INR t0 / IZR (sim_duration p)) in
  let time_component_phase :=
    Js.Math_sin engine (omega_phase s * INR t0 / IZR (sim_duration p)) in
  let xCoords := linspace 0 (2 * PI) (field_w p) in
  let yCoords := linspace 0 (2 * PI) (field_h p) in
  for_range (Z.to_nat (field_h p)) (fun r =>
    for_range (Z.to_nat (field_w p)) (fun c =>
      updateWaves_cell time_component_energy time_component_phase
                       xCoords yCoords r c)) s.

(** The three conditions of a knot at a cell holding [e] and [ph]. *)
Definition detected_knot (s : t) (e ph : R) : bool :=
  let rounded_energy :=
    IZR (Js.Math_round (e * rounding_factor s)) / rounding_factor s in
  let rounded_phase :=
    IZR (Js.Math_round (ph * rounding_factor s)) / rounding_factor s in
  let condition1 := Js.gtb e (threshold_s (params s)) in
  let condition2 := Js.gtb ph (threshold_s (params s)) in
  let condition3 := Js.eqb rounded_energy rounded_phase in
  condition1 && condition2 && condition3.

(** Body of the inner detection loop; the second component is
    [num_knots_in_step].  A cell that holds [NaN], or does not exist
    and reads as [undefined], fails every comparison. *)
Definition detect_cell (r c : nat) (acc : t * nat) : t * nat :=
  let '(s, num_knots_in_step) := acc in
  match grid_get r c (energy_field s), grid_get r c (phase_field s) with
  | Some (Js.Num e), Some (Js.Num ph) =>
    if detected_knot s e ph
    then (with_knots (grid_alter S r c (knot_map s))
                     (detected_knot_base_values s ++ [e]) s,
          S num_knots_in_step)
    else acc
  | _, _ => acc
  end.

(** One iteration of the loop over [t]; the second component is
    [total_knots_detected]. *)
Definition step (t0 : nat) (acc : t * nat) : t * nat :=
  let '(s, total_knots_detected) := acc in
  let s1 := updateWaves t0 s in
  let p := params s1 in
  let '(s2, num_knots_in_step) :=
    for_range (Z.to_nat (field_h p)) (fun r =>
      for_range (Z.to_nat (field_w p)) (fun c => detect_cell r c))
      (s1, 0%nat) in
  (s2, (total_knots_detected + num_knots_in_step)%nat).

(** [runSimulation()]: the instance after the run, the returned
    [knot_map] and [total_knots]. *)
Definition runSimulation (s : t) : Js.Error + (t * (KnotMap * nat)) :=
  match Js.Array_grid (field_h (params s)) (field_w (params s)) 0%nat with
  | inl e => inl e
  | inr km =>
    let s0 := with_knots km [] s in
    let '(s', total_knots_detected) :=
      for_range (Z.to_nat (sim_duration (params s))) step (s0, 0%nat) in
    inr (s', (knot_map s', total_knots_detected))
  end.

End Methods.

Definition degenerate_stats : RiemannStats :=
  {| mean_re_s := 0.0; median_re_s := 0.0; std_dev_re_s := 1.0;
     count_near_0_5 := 0; total_projected_knots := 0; harmony_score := 0.0;
     internal_prescale_factor_used := 0.0 |}.

(** The body of [analyzeRiemannProjection], which reads two things of the
    instance: the log of detected knots and the scaling constant.  The
    range is only computed ([&&]) when there is more than one value, and
    its [RangeError] leaves the method.  The comparisons (the range
    against 0, a projected value against the ends 0.45 and 0.55 of the
    window) are those of the exact values: a value that the rounding of
    doubles moves across such an end is counted on the other side by
    the code. *)
Definition riemann_projection (engine : Js.Engine) (log : list R) (c : R)
    : Js.Error + RiemannStats :=
  if Nat.eqb (length log) 0 then inr degenerate_stats
  else
    let internal_prescale_factor := 5.0 in
    let projected_re_s_values :=
      map (fun val => (val * internal_prescale_factor) * c) log in
    let mean_re_s := calculateMean projected_re_s_values in
    let median_re_s := calculateMedian projected_re_s_values in
    match
      (if Nat.ltb 1 (length projected_re_s_values)
       then match calculatePtp engine projected_re_s_values with
            | inl e => inl e
            | inr ptp =>
              inr (if Js.gtb ptp 0
                   then calculateStdDev projected_re_s_values else 1.0)
            end
       else inr 1.0)
    with
    | inl e => inl e
    | inr std_dev_re_s =>
      let target_re_s := 0.5 in
      let interval_radius := 0.05 in
      let count_near_target :=
        length (List.filter
                  (fun val => Js.geb val (target_re_s - interval_radius)
                              && Js.leb val (target_re_s + interval_radius))
                  projected_re_s_values) in
      let mean_proximity_score :=
        1.0 - Rmin 1.0 (Rabs (mean_re_s - target_re_s)
                        / (target_re_s * 0.5)) in
      let concentration_score := 1.0 - Rmin 1.0 (std_dev_re_s / 0.15) in
      let harmony_score :=
        clamp (mean_proximity_score * 0.6 + concentration_score * 0.4)
              0.0 1.0 in
      inr {| mean_re_s := mean_re_s; median_re_s := median_re_s;
             std_dev_re_s := std_dev_re_s;
             count_near_0_5 := count_near_target;
             total_projected_knots := length projected_re_s_values;
             harmony_score := harmony_score;
             internal_prescale_factor_used := internal_prescale_factor |}
    end.

Definition analyzeRiemannProjection (engine : Js.Engine) (s : t)
    : Js.Error + RiemannStats :=
  riemann_projection engine (detected_knot_base_values s)
                     (re_s_scaling_c (params s)).

(** [new SubQGSimulator(p).runSimulation()], the way the application
    calls the simulator. *)
Definition simulate (engine : Js.Engine) (random : nat -> R)
    (p : SubQGParams) : Js.Error + (KnotMap * nat) :=
  match constructor p with
  | inl e => inl e
  | inr s =>
    match runSimulation engine random s with
    | inl e => inl e
    | inr (_, result) => inr result
    end
  end.

End SubQGSimulator.

(** ** services/imageUtils.ts

    The sources carry two revisions of this file.  They agree on
    [resizeKnotMap]; in [processImageWithSubQG] they differ in how the
    result's byte array is obtained, in a redundant clamp of the green
    channel, and in the rounding of the final store. *)

Inductive Revision : Type :=
| Rev1   (* new Uint8ClampedArray(originalData.buffer), Math.round on store *)
| Rev2.  (* new Uint8ClampedArray(originalData.slice()) *)

(** The array buffers of the heap: a typed array is named by the index of
    the buffer it views, and allocation appends a buffer. *)
Abbreviation Store := (list (list Z)).

(** [ImageData]: [data] names the buffer viewed by the [Uint8ClampedArray]. *)
Record ImageData : Type := {
  width : nat;
  height : nat;
  data : nat
}.

(** [arr[i]] on a typed array. *)
Definition ta_get (st : Store) (buf i : nat) : option Z := grid_get buf i st.

(** [arr[i] = x] on a [Uint8ClampedArray]: the value is converted, and an
    index outside the array is ignored. *)
Definition ta_set (buf i : nat) (x : R) (st : Store) : Store :=
  grid_alter (fun _ => Js.ToUint8Clamp x) buf i st.

(** Bytes of an image, as the store holds them. *)
Definition image_bytes (st : Store) (img : ImageData) : list Z :=
  default [] (st !! data img).

(** The host's canvas, as [resizeKnotMap] uses it: whether
    [getContext('2d')] answers on the source and on the target canvas, and
    what [drawImage] followed by [getImageData] yields for RGBA bytes
    [src] of a [sw] x [sh] image drawn onto a [tw] x [th] canvas. *)
Record Canvas : Type := {
  source_context : bool;
  target_context : bool;
  drawImage : nat -> nat -> list Z -> nat -> nat -> list Z
}.

Module ImageUtils.
Import MathHelpers.

(** *** resizeKnotMap *)

(** First pair of loops: the largest counter. *)
Definition scan_max (knotMap : KnotMap) (sourceHeight sourceWidth : nat)
    : nat :=
  for_range sourceHeight (fun r_idx =>
    for_range sourceWidth (fun c_idx maxKnotVal =>
      match grid_get r_idx c_idx knotMap with
      | Some k => if Nat.ltb maxKnotVal k then k else maxKnotVal
      | None => maxKnotVal
      end)) 0%nat.

(** The grey level of one cell; a missing cell is [undefined], whose
    [NaN] the clamped array stores as 0. *)
Definition normVal (knotMap : KnotMap) (maxKnotVal r_idx c_idx : nat) : R :=
  match grid_get r_idx c_idx knotMap with
  | Some k => IZR (Js.Math_floor ((INR k / INR maxKnotVal) * 255))
  | None => 0
  end.

(** Second pair of loops: the RGBA bytes of the source image. *)
Definition paint_source (knotMap : KnotMap)
    (sourceHeight sourceWidth maxKnotVal : nat) : list Z :=
  for_range sourceHeight (fun r_idx =>
    for_range sourceWidth (fun c_idx bytes =>
      let v := Js.ToUint8Clamp (normVal knotMap maxKnotVal r_idx c_idx) in
      let idx := ((r_idx * sourceWidth + c_idx) * 4)%nat in
      <[(idx + 3)%nat := 255%Z]>
        (<[(idx + 2)%nat := v]> (<[(idx + 1)%nat := v]> (<[idx := v]> bytes)))))
    (replicate (4 * sourceWidth * sourceHeight) 0%Z).

(** Third pair of loops: the red channel scaled to [0,1], and its
    largest value.  [getImageData] returns [4 * tw * th] bytes, so the
    read is always inside the array. *)
Definition read_resized (bytes : list Z) (targetHeight targetWidth : nat)
    (init : list (list R)) : list (list R) * R :=
  for_range targetHeight (fun r_idx =>
    for_range targetWidth (fun c_idx '(resizedKnotMap, maxResizedVal) =>
      let val :=
        IZR (default 0%Z (bytes !! ((r_idx * targetWidth + c_idx) * 4)%nat))
        / 255 in
      (grid_set r_idx c_idx val resizedKnotMap,
       if Js.gtb val maxResizedVal then val else maxResizedVal)))
    (init, 0).

(** Fourth pair of loops: the second normalisation. *)
Definition renormalise (maxResizedVal : R) (targetHeight targetWidth : nat)
    (m : list (list R)) : list (list R) :=
  for_range targetHeight (fun r_idx =>
    for_range targetWidth (fun c_idx =>
      grid_alter (fun v => v / maxResizedVal) r_idx c_idx)) m.

Definition resizeKnotMap (canvas : Canvas) (knotMap : KnotMap)
    (targetWidth targetHeight : nat) : Js.Error + list (list R) :=
  if Nat.eqb (length knotMap) 0
     || Nat.eqb (length (default [] (knotMap !! 0%nat))) 0
  then inr (replicate targetHeight (replicate targetWidth 0))
  else
    let sourceHeight := length knotMap in
    let sourceWidth := length (default [] (knotMap !! 0%nat)) in
    if negb (source_context canvas) then inl Js.NoContextError
    else
      let maxKnotVal := scan_max knotMap sourceHeight sourceWidth in
      let maxKnotVal := if Nat.eqb maxKnotVal 0 then 1%nat else maxKnotVal in
      let sourceImageData :=
        paint_source knotMap sourceHeight sourceWidth maxKnotVal in
      if negb (target_context canvas) then inl Js.NoContextError
      else if Nat.eqb targetWidth 0 || Nat.eqb targetHeight 0
      then inl Js.IndexSizeError
      else
        let resizedImageData :=
          drawImage canvas sourceWidth sourceHeight sourceImageData
                    targetWidth targetHeight in
        let '(resizedKnotMap, maxResizedVal) :=
          read_resized resizedImageData targetHeight targetWidth
            (replicate targetHeight (replicate targetWidth 0)) in
        if Js.gtb maxResizedVal 0
        then inr (renormalise maxResizedVal targetHeight targetWidth
                              resizedKnotMap)
        else inr resizedKnotMap.

(** *** processImageWithSubQG *)

Definition fieldColorModulationStrength (harmonyScore : R) : R :=
  0.15 * (1.0 - harmonyScore).

Definition fieldBrightnessVariationStrength (harmonyScore : R) : R :=
  0.10 * (1.0 - harmonyScore).

Definition colorTempShift (harmonyScore : R) : R :=
  (harmonyScore - 0.5) * 0.25.

Definition saturationFactor (harmonyScore : R) : R :=
  1.0 + (harmonyScore - 0.5) * 0.25.

(** The [forEach] over the category activations, from the two sliders. *)
Definition fold_activations (categoryActivations : list R)
    (brightnessFactor contrastFactor : R) : R * R :=
  fold_left
    (fun '(currentBrightnessMod, currentContrastMod) activation =>
       (currentBrightnessMod + (activation - 0.5) * 0.15,
        currentContrastMod * (1.0 + (activation - 0.5) * 0.10)))
    categoryActivations (brightnessFactor, contrastFactor).

(** Step 1 on one channel byte. *)
Definition base_channel (byte : Z) (mods : R * R) : R :=
  let x := IZR byte / 255.0 in
  clamp ((x - 0.5) * snd mods + 0.5 + fst mods) 0 1.

(** Step 2: the wave field at pixel [(r_idx, c_idx)]. *)
Definition fieldInfluence (imgWidth imgHeight : nat) (harmonyScore : R)
    (globalPhaseOffsetX globalPhaseOffsetY : R)
    (r_idx c_idx : nat) (knotValue : R) : R :=
  let waveFrequencyX := 3.0 + harmonyScore * 4.0 in
  let waveFrequencyY := 2.0 + harmonyScore * 3.0 in
  let knotPhaseInfluence := PI in
  let normX := INR c_idx / INR imgWidth in
  let normY := INR r_idx / INR imgHeight in
  let waveX := sin (normX * waveFrequencyX * PI * 2
                    + knotValue * knotPhaseInfluence + globalPhaseOffsetX) in
  let waveY := sin (normY * waveFrequencyY * PI * 2
                    + knotValue * knotPhaseInfluence + globalPhaseOffsetY) in
  (waveX + waveY) / 2.0.

Definition effectiveColorTempShift (harmonyScore fieldInfluence : R) : R :=
  colorTempShift harmonyScore
  * (1 + fieldInfluence * fieldColorModulationStrength harmonyScore).

Definition effectiveSaturationFactor (harmonyScore fieldInfluence : R) : R :=
  saturationFactor harmonyScore
  * (1 + fieldInfluence * fieldColorModulationStrength harmonyScore * 0.5).

Definition brightnessFieldVariation (harmonyScore fieldInfluence : R) : R :=
  fieldInfluence * fieldBrightnessVariationStrength harmonyScore.

(** Steps 3 and 4 on the three channels, each in [0,1] on entry. *)
Definition colour_mood (rev : Revision) (harmonyScore fieldInfluence : R)
    (rgb : R * R * R) : R * R * R :=
  let '(r, g, b) := rgb in
  let shift := effectiveColorTempShift harmonyScore fieldInfluence in
  let '(r, g, b) :=
    if Js.gtb shift 0
    then (clamp (r + shift * 0.20) 0 1,
          clamp (g + shift * 0.10) 0 1,
          clamp (b - shift * 0.15) 0 1)
    else (clamp (r + shift * 0.15) 0 1,
          match rev with Rev1 => clamp g 0 1 | Rev2 => g end,
          clamp (b - shift * 0.20) 0 1) in
  let sat := effectiveSaturationFactor harmonyScore fieldInfluence in
  let luma := 0.299 * r + 0.587 * g + 0.114 * b in
  let r := clamp (luma + (r - luma) * sat) 0 1 in
  let g := clamp (luma + (g - luma) * sat) 0 1 in
  let b := clamp (luma + (b - luma) * sat) 0 1 in
  let variation := brightnessFieldVariation harmonyScore fieldInfluence in
  (clamp (r + variation) 0 1,
   clamp (g + variation) 0 1,
   clamp (b + variation) 0 1).

(** The number assigned to [newData[i]] for a channel value [x].  The
    rounding is that of the exact product [x * 255]; the code rounds the
    double it has computed, so where the exact product is half-way
    between two integers the byte of the code can be the other one. *)
Definition stored (rev : Revision) (x : R) : R :=
  match rev with
  | Rev1 => IZR (Js.Math_round (clamp (x * 255) 0 255))
  | Rev2 => clamp (x * 255) 0 255
  end.

(** The three numbers a pixel stores, from its three bytes and the
    field influence at the pixel.  [None] for the field influence is the
    [NaN] of an [undefined] knot value: it reaches every channel, and the
    clamped array stores it as 0. *)
Definition pixel_values (rev : Revision) (mods : R * R) (harmonyScore : R)
    (influence : option R) (r0 g0 b0 : Z) : R * R * R :=
  match influence with
  | Some fieldInfluence =>
    let '(r, g, b) :=
      colour_mood rev harmonyScore fieldInfluence
        (base_channel r0 mods, base_channel g0 mods, base_channel b0 mods) in
    (stored rev r, stored rev g, stored rev b)
  | None => (0, 0, 0)
  end.

(** Body of the inner loop.  [src] is the buffer of [originalData], [dst]
    that of [newData]; every read goes to the store as it is at that
    point of the loop.  [influence r c] is the field influence of the
    pixel, or the [TypeError] of a missing row of the knot map. *)
Definition process_pixel (rev : Revision) (mods : R * R) (harmonyScore : R)
    (influence : nat -> nat -> Js.Error + option R)
    (imgWidth src dst r_idx c_idx : nat)
    (acc : Store * option Js.Error) : Store * option Js.Error :=
  let '(st, failure) := acc in
  match failure with
  | Some _ => acc
  | None =>
    let pixelIdx := ((r_idx * imgWidth + c_idx) * 4)%nat in
    match ta_get st src pixelIdx, ta_get st src (pixelIdx + 1),
          ta_get st src (pixelIdx + 2) with
    | Some r0, Some g0, Some b0 =>
      match influence r_idx c_idx with
      | inl e => (st, Some e)
      | inr fi =>
        let '(r, g, b) := pixel_values rev mods harmonyScore fi r0 g0 b0 in
        let st := ta_set dst pixelIdx r st in
        let st := ta_set dst (pixelIdx + 1) g st in
        let st := ta_set dst (pixelIdx + 2) b st in
        match ta_get st src (pixelIdx + 3) with
        | Some a => (ta_set dst (pixelIdx + 3) (IZR a) st, None)
        | None => (st, None)
        end
      end
    | _, _, _ => acc
    end
  end.

(** The two loops over the pixels. *)
Definition process_pixels (rev : Revision) (mods : R * R) (harmonyScore : R)
    (influence : nat -> nat -> Js.Error + option R)
    (imgWidth imgHeight src dst : nat) (st : Store)
    : Store * option Js.Error :=
  for_range imgHeight (fun r_idx =>
    for_range imgWidth (fun c_idx =>
      process_pixel rev mods harmonyScore influence imgWidth src dst
                    r_idx c_idx)) (st, None).

(** [new ImageData(new Uint8ClampedArray(...), imgWidth, imgHeight)]:
    revision 1 views the buffer of the original, revision 2 copies the
    bytes ([slice]) and copies the copy (the typed-array constructor).
    The result is the store and the buffer of the new [data]. *)
Definition new_data (rev : Revision) (st : Store) (img : ImageData)
    : Store * nat :=
  match rev with
  | Rev1 => (st, data img)
  | Rev2 =>
    let sliced := image_bytes st img in
    let st1 := st ++ [sliced] in
    (st1 ++ [sliced], length st1)
  end.

(** The pixel transform with the field influence of each pixel given by
    [influence].  [ImageData] refuses a byte array whose length is not
    [4 * width * height]. *)
Definition processImageWith (rev : Revision)
    (influence : nat -> nat -> Js.Error + option R)
    (st : Store) (originalImageData : ImageData)
    (categoryActivations : list R) (brightnessFactor contrastFactor : R)
    (harmonyScore : R) : Store * (Js.Error + ImageData) :=
  let imgWidth := width originalImageData in
  let imgHeight := height originalImageData in
  let '(st1, dst) := new_data rev st originalImageData in
  if negb (Nat.eqb (length (default [] (st1 !! dst)))
                   (4 * imgWidth * imgHeight))
     || Nat.eqb (4 * imgWidth * imgHeight) 0
  then (st1, inl Js.IndexSizeError)
  else
    let mods :=
      fold_activations categoryActivations brightnessFactor contrastFactor in
    let '(st2, failure) :=
      process_pixels rev mods harmonyScore influence imgWidth imgHeight
                     (data originalImageData) dst st1 in
    match failure with
    | Some e => (st2, inl e)
    | None =>
      (st2, inr {| width := imgWidth; height := imgHeight; data := dst |})
    end.

(** The field influence the source computes: two draws of
    [Math.random()] fix the global phase offsets, the knot value comes
    from [resizedKnotMap[r_idx][c_idx]]. *)
Definition wave_influence (random : nat -> R) (imgWidth imgHeight : nat)
    (resizedKnotMap : list (list R)) (harmonyScore : R)
    (r_idx c_idx : nat) : Js.Error + option R :=
  let globalPhaseOffsetX := random 0%nat * PI * 2 in
  let globalPhaseOffsetY := random 1%nat * PI * 2 in
  match resizedKnotMap !! r_idx with
  | None => inl Js.TypeError
  | Some row =>
    inr (fieldInfluence imgWidth imgHeight harmonyScore
           globalPhaseOffsetX globalPhaseOffsetY r_idx c_idx
         <$> row !! c_idx)
  end.

Definition processImageWithSubQG (rev : Revision) (random : nat -> R)
    (st : Store) (originalImageData : ImageData)
    (categoryActivations : list R) (brightnessFactor contrastFactor : R)
    (resizedKnotMap : list (list R)) (harmonyScore : R)
    : Store * (Js.Error + ImageData) :=
  processImageWith rev
    (wave_influence random (width originalImageData)
                    (height originalImageData) resizedKnotMap harmonyScore)
    st originalImageData categoryActivations brightnessFactor contrastFactor
    harmonyScore.

End ImageUtils.

(** ** constants.ts: the category labels *)

Definition CATEGORY_LABELS_ORDERED : list string :=
  ["Red"; "Green"; "Blue"; "Yellow"; "Cyan"; "Magenta"]%string.

(** ** services/imageUtils.ts: the colour profile *)

Module Colors.

(** [MainColor] of types.ts. *)
Record MainColor : Type := {
  r : Z;
  g : Z;
  b : Z;
  activation : R
}.















(** [forEach((color, index) => activations[index] = color.activation)]
    from index [index] on. *)
Fixpoint assign_activations (index : nat) (colors : list MainColor)
    (activations : list R) : list R :=
  match colors with
  | [] => activations
  | color :: rest =>
    assign_activations (S index) rest
                       (<[index := activation color]> activations)
  end.

Definition createCategoryActivations (mainColors : list MainColor)
    : list R :=
  let activations := replicate (length CATEGORY_LABELS_ORDERED) 0.5 in
  assign_activations 0 (take (length CATEGORY_LABELS_ORDERED) mainColors)
                     activations.

End Colors.

(** ** App.tsx: the size of the simulation grid

    [handleTransform] derives the grid from the image: an eighth of each
    side, kept between 32 and 128.  The first version of the file passes
    the quotient on as it is; the second one takes [Math.floor] of it. *)

Module App.

Definition field_size_v1 (side : nat) : R :=
  Rmax 32 (Rmin 128 (INR side / 8)).

Definition field_size_v2 (side : nat) : R :=
  Rmax 32 (Rmin 128 (IZR (Js.Math_floor (INR side / 8)))).

(** [Array(x)] for a number [x]: the length must be an integer from 0 to
    [2^32 - 1]. *)
Definition array_length (x : R) : Js.Error + Z :=
  let z := Zfloor x in
  if Req_dec_T (IZR z) x
  then if Js.valid_array_length z then inr z else inl Js.RangeError
  else inl Js.RangeError.

(** [new SubQGSimulator({...subQGParams, field_w, field_h})] for numbers
    [field_w] and [field_h]: the first [Array(params.field_h)] meets the
    height; the width is met when the first row is built, so with no row
    nothing reads it (the record then holds 0 for it). *)
Definition new_simulator (subQGParams : SubQGParams) (field_w field_h : R)
    : Js.Error + SubQGSimulator.t :=
  let with_size w h :=
    {| sim_duration := sim_duration subQGParams;
       noise_factor := noise_factor subQGParams;
       threshold_s := threshold_s subQGParams;
       decimal_precision := decimal_precision subQGParams;
       f_energy := f_energy subQGParams;
       f_phase := f_phase subQGParams;
       re_s_scaling_c := re_s_scaling_c subQGParams;
       field_w := w; field_h := h |} in
  match array_length field_h with
  | inl e => inl e
  | inr h =>
    if (h =? 0)%Z then SubQGSimulator.constructor (with_size 0%Z h)
    else match array_length field_w with
         | inl e => inl e
         | inr w => SubQGSimulator.constructor (with_size w h)
         end
  end.

End App.

(** ** The statistics in the specification's words

    Population mean, population standard deviation and range, written as
    sums over the sample rather than as the [reduce] loops of the source. *)

Module Spec.

Fixpoint total (l : list R) : R :=
  match l with
  | [] => 0
  | x :: t => x + total t
  end.

Definition mean (l : list R) : R := total l / INR (length l).

Definition population_stddev (l : list R) : R :=
  sqrt (total (map (fun x => (x - mean l) * (x - mean l)) l)
        / INR (length l)).

Fixpoint maximum (x : R) (l : list R) : R :=
  match l with
  | [] => x
  | y :: t => Rmax x (maximum y t)
  end.

Fixpoint minimum (x : R) (l : list R) : R :=
  match l with
  | [] => x
  | y :: t => Rmin x (minimum y t)
  end.

Definition range (l : list R) : R :=
  match l with
  | [] => 0
  | x :: t => maximum x t - minimum x t
  end.

(** [clamp(v, lo, hi)] as a case distinction. *)
Definition clamped (v lo hi : R) : R :=
  if Rlt_dec v lo then lo else if Rlt_dec hi v then hi else v.

(** The reported deviation: the population standard deviation when there
    is more than one value and the range is positive, 1 otherwise. *)
Definition deviation_or_one (l : list R) : R :=
  match lt_dec 1 (length l), Rlt_dec 0 (range l) with
  | left _, left _ => population_stddev l
  | _, _ => 1
  end.

(** The harmony score of a mean and a deviation. *)
Definition harmony (mean stddev : R) : R :=
  let proximity := 1 - Rmin 1 (Rabs (mean - 0.5) / 0.25) in
  let concentration := 1 - Rmin 1 (stddev / 0.15) in
  clamped (0.6 * proximity + 0.4 * concentration) 0 1.

End Spec.

(** ** Shapes and cells *)

(** A grid of [h] rows of [w] cells. *)
Definition grid_dims {A : Type} (h w : nat) (g : list (list A)) : Prop :=
  length g = h /\ Forall (fun row => length row = w) g.

(** The cells the two nested loops have passed when the outer one is at
    row [r] and the inner one at column [c]. *)
Definition passed (r c r0 c0 : nat) : bool :=
  Nat.ltb r0 r || (Nat.eqb r0 r && Nat.ltb c0 c).

(** Whether the fields of [s] show a knot at cell [(r, c)]. *)
Definition knot_at (s : SubQGSimulator.t) (r c : nat) : bool :=
  match grid_get r c (SubQGSimulator.energy_field s),
        grid_get r c (SubQGSimulator.phase_field s) with
  | Some (Js.Num e), Some (Js.Num ph) => SubQGSimulator.detected_knot s e ph
  | _, _ => false
  end.

(** ** The engine *)

(** What the theorems assume of the engine's sine and cosine: the sine
    of 0 is 0, and both stay within [-1, 1].  The doubles that [Math.sin]
    and [Math.cos] return satisfy it. *)
Definition trig_contract (engine : Js.Engine) : Prop :=
  Js.Math_sin engine 0 = 0
  /\ (forall x, -1 <= Js.Math_sin engine x <= 1)
  /\ (forall x, -1 <= Js.Math_cos engine x <= 1).

(** An engine whose sine and cosine are the real ones, and whose calls
    take up to 500000 arguments. *)
Definition sample_engine : Js.Engine :=
  {| Js.Math_sin := sin; Js.Math_cos := cos;
     Js.max_arguments := Z.to_nat 500000 |}.

(** A log of 500001 detected knots. *)
Definition long_log : list R := replicate (Z.to_nat 500001) 0.9.

(** Whether [Math.max(...arr)] fails on an array of [n] numbers. *)
Definition too_many_arguments (engine : Js.Engine) (n : nat) : Prop :=
  (Js.max_arguments engine < n)%nat.

(** The logs on which the analysis spreads an array that the engine does
    not take: more than one value (a single one never reaches the range),
    and more values than arguments allowed. *)
Definition log_too_long (engine : Js.Engine) (log : list R) : Prop :=
  (1 < length log)%nat /\ too_many_arguments engine (length log).

(** The values the analysis works on. *)
Definition projected_values (log : list R) (c : R) : list R :=
  map (fun val => val * 5.0 * c) log.

(** The record the analysis returns for a log that is not empty, when it
    returns. *)
Definition analysed (log : list R) (c : R) : RiemannStats :=
  let projected := projected_values log c in
  let std_dev :=
    if Nat.ltb 1 (length projected) && Js.gtb (Spec.range projected) 0
    then MathHelpers.calculateStdDev projected else 1 in
  {| mean_re_s := MathHelpers.calculateMean projected;
     median_re_s := MathHelpers.calculateMedian projected;
     std_dev_re_s := std_dev;
     count_near_0_5 :=
       length (List.filter
                 (fun val => Js.geb val (0.5 - 0.05) && Js.leb val (0.5 + 0.05))
                 projected);
     total_projected_knots := length projected;
     harmony_score :=
       MathHelpers.clamp
         ((1 - Rmin 1 (Rabs (MathHelpers.calculateMean projected - 0.5)
                       / (0.5 * 0.5))) * 0.6
          + (1 - Rmin 1 (std_dev / 0.15)) * 0.4) 0 1;
     internal_prescale_factor_used := 5 |}.

(** What a cell of a field holds after [updateWaves] under the
    configuration [p]: [NaN] when the grid has a single column or a single
    row ([linspace] with one point), and otherwise a number that the
    clamp keeps in [[0, 1 + noise_factor]]. *)
Definition clamped_cell (p : SubQGParams) (v : Js.number) : Prop :=
  match v with
  | Js.Num x =>
    field_w p <> 1%Z /\ field_h p <> 1%Z /\ 0 <= x <= 1 + noise_factor p
  | Js.NaN => field_w p = 1%Z \/ field_h p = 1%Z
  end.

(** ** Array lengths *)

(** An integer that [Array(n)] accepts. *)
Definition array_length_ok (n : Z) : Prop :=
  (0 <= n < Js.array_length_limit)%Z.

(** The sizes on which building an [h x w] grid fails: a height that is no
    array length, or such a width when there is a row to build. *)
Definition grid_refused (h w : Z) : Prop :=
  ~ array_length_ok h \/ ((0 < h)%Z /\ ~ array_length_ok w).

(** ** constants.ts, and the inputs of the specification's scenarios *)

Definition DEFAULT_SUBQG_PARAMS : SubQGParams :=
  {| sim_duration := 30; noise_factor := 0.04; threshold_s := 0.75;
     decimal_precision := 3; f_energy := 0.15; f_phase := 0.155;
     re_s_scaling_c := 0.10; field_w := 64; field_h := 64 |}.

(** [{W=4, H=4, T=1, f_e=0.15, f_p=0.155, noise=0, threshold_s=0.0,
    precision=3, c=0.10}]. *)
Definition scenario_params : SubQGParams :=
  {| sim_duration := 1; noise_factor := 0; threshold_s := 0.0;
     decimal_precision := 3; f_energy := 0.15; f_phase := 0.155;
     re_s_scaling_c := 0.10; field_w := 4; field_h := 4 |}.

(** The same grid with no step to run. *)
Definition zero_duration_params : SubQGParams :=
  {| sim_duration := 0; noise_factor := 0.04; threshold_s := 0.75;
     decimal_precision := 3; f_energy := 0.15; f_phase := 0.155;
     re_s_scaling_c := 0.10; field_w := 4; field_h := 4 |}.

(** A [128 x 128] grid, 100 steps, no noise, the same frequency for the
    energy and the phase and a threshold below every energy: each cell
    registers a knot in each step. *)
Definition dense_params : SubQGParams :=
  {| sim_duration := 100; noise_factor := 0; threshold_s := -0.5;
     decimal_precision := 3; f_energy := 0.15; f_phase := 0.15;
     re_s_scaling_c := 0.10; field_w := 128; field_h := 128 |}.

(** A grid of negative height. *)
Definition negative_height_params : SubQGParams :=
  {| sim_duration := 30; noise_factor := 0.04; threshold_s := 0.75;
     decimal_precision := 3; f_energy := 0.15; f_phase := 0.155;
     re_s_scaling_c := 0.10; field_w := 4; field_h := -1 |}.

(** A random source that always returns 0. *)
Definition always_zero : nat -> R := fun _ => 0.

(** The instance [new SubQGSimulator(p)] builds for a [4 x 4] grid. *)
Definition fresh_4x4 (p : SubQGParams) : SubQGSimulator.t :=
  {| SubQGSimulator.params := p;
     SubQGSimulator.energy_field := replicate 4 (replicate 4 (Js.Num 0));
     SubQGSimulator.phase_field := replicate 4 (replicate 4 (Js.Num 0));
     SubQGSimulator.knot_map := replicate 4 (replicate 4 0%nat);
     SubQGSimulator.detected_knot_base_values := [];
     SubQGSimulator.rounding_factor := powerRZ 10 (decimal_precision p);
     SubQGSimulator.omega_energy := f_energy p * 2 * PI;
     SubQGSimulator.omega_phase := f_phase p * 2 * PI;
     SubQGSimulator.draws := 0 |}.

(** What the detection loops never touch. *)
Definition same_fields (s s' : SubQGSimulator.t) : Prop :=
  SubQGSimulator.params s' = SubQGSimulator.params s
  /\ SubQGSimulator.energy_field s' = SubQGSimulator.energy_field s
  /\ SubQGSimulator.phase_field s' = SubQGSimulator.phase_field s
  /\ SubQGSimulator.rounding_factor s' = SubQGSimulator.rounding_factor s
  /\ SubQGSimulator.omega_energy s' = SubQGSimulator.omega_energy s
  /\ SubQGSimulator.omega_phase s' = SubQGSimulator.omega_phase s
  /\ SubQGSimulator.draws s' = SubQGSimulator.draws s.

(** What [updateWaves] never touches. *)
Definition same_knots (s s' : SubQGSimulator.t) : Prop :=
  SubQGSimulator.params s' = SubQGSimulator.params s
  /\ SubQGSimulator.knot_map s' = SubQGSimulator.knot_map s
  /\ SubQGSimulator.detected_knot_base_values s'
     = SubQGSimulator.detected_knot_base_values s
  /\ SubQGSimulator.rounding_factor s' = SubQGSimulator.rounding_factor s
  /\ SubQGSimulator.omega_energy s' = SubQGSimulator.omega_energy s
  /\ SubQGSimulator.omega_phase s' = SubQGSimulator.omega_phase s.

(** [total_knots] of a result of [simulate], when there is one. *)
Definition total_knots_of (res : Js.Error + (KnotMap * nat)) : option nat :=
  match res with
  | inr (_, total_knots) => Some total_knots
  | inl _ => None
  end.

(** ** Loop invariants of the simulator, and the scenario's values *)

Section Invariants.
Import MathHelpers SubQGSimulator.
Variable engine : Js.Engine.

(** The invariant of the two detection loops. *)
Definition detect_inv (h w : nat) (s1 : t) (r c : nat) (x : t * nat) : Prop :=
  same_fields s1 (fst x)
  /\ grid_dims h w (knot_map (fst x))
  /\ knot_sum (knot_map (fst x)) = (knot_sum (knot_map s1) + snd x)%nat
  /\ length (detected_knot_base_values (fst x))
     = (length (detected_knot_base_values s1) + snd x)%nat
  /\ forall r0 c0 k0, (c0 < w)%nat ->
       grid_get r0 c0 (knot_map s1) = Some k0 ->
       grid_get r0 c0 (knot_map (fst x))
       = Some (if passed r c r0 c0 && knot_at s1 r0 c0 then S k0 else k0).

(** The invariant of the loop over the time steps. *)
Definition run_inv (p : SubQGParams) (x : t * nat) : Prop :=
  params (fst x) = p
  /\ grid_dims (Z.to_nat (field_h p)) (Z.to_nat (field_w p))
               (knot_map (fst x))
  /\ knot_sum (knot_map (fst x)) = snd x
  /\ length (detected_knot_base_values (fst x)) = snd x.

(** The value [updateWaves] leaves in a field at a cell: the clamped sum
    of the wave term and of the noise drawn for that cell. *)
Definition wave_value (s : t) (time_component : R) (r c : nat) (u : R)
    : Js.number :=
  let p := params s in
  let xv := nth c (linspace 0 (2 * PI) (field_w p)) Js.NaN in
  let yv := nth r (linspace 0 (2 * PI) (field_h p)) Js.NaN in
  Js.lift
    (fun spatial =>
       clamp (Rabs (time_component + spatial) / 2 + u * noise_factor p)
             0 (1 + noise_factor p))
    (Js.lift2 (fun x y => Js.Math_sin engine x * Js.Math_cos engine y)
              xv yv).

Definition waves_inv (random : nat -> R) (h w t0 : nat) (s : t)
    (r c : nat) (x : t) : Prop :=
  same_knots s x
  /\ grid_dims h w (energy_field x)
  /\ grid_dims h w (phase_field x)
  /\ draws x = (draws s + 2 * (r * w + c))%nat
  /\ forall r0 c0, (r0 < h)%nat -> (c0 < w)%nat ->
       passed r c r0 c0 = true ->
       let k := (draws s + 2 * (r0 * w + c0))%nat in
       grid_get r0 c0 (energy_field x)
       = Some (wave_value s
                 (Js.Math_sin engine
                    (omega_energy s * INR t0
                     / IZR (sim_duration (params s))))
                 r0 c0 (random k))
       /\ grid_get r0 c0 (phase_field x)
          = Some (wave_value s
                    (Js.Math_sin engine
                       (omega_phase s * INR t0
                        / IZR (sim_duration (params s))))
                    r0 c0 (random (S k))).


(** The common value of energy and phase at a cell of the scenario. *)
Definition scenario_value (r c : nat) : R :=
  Rabs (Js.Math_sin engine (2 * PI / 3 * INR c)
        * Js.Math_cos engine (2 * PI / 3 * INR r)) / 2.

(** The state the run starts from, and the state after [updateWaves(0)]. *)
Definition scenario_start : t :=
  with_knots (replicate 4 (replicate 4 0%nat)) []
             (fresh_4x4 scenario_params).

Definition scenario_waves : t :=
  updateWaves engine always_zero 0 scenario_start.

End Invariants.

(** ** The pixel loops *)

(** A byte of a [Uint8ClampedArray]. *)
Definition is_byte (z : Z) : Prop := (0 <= z <= 255)%Z.

(** A number exactly half-way between an even integer and the next: the
    only numbers of [[0, 255]] that [Math.round] and the clamped array
    round differently. *)
Definition half_above_even (v : R) : Prop :=
  v - IZR (Zfloor v) = / 2 /\ Z.even (Zfloor v) = true.

(** The four bytes of pixel [(r, c)] of an image [w] pixels wide. *)
Definition pixel_at (w : nat) (bytes : list Z) (r c : nat)
    : option (Z * Z * Z * Z) :=
  let idx := ((r * w + c) * 4)%nat in
  match bytes !! idx, bytes !! (idx + 1)%nat,
        bytes !! (idx + 2)%nat, bytes !! (idx + 3)%nat with
  | Some r0, Some g0, Some b0, Some a0 => Some (r0, g0, b0, a0)
  | _, _, _, _ => None
  end.

(** The four bytes the loop body leaves for a pixel that held
    [(r0, g0, b0, a0)], under the field influence [fi]. *)
Definition pixel_result (rev : Revision) (mods : R * R) (harmonyScore : R)
    (fi : option R) (px : Z * Z * Z * Z) : Z * Z * Z * Z :=
  let '(r0, g0, b0, a0) := px in
  let '(r, g, b) :=
    ImageUtils.pixel_values rev mods harmonyScore fi r0 g0 b0 in
  (Js.ToUint8Clamp r, Js.ToUint8Clamp g, Js.ToUint8Clamp b,
   Js.ToUint8Clamp (IZR a0)).

(** ** The colour mood in the specification's words

    The strength of the field's modulation, and what it modulates: the
    colour-temperature shift takes the full modulation
    [1 + fieldInfluence * s], the saturation factor half of it, and the
    brightness delta has a strength of its own. *)
Definition modulation_strength (harmonyScore : R) : R :=
  0.15 * (1 - harmonyScore).

Definition temperature_shift (harmonyScore fieldInfluence : R) : R :=
  (harmonyScore - 0.5) * 0.25
  * (1 + fieldInfluence * modulation_strength harmonyScore).

Definition saturation (harmonyScore fieldInfluence : R) : R :=
  (1 + (harmonyScore - 0.5) * 0.25)
  * (1 + fieldInfluence * modulation_strength harmonyScore * 0.5).

Definition brightness_delta (harmonyScore fieldInfluence : R) : R :=
  fieldInfluence * (0.10 * (1 - harmonyScore)).

(** The saturation factor if it took the full modulation, like the
    temperature shift. *)
Definition fully_modulated_saturation (harmonyScore fieldInfluence : R) : R :=
  (1 + (harmonyScore - 0.5) * 0.25)
  * (1 + fieldInfluence * modulation_strength harmonyScore).

(** The three channels of a pixel, each in [[0, 1]], under a temperature
    shift, a saturation factor and a brightness delta: warming or cooling,
    then the distance to the luma scaled, then the delta added, every
    step kept in [[0, 1]]. *)
Definition mood (shift sat delta : R) (rgb : R * R * R) : R * R * R :=
  let '(r, g, b) := rgb in
  let '(r, g, b) :=
    if Rlt_dec 0 shift
    then (Spec.clamped (r + 0.20 * shift) 0 1,
          Spec.clamped (g + 0.10 * shift) 0 1,
          Spec.clamped (b - 0.15 * shift) 0 1)
    else (Spec.clamped (r + 0.15 * shift) 0 1,
          g,
          Spec.clamped (b - 0.20 * shift) 0 1) in
  let luma := 0.299 * r + 0.587 * g + 0.114 * b in
  let saturated x := Spec.clamped (luma + sat * (x - luma)) 0 1 in
  (Spec.clamped (saturated r + delta) 0 1,
   Spec.clamped (saturated g + delta) 0 1,
   Spec.clamped (saturated b + delta) 0 1).

(** The four bytes of a pixel under that mood: the channels after the
    brightness and contrast step, through the mood, scaled to 255 and
    stored; the alpha byte as it is. *)
Definition mood_pixel (rev : Revision) (mods : R * R) (shift sat delta : R)
    (px : Z * Z * Z * Z) : Z * Z * Z * Z :=
  let '(r0, g0, b0, a0) := px in
  let '(x, y, z) :=
    mood shift sat delta
         (ImageUtils.base_channel r0 mods, ImageUtils.base_channel g0 mods,
          ImageUtils.base_channel b0 mods) in
  (Js.ToUint8Clamp (ImageUtils.stored rev x),
   Js.ToUint8Clamp (ImageUtils.stored rev y),
   Js.ToUint8Clamp (ImageUtils.stored rev z),
   a0).

(** The byte [z] holds the channel [x] of [[0, 1]]: it is an integer of
    [[0, 255]] next to [x * 255], whichever way a half is rounded. *)
Definition holds_channel (z : Z) (x : R) : Prop :=
  is_byte z /\ Rabs (IZR z - x * 255) <= / 2.

(** A store with one buffer: a single orange pixel, opaque. *)
Definition orange_store : Store := [[200; 100; 50; 255]%Z].

(** The invariant of the two pixel loops: no failure; the buffers other
    than [dst] are as they were; in [dst], the pixels before [(r, c)] hold
    their results and the bytes from pixel [(r, c)] on are the original
    ones. *)
Definition pixels_inv (rev : Revision) (mods : R * R) (harmonyScore : R)
    (influence : nat -> nat -> Js.Error + option R)
    (w dst : nat) (st : Store) (bytes0 : list Z)
    (r c : nat) (x : Store * option Js.Error) : Prop :=
  snd x = None
  /\ length (fst x) = length st
  /\ (forall b, b <> dst -> fst x !! b = st !! b)
  /\ exists bytes,
       fst x !! dst = Some bytes
       /\ length bytes = length bytes0
       /\ (forall i, ((r * w + c) * 4 <= i)%nat -> bytes !! i = bytes0 !! i)
       /\ (forall r1 c1 px fi, (c1 < w)%nat ->
             (r1 * w + c1 < r * w + c)%nat ->
             pixel_at w bytes0 r1 c1 = Some px ->
             influence r1 c1 = inr fi ->
             pixel_at w bytes r1 c1
             = Some (pixel_result rev mods harmonyScore fi px)).

(** An image of the store: its [data] names a buffer of
    [4 * width * height] bytes, and there is at least one pixel. *)
Definition valid_image (st : Store) (img : ImageData) : Prop :=
  exists bytes,
    st !! data img = Some bytes
    /\ length bytes = (4 * width img * height img)%nat
    /\ (0 < width img * height img)%nat
    /\ Forall is_byte bytes.

(** The field influence forced to 0 at every pixel. *)
Definition forced_zero : nat -> nat -> Js.Error + option R :=
  fun _ _ => inr (Some 0).

(** [createCategoryActivations] when no colour overrides the default:
    one 0.5 per label of [CATEGORY_LABELS_ORDERED]. *)
Definition neutral_activations : list R := replicate 6 0.5.

(** A store with one buffer: a single grey pixel, opaque. *)
Definition grey_store : Store := [[200; 200; 200; 255]%Z].

(** A store with one buffer: a single black pixel, opaque. *)
Definition black_store : Store := [[0; 0; 0; 255]%Z].

(** The [1 x 1] image over buffer 0. *)
Definition one_pixel : ImageData := {| width := 1; height := 1; data := 0 |}.

(** ** The host's canvas *)

(** [getImageData] hands back a [Uint8ClampedArray] of four bytes per
    pixel of the target. *)
Definition canvas_contract (canvas : Canvas) : Prop :=
  forall sw sh src tw th,
    length (drawImage canvas sw sh src tw th) = (4 * tw * th)%nat
    /\ Forall is_byte (drawImage canvas sw sh src tw th).

(** Scaling an opaque black image yields no red: every target pixel is a
    weighted mean of source pixels. *)
Definition canvas_keeps_black (canvas : Canvas) : Prop :=
  forall sw sh src tw th,
    (0 < sw)%nat -> (0 < sh)%nat ->
    (forall r c, (r < sh)%nat -> (c < sw)%nat ->
                 pixel_at sw src r c = Some (0, 0, 0, 255)%Z) ->
    forall r c, (r < th)%nat -> (c < tw)%nat ->
                drawImage canvas sw sh src tw th !! ((r * tw + c) * 4)%nat
                = Some 0%Z.

(** A knot map without a knot. *)
Definition all_zero (knotMap : KnotMap) : Prop :=
  Forall (Forall (fun k => k = 0%nat)) knotMap.

(** A canvas that scales by taking the nearest source pixel. *)
Definition nearest_byte (sw sh : nat) (src : list Z) (tw th i : nat) : Z :=
  let n := (i / 4)%nat in
  let k := (i mod 4)%nat in
  let r := (n / tw)%nat in
  let c := (n mod tw)%nat in
  let sr := (r * sh / th)%nat in
  let sc := (c * sw / tw)%nat in
  Z.max 0 (Z.min 255 (default 0%Z (src !! ((sr * sw + sc) * 4 + k)%nat))).

Definition nearest_canvas : Canvas :=
  {| source_context := true;
     target_context := true;
     drawImage := fun sw sh src tw th =>
       map (nearest_byte sw sh src tw th) (seq 0 (4 * tw * th)) |}.

(** The invariant of the loops that paint the source image: the cells
    before [(r, c)] hold their grey level, opaque. *)
Definition paint_inv (knotMap : KnotMap) (sw sh maxKnotVal : nat)
    (r c : nat) (bytes : list Z) : Prop :=
  length bytes = (4 * sw * sh)%nat
  /\ forall r1 c1, (c1 < sw)%nat -> (r1 * sw + c1 < r * sw + c)%nat ->
       let v := Js.ToUint8Clamp
                  (ImageUtils.normVal knotMap maxKnotVal r1 c1) in
       pixel_at sw bytes r1 c1 = Some (v, v, v, 255%Z).

(** The invariant of the loops that read the resized image: every entry
    lies between 0 and the largest value seen, itself at most 1. *)
Definition read_inv (th tw : nat) (x : list (list R) * R) : Prop :=
  grid_dims th tw (fst x)
  /\ 0 <= snd x <= 1
  /\ forall r c v, grid_get r c (fst x) = Some v -> 0 <= v <= snd x.

(** The invariant of the second normalisation by [maxResizedVal]. *)
Definition renorm_inv (th tw : nat) (maxResizedVal : R) (r c : nat)
    (m : list (list R)) : Prop :=
  grid_dims th tw m
  /\ forall r0 c0 v, grid_get r0 c0 m = Some v ->
       if passed r c r0 c0 then 0 <= v <= 1 else 0 <= v <= maxResizedVal.

(** ** The colour profile *)

Section ColorPredicates.
Import Colors.




End ColorPredicates.

(** ** The application's grid size *)

(** The sides for which an eighth, kept between 32 and 128, is not an
    integer. *)
Definition fractional_side (side : nat) : Prop :=
  (256 < side < 1024)%nat /\ (Z.of_nat side mod 8 <> 0)%Z.


(** ** The pixel loops when the influence fails

    The loops before the first cell of row [k], and after it: up to that
    cell the invariant of the loops holds, afterwards the failure [e] is
    set. *)
Definition failing_inv (rev : Revision) (mods : R * R) (harmonyScore : R)
    (influence : nat -> nat -> Js.Error + option R)
    (w dst : nat) (e : Js.Error) (k : nat)
    (st : Store) (bytes0 : list Z) (r c : nat)
    (x : Store * option Js.Error) : Prop :=
  if decide (r * w + c <= k * w)%nat
  then pixels_inv rev mods harmonyScore influence w dst st bytes0 r c x
  else snd x = Some e.

(** * Properties *)

(** ** Generic facts on the primitives *)

Lemma for_range_S {S : Type} (n : nat) (body : nat -> S -> S) (s : S) :
  for_range (Datatypes.S n) body s = body n (for_range n body s).
Proof.
  unfold for_range. rewrite seq_S, fold_left_app. reflexivity.
Qed.

Lemma for_range_ind {S : Type} (P : nat -> S -> Prop) (n : nat)
    (body : nat -> S -> S) (s : S) :
  P 0%nat s ->
  (forall i x, (i < n)%nat -> P i x -> P (Datatypes.S i) (body i x)) ->
  P n (for_range n body s).
Proof.
  intros H0 Hstep. induction n as [|n IH].
  - exact H0.
  - rewrite for_range_S. apply Hstep; [lia|].
    apply IH. intros i x Hi. apply Hstep. lia.
Qed.

(** Two nested loops: [P r c] holds when the rows below [r] are done and
    the first [c] cells of row [r]. *)
Lemma for_range2_ind {S : Type} (P : nat -> nat -> S -> Prop) (h w : nat)
    (body : nat -> nat -> S -> S) (s : S) :
  P 0%nat 0%nat s ->
  (forall r c x, (r < h)%nat -> (c < w)%nat ->
                 P r c x -> P r (Datatypes.S c) (body r c x)) ->
  (forall r x, (r < h)%nat -> P r w x -> P (Datatypes.S r) 0%nat x) ->
  P h 0%nat (for_range h (fun r => for_range w (body r)) s).
Proof.
  intros H0 Hcell Hrow.
  apply (for_range_ind (fun r x => P r 0%nat x)); [exact H0|].
  intros r x Hr Hx. apply Hrow; [exact Hr|].
  apply (for_range_ind (fun c y => P r c y)); [exact Hx|].
  intros c y Hc Hy. apply Hcell; assumption.
Qed.

Lemma clamp_bounds (v lo hi : R) :
  lo <= hi -> lo <= MathHelpers.clamp v lo hi <= hi.
Proof.
  intros H. unfold MathHelpers.clamp, Rmin, Rmax.
  repeat destruct Rle_dec; lra.
Qed.

Lemma clamp_id (v lo hi : R) :
  lo <= v <= hi -> MathHelpers.clamp v lo hi = v.
Proof.
  intros H. unfold MathHelpers.clamp, Rmin, Rmax.
  repeat destruct Rle_dec; lra.
Qed.

Lemma clamp_clamped (v lo hi : R) :
  lo <= hi -> MathHelpers.clamp v lo hi = Spec.clamped v lo hi.
Proof.
  intros H. unfold MathHelpers.clamp, Spec.clamped, Rmin, Rmax.
  repeat destruct Rle_dec; repeat destruct Rlt_dec; lra.
Qed.

(** ** The projection analyser *)

Section Analysis.
Import MathHelpers SubQGSimulator.

Lemma reduce_sum (f : R -> R) (l : list R) (a : R) :
  fold_left (fun sum val => sum + f val) l a = a + Spec.total (map f l).
Proof.
  revert a. induction l as [|x l IH]; intros a; simpl.
  - lra.
  - rewrite IH. lra.
Qed.

Lemma calculateMean_mean (l : list R) :
  l <> [] -> calculateMean l = Spec.mean l.
Proof.
  intros Hl. unfold calculateMean, Spec.mean.
  destruct l as [|x l]; [congruence|]. cbn [length Nat.eqb].
  rewrite (reduce_sum (fun v => v)), map_id. f_equal. lra.
Qed.

Lemma calculateStdDev_population (l : list R) :
  (1 < length l)%nat -> calculateStdDev l = Spec.population_stddev l.
Proof.
  intros Hl. unfold calculateStdDev, Spec.population_stddev.
  destruct (Nat.leb_spec (length l) 1) as [Hle|_]; [lia|].
  rewrite calculateMean_mean by (intros ->; simpl in Hl; lia).
  rewrite (reduce_sum (fun v => (v - Spec.mean l) ^ 2)).
  f_equal. f_equal. rewrite Rplus_0_l. f_equal.
  apply map_ext. intros a. ring.
Qed.

Lemma fold_Rmax_maximum (l : list R) (x : R) :
  fold_left Rmax l x = Spec.maximum x l.
Proof.
  revert x. induction l as [|y l IH]; intros x; simpl; [reflexivity|].
  rewrite IH. destruct l as [|z l]; simpl; [reflexivity|].
  symmetry; apply Rmax_assoc.
Qed.

Lemma fold_Rmin_minimum (l : list R) (x : R) :
  fold_left Rmin l x = Spec.minimum x l.
Proof.
  revert x. induction l as [|y l IH]; intros x; simpl; [reflexivity|].
  rewrite IH. destruct l as [|z l]; simpl; [reflexivity|].
  symmetry; apply Rmin_assoc.
Qed.

Lemma calculatePtp_range (engine : Js.Engine) (l : list R) :
  ~ too_many_arguments engine (length l) ->
  calculatePtp engine l = inr (Spec.range l).
Proof.
  unfold too_many_arguments. intros Hfew.
  destruct l as [|x l]; [reflexivity|].
  unfold calculatePtp, Spec.range. cbn [length Nat.eqb].
  unfold Js.Math_max_spread, Js.Math_min_spread.
  destruct (Nat.ltb_spec (Js.max_arguments engine) (length (x :: l)))
    as [Hlt|_]; [cbn [length] in Hlt; cbn [length] in Hfew; lia|].
  rewrite fold_Rmax_maximum, fold_Rmin_minimum. reflexivity.
Qed.

Lemma calculatePtp_too_many (engine : Js.Engine) (l : list R) :
  l <> [] -> too_many_arguments engine (length l) ->
  calculatePtp engine l = inl Js.RangeError.
Proof.
  unfold too_many_arguments. intros Hl Hmany.
  destruct l as [|x l]; [congruence|].
  unfold calculatePtp. cbn [length Nat.eqb].
  unfold Js.Math_max_spread.
  destruct (Nat.ltb_spec (Js.max_arguments engine) (length (x :: l)))
    as [_|Hle]; [reflexivity|cbn [length] in *; lia].
Qed.

Lemma gtb_true (x y : R) : Js.gtb x y = true <-> y < x.
Proof. unfold Js.gtb. destruct Rlt_dec; split; intros; congruence || lra. Qed.

Lemma gtb_false (x y : R) : Js.gtb x y = false <-> ~ y < x.
Proof. unfold Js.gtb. destruct Rlt_dec; split; intros; congruence || lra. Qed.

Lemma log_too_long_dec (engine : Js.Engine) (log : list R) :
  {log_too_long engine log} + {~ log_too_long engine log}.
Proof.
  unfold log_too_long, too_many_arguments.
  destruct (lt_dec 1 (length log)); [|right; lia].
  destruct (lt_dec (Js.max_arguments engine) (length log));
    [left; lia|right; lia].
Qed.

(** The analysis of a log that is too long for the spread. *)
Lemma riemann_projection_throws (engine : Js.Engine) (log : list R)
    (c : R) :
  log_too_long engine log ->
  riemann_projection engine log c = inl Js.RangeError.
Proof.
  intros [Hlen Hmany]. unfold riemann_projection.
  destruct log as [|x log]; [cbn in Hlen; lia|]. cbn [length Nat.eqb].
  set (projected := map _ _).
  assert (Hp : length projected = length (x :: log))
    by (unfold projected; rewrite length_map; reflexivity).
  destruct (Nat.ltb_spec 1 (length projected)) as [_|Hle];
    [|cbn [length] in *; lia].
  rewrite calculatePtp_too_many; [reflexivity| |rewrite Hp; exact Hmany].
  intros Hnil. rewrite Hnil in Hp. discriminate.
Qed.

(** The analysis of any other log that is not empty. *)
Lemma riemann_projection_returns (engine : Js.Engine) (log : list R)
    (c : R) :
  log <> [] -> ~ log_too_long engine log ->
  riemann_projection engine log c = inr (analysed log c).
Proof.
  intros Hlog Hfits. unfold riemann_projection, analysed, projected_values.
  destruct log as [|x log]; [congruence|]. cbn [length Nat.eqb].
  set (projected := map _ (x :: log)).
  assert (Hp : length projected = length (x :: log))
    by (unfold projected; rewrite length_map; reflexivity).
  replace 1.0 with 1 by lra. replace 0.0 with 0 by lra.
  replace 5.0 with 5 by lra.
  destruct (Nat.ltb_spec 1 (length projected)) as [Hlen|Hlen];
    cbn [andb]; [|reflexivity].
  rewrite calculatePtp_range; [reflexivity|].
  intros Hmany. apply Hfits. split; [rewrite <- Hp; exact Hlen|].
  rewrite <- Hp. exact Hmany.
Qed.

Lemma analysed_std_dev (log : list R) (c : R) :
  std_dev_re_s (analysed log c)
  = Spec.deviation_or_one (projected_values log c).
Proof.
  unfold analysed, Spec.deviation_or_one. cbn [std_dev_re_s].
  set (projected := projected_values log c).
  destruct (Nat.ltb_spec 1 (length projected)) as [Hlen|Hlen];
    destruct (lt_dec 1 (length projected)) as [Hl|Hl]; try lia;
    cbn [andb]; [|reflexivity].
  unfold Js.gtb. destruct (Rlt_dec 0 (Spec.range projected));
    [|reflexivity].
  apply calculateStdDev_population, Hlen.
Qed.

Lemma analysed_mean (log : list R) (c : R) :
  log <> [] ->
  mean_re_s (analysed log c) = Spec.mean (projected_values log c).
Proof.
  intros Hlog. unfold analysed. cbn [mean_re_s].
  apply calculateMean_mean. unfold projected_values.
  destruct log; [congruence|discriminate].
Qed.

Lemma analysed_harmony (log : list R) (c : R) :
  harmony_score (analysed log c)
  = Spec.harmony (mean_re_s (analysed log c))
                 (std_dev_re_s (analysed log c))
  /\ 0 <= harmony_score (analysed log c) <= 1.
Proof.
  unfold analysed, Spec.harmony. cbn [harmony_score mean_re_s std_dev_re_s].
  split.
  - rewrite <- clamp_clamped by lra.
    replace (0.5 * 0.5) with 0.25 by lra. f_equal. ring.
  - apply clamp_bounds. lra.
Qed.

Lemma long_log_too_long : log_too_long sample_engine long_log.
Proof.
  unfold log_too_long, too_many_arguments, long_log, sample_engine.
  cbn [Js.max_arguments]. rewrite length_replicate. lia.
Qed.

End Analysis.

(** C5.  On an empty log of knot events, [analyzeRiemannProjection]
    returns the degenerate record: mean 0, median 0, standard deviation 1,
    no value near the target, no event, harmony 0, prescale constant 0. *)
Theorem analyze_empty_log (engine : Js.Engine) (s : SubQGSimulator.t) :
  SubQGSimulator.detected_knot_base_values s = [] ->
  SubQGSimulator.analyzeRiemannProjection engine s
  = inr {| mean_re_s := 0; median_re_s := 0; std_dev_re_s := 1;
           count_near_0_5 := 0; total_projected_knots := 0;
           harmony_score := 0; internal_prescale_factor_used := 0 |}.
Proof.
  intros Hlog. unfold SubQGSimulator.analyzeRiemannProjection.
  rewrite Hlog. unfold SubQGSimulator.riemann_projection.
  cbn [length Nat.eqb]. unfold SubQGSimulator.degenerate_stats.
  f_equal. f_equal; lra.
Qed.

(** C6.  For a log that is not empty and that the engine can spread into
    the arguments of [Math.max], the reported standard deviation is the
    population standard deviation of the projected values when there is
    more than one of them and their range is positive, and 1 otherwise.
    For a log of more than one value that the engine cannot spread, the
    analysis raises a [RangeError] and reports nothing. *)
Theorem std_dev_fails_on_long_logs (engine : Js.Engine) (log : list R)
    (c : R) :
  log <> [] ->
  let projected := map (fun val => val * 5.0 * c) log in
  (log_too_long engine log ->
   SubQGSimulator.riemann_projection engine log c = inl Js.RangeError)
  /\ (~ log_too_long engine log ->
      exists stats,
        SubQGSimulator.riemann_projection engine log c = inr stats
        /\ ((1 < length projected)%nat /\ 0 < Spec.range projected ->
            std_dev_re_s stats = Spec.population_stddev projected)
        /\ (~ ((1 < length projected)%nat /\ 0 < Spec.range projected) ->
            std_dev_re_s stats = 1)).
Proof.
  intros Hlog projected. split.
  - apply riemann_projection_throws.
  - intros Hfits. exists (analysed log c).
    split; [apply riemann_projection_returns; assumption|].
    rewrite analysed_std_dev. unfold Spec.deviation_or_one.
    fold (projected_values log c). change (projected_values log c)
      with projected.
    split.
    + intros [Hlen Hrange].
      destruct (lt_dec 1 (length projected)); [|lia].
      destruct (Rlt_dec 0 (Spec.range projected)); [reflexivity|lra].
    + intros Hnot.
      destruct (lt_dec 1 (length projected)); [|reflexivity].
      destruct (Rlt_dec 0 (Spec.range projected)); [tauto|reflexivity].
Qed.

Lemma std_dev_fails_on_long_logs_witness :
  SubQGSimulator.riemann_projection sample_engine long_log 0.1
  = inl Js.RangeError
  /\ exists stats,
       SubQGSimulator.riemann_projection sample_engine [0.1; 0.1; 0.1] 1.0
       = inr stats
       /\ std_dev_re_s stats = 1.
Proof.
  split.
  - apply (std_dev_fails_on_long_logs sample_engine long_log 0.1).
    + unfold long_log. intros Hnil.
      apply (f_equal (@length R)) in Hnil.
      rewrite length_replicate in Hnil. cbn [length] in Hnil. lia.
    + apply long_log_too_long.
  - destruct (std_dev_fails_on_long_logs sample_engine [0.1; 0.1; 0.1] 1.0)
      as [_ Hshort]; [discriminate|].
    destruct Hshort as (stats & Hrun & _ & Hone).
    + unfold log_too_long, too_many_arguments, sample_engine.
      cbn [Js.max_arguments length]. lia.
    + exists stats. split; [exact Hrun|]. apply Hone.
      cbn [map Spec.range Spec.maximum Spec.minimum].
      unfold Rmax, Rmin. repeat destruct Rle_dec; lra.
Defined.

(** C7.  For a log that is not empty and that the engine can spread into
    the arguments of [Math.max], the harmony score is
    [clamp(0.6 * proximity + 0.4 * concentration, 0, 1)] with
    [proximity = 1 - min(1, |mean - 0.5| / 0.25)] and
    [concentration = 1 - min(1, stddev / 0.15)], for the mean of the
    projected values and the reported deviation, and it lies in [0,1].
    For a log of more than one value that the engine cannot spread, the
    analysis raises a [RangeError] and there is no score. *)
Theorem harmony_fails_on_long_logs (engine : Js.Engine) (log : list R)
    (c : R) :
  log <> [] ->
  let projected := map (fun val => val * 5.0 * c) log in
  let mean := Spec.mean projected in
  let stddev := Spec.deviation_or_one projected in
  let proximity := 1 - Rmin 1 (Rabs (mean - 0.5) / 0.25) in
  let concentration := 1 - Rmin 1 (stddev / 0.15) in
  (log_too_long engine log ->
   SubQGSimulator.riemann_projection engine log c = inl Js.RangeError)
  /\ (~ log_too_long engine log ->
      exists stats,
        SubQGSimulator.riemann_projection engine log c = inr stats
        /\ mean_re_s stats = mean
        /\ std_dev_re_s stats = stddev
        /\ harmony_score stats
           = Spec.clamped (0.6 * proximity + 0.4 * concentration) 0 1
        /\ 0 <= harmony_score stats <= 1).
Proof.
  intros Hlog projected mean stddev proximity concentration. split.
  - apply riemann_projection_throws.
  - intros Hfits. exists (analysed log c).
    split; [apply riemann_projection_returns; assumption|].
    destruct (analysed_harmony log c) as [Hscore Hrange].
    split; [apply analysed_mean, Hlog|].
    split; [apply analysed_std_dev|].
    split; [|exact Hrange].
    rewrite Hscore, analysed_mean, analysed_std_dev by exact Hlog.
    reflexivity.
Qed.

Lemma harmony_fails_on_long_logs_witness :
  SubQGSimulator.riemann_projection sample_engine long_log 0.1
  = inl Js.RangeError
  /\ exists stats,
       SubQGSimulator.riemann_projection sample_engine [0.1] 1.0 = inr stats
       /\ harmony_score stats = 0.6.
Proof.
  split.
  - apply (harmony_fails_on_long_logs sample_engine long_log 0.1).
    + unfold long_log. intros Hnil.
      apply (f_equal (@length R)) in Hnil.
      rewrite length_replicate in Hnil. cbn [length] in Hnil. lia.
    + apply long_log_too_long.
  - destruct (harmony_fails_on_long_logs sample_engine [0.1] 1.0)
      as [_ Hshort]; [discriminate|].
    destruct Hshort as (stats & Hrun & _ & _ & Hscore & _).
    + unfold log_too_long. cbn [length]. lia.
    + exists stats. split; [exact Hrun|]. rewrite Hscore.
      unfold Spec.deviation_or_one, Spec.mean.
      cbn [map length Spec.total INR].
      destruct (lt_dec 1 1) as [Hlt|_]; [lia|].
      replace ((0.1 * 5.0 * 1.0 + 0) / 1 - 0.5) with 0 by lra.
      rewrite Rabs_R0. unfold Spec.clamped, Rmin.
      repeat destruct Rle_dec; repeat destruct Rlt_dec; lra.
Defined.

(** ** Grids *)

Section Grids.
Context {A : Type}.
Implicit Types (g : list (list A)) (f : A -> A).

Lemma grid_dims_alter f h w r c g :
  grid_dims h w g -> grid_dims h w (grid_alter f r c g).
Proof.
  intros [Hlen Hrows]. unfold grid_alter. split.
  - rewrite length_alter. exact Hlen.
  - apply Forall_lookup_2. intros i row Hrow.
    destruct (decide (r = i)) as [->|Hne].
    + rewrite list_lookup_alter_eq in Hrow.
      destruct (g !! i) as [row0|] eqn:Hg; [|discriminate].
      injection Hrow as <-. rewrite length_alter.
      exact (Forall_lookup_1 _ _ _ _ Hrows Hg).
    + rewrite list_lookup_alter_ne in Hrow by exact Hne.
      exact (Forall_lookup_1 _ _ _ _ Hrows Hrow).
Qed.

Lemma grid_get_alter_eq f r c g :
  grid_get r c (grid_alter f r c g) = f <$> grid_get r c g.
Proof.
  unfold grid_get, grid_alter. rewrite list_lookup_alter_eq.
  destruct (g !! r) as [row|]; cbn; [|reflexivity].
  apply list_lookup_alter_eq.
Qed.

Lemma grid_get_alter_ne f r c r0 c0 g :
  (r, c) <> (r0, c0) ->
  grid_get r0 c0 (grid_alter f r c g) = grid_get r0 c0 g.
Proof.
  intros Hne. unfold grid_get, grid_alter.
  destruct (decide (r = r0)) as [->|Hr].
  - rewrite list_lookup_alter_eq.
    destruct (g !! r0) as [row|]; cbn; [|reflexivity].
    apply list_lookup_alter_ne. congruence.
  - rewrite list_lookup_alter_ne by exact Hr. reflexivity.
Qed.

Lemma grid_get_in_dims h w r c g :
  grid_dims h w g -> (r < h)%nat -> (c < w)%nat ->
  exists x, grid_get r c g = Some x.
Proof.
  intros [Hlen Hrows] Hr Hc. unfold grid_get.
  destruct (lookup_lt_is_Some_2 g r) as [row Hrow]; [lia|].
  rewrite Hrow. apply lookup_lt_is_Some_2.
  rewrite (Forall_lookup_1 _ _ _ _ Hrows Hrow). exact Hc.
Qed.

Lemma grid_dims_replicate h w (x : A) :
  grid_dims h w (replicate h (replicate w x)).
Proof.
  split; [apply length_replicate|].
  apply Forall_replicate. apply length_replicate.
Qed.

Lemma grid_get_replicate h w r c (x : A) :
  (r < h)%nat -> (c < w)%nat ->
  grid_get r c (replicate h (replicate w x)) = Some x.
Proof.
  intros Hr Hc. unfold grid_get.
  rewrite lookup_replicate_2 by exact Hr.
  apply lookup_replicate_2, Hc.
Qed.

Lemma Array_fill_inr (n : Z) (x : A) row :
  Js.Array_fill n x = inr row -> row = replicate (Z.to_nat n) x.
Proof.
  unfold Js.Array_fill. destruct (Js.valid_array_length n); congruence.
Qed.

Lemma valid_array_length_spec (n : Z) :
  Js.valid_array_length n = true <-> array_length_ok n.
Proof.
  unfold Js.valid_array_length, array_length_ok.
  rewrite andb_true_iff, Z.leb_le, Z.ltb_lt. reflexivity.
Qed.

Lemma valid_array_length_false (n : Z) :
  Js.valid_array_length n = false <-> ~ array_length_ok n.
Proof.
  rewrite <- valid_array_length_spec.
  destruct (Js.valid_array_length n); split; congruence.
Qed.

Lemma Array_grid_inr (h w : Z) (x : A) g :
  Js.Array_grid h w x = inr g ->
  g = replicate (Z.to_nat h) (replicate (Z.to_nat w) x).
Proof.
  unfold Js.Array_grid.
  destruct (negb (Js.valid_array_length h)); [discriminate|].
  destruct (Z.eqb_spec h 0) as [->|_]; [intros [= <-]; reflexivity|].
  destruct (Js.Array_fill w x) as [e|row] eqn:Hfill; [discriminate|].
  apply Array_fill_inr in Hfill as ->. congruence.
Qed.

(** [Array(h)...map(() => Array(w)...)] fails exactly on a height that is
    no array length, or on such a width when there is a row to build. *)
Lemma Array_grid_fails (h w : Z) (x : A) :
  grid_refused h w -> Js.Array_grid h w x = inl Js.RangeError.
Proof.
  unfold Js.Array_grid, Js.Array_fill. intros [Hh|[Hh Hw]].
  - apply valid_array_length_false in Hh as ->. reflexivity.
  - destruct (Js.valid_array_length h); [|reflexivity]. cbn [negb].
    destruct (Z.eqb_spec h 0); [lia|].
    apply valid_array_length_false in Hw as ->. reflexivity.
Qed.

Lemma Array_grid_succeeds (h w : Z) (x : A) :
  ~ grid_refused h w ->
  Js.Array_grid h w x
  = inr (replicate (Z.to_nat h) (replicate (Z.to_nat w) x)).
Proof.
  unfold Js.Array_grid, Js.Array_fill, grid_refused. intros Hok.
  destruct (Js.valid_array_length h) eqn:Hh; cbn [negb].
  - destruct (Z.eqb_spec h 0) as [->|Hne]; [reflexivity|].
    destruct (Js.valid_array_length w) eqn:Hw; [reflexivity|].
    apply valid_array_length_false in Hw.
    apply valid_array_length_spec in Hh.
    unfold array_length_ok in Hh. exfalso. apply Hok. right.
    split; [lia|exact Hw].
  - apply valid_array_length_false in Hh. tauto.
Qed.

Lemma array_lengths_not_refused (h w : Z) :
  array_length_ok h -> array_length_ok w -> ~ grid_refused h w.
Proof. unfold grid_refused. tauto. Qed.

End Grids.

Lemma sum_list_alter_S (l : list nat) (i : nat) :
  (i < length l)%nat -> sum_list (alter S i l) = S (sum_list l).
Proof.
  revert i. induction l as [|x l IH]; intros i Hi; simpl in Hi; [lia|].
  destruct i as [|i]; simpl; [reflexivity|].
  change (list_alter S i l) with (alter S i l).
  rewrite IH by lia. lia.
Qed.

Lemma knot_sum_alter_S (h w r c : nat) (m : KnotMap) :
  grid_dims h w m -> (r < h)%nat -> (c < w)%nat ->
  knot_sum (grid_alter S r c m) = S (knot_sum m).
Proof.
  intros [Hlen Hrows] Hr Hc. unfold knot_sum, grid_alter.
  subst h. revert r Hr. induction m as [|row m IH]; intros r Hr;
    simpl in Hr; [lia|].
  apply Forall_cons in Hrows as [Hrow Hrows].
  destruct r as [|r]; simpl.
  - rewrite sum_list_alter_S by lia. reflexivity.
  - change (list_alter (alter S c) r m) with (alter (alter S c) r m).
    rewrite IH by (assumption || lia). lia.
Qed.

Lemma knot_sum_zero (h w : nat) :
  knot_sum (replicate h (replicate w 0%nat)) = 0%nat.
Proof.
  unfold knot_sum. induction h as [|h IH]; simpl; [reflexivity|].
  rewrite IH, sum_list_replicate. lia.
Qed.

(** ** The simulator: what each loop keeps and counts *)

Section Detection.
Import MathHelpers SubQGSimulator.

Lemma same_fields_refl s : same_fields s s.
Proof. repeat split. Qed.

Lemma same_fields_knot_at s s' r c :
  same_fields s s' -> knot_at s' r c = knot_at s r c.
Proof.
  intros (Hp & He & Hph & Hrf & _). unfold knot_at, detected_knot.
  rewrite He, Hph, Hrf, Hp. reflexivity.
Qed.

Lemma same_fields_with_knots s s' m l :
  same_fields s s' -> same_fields s (with_knots m l s').
Proof. intros H. exact H. Qed.

(** The detection step on one cell, by cases on [knot_at]. *)
Lemma detect_cell_cases r c s n :
  (knot_at s r c = true /\
   exists e, grid_get r c (energy_field s) = Some (Js.Num e) /\
     detect_cell r c (s, n)
     = (with_knots (grid_alter S r c (knot_map s))
                   (detected_knot_base_values s ++ [e]) s, S n))
  \/ (knot_at s r c = false /\ detect_cell r c (s, n) = (s, n)).
Proof.
  unfold knot_at, detect_cell.
  destruct (grid_get r c (energy_field s)) as [[e|]|]; [|right; tauto..].
  destruct (grid_get r c (phase_field s)) as [[ph|]|]; [|right; tauto..].
  destruct (detected_knot s e ph); [left|right; tauto].
  split; [reflexivity|]. exists e. tauto.
Qed.

Lemma passed_next r c r0 c0 :
  passed r (S c) r0 c0
  = if decide ((r, c) = (r0, c0)) then true else passed r c r0 c0.
Proof.
  unfold passed. destruct (decide _) as [[= <- <-]|Hne].
  - rewrite Nat.eqb_refl. destruct (Nat.ltb_spec c (S c)); [|lia].
    apply orb_true_r.
  - destruct (Nat.ltb_spec r0 r); [reflexivity|]. cbn [orb].
    destruct (Nat.eqb_spec r0 r) as [->|]; [|reflexivity]. cbn [andb].
    destruct (Nat.ltb_spec c0 (S c)), (Nat.ltb_spec c0 c);
      try reflexivity; try lia.
    assert (c0 = c) by lia. congruence.
Qed.

Lemma passed_row w r r0 c0 :
  (c0 < w)%nat -> passed (S r) 0 r0 c0 = passed r w r0 c0.
Proof.
  intros Hc. unfold passed.
  destruct (Nat.ltb_spec r0 (S r)), (Nat.ltb_spec r0 r),
    (Nat.eqb_spec r0 r), (Nat.eqb_spec r0 (S r)),
    (Nat.ltb_spec c0 w), (Nat.ltb_spec c0 0); cbn; try reflexivity; lia.
Qed.

Lemma passed_all h r0 c0 : (r0 < h)%nat -> passed h 0 r0 c0 = true.
Proof.
  intros Hr. unfold passed. destruct (Nat.ltb_spec r0 h); [reflexivity|lia].
Qed.

Lemma passed_none r0 c0 : passed 0 0 r0 c0 = false.
Proof.
  unfold passed. destruct (Nat.eqb_spec r0 0); cbn; [|reflexivity].
  reflexivity.
Qed.

Lemma detect_loops h w s1 :
  grid_dims h w (knot_map s1) ->
  detect_inv h w s1 h 0
    (for_range h (fun r => for_range w (fun c => detect_cell r c))
               (s1, 0%nat)).
Proof.
  intros Hdims.
  apply (for_range2_ind (detect_inv h w s1)).
  - unfold detect_inv. cbn [fst snd].
    split; [apply same_fields_refl|]. split; [exact Hdims|].
    split; [lia|]. split; [lia|].
    intros r0 c0 k0 _ Hk. rewrite passed_none. exact Hk.
  - intros r c [s n] Hr Hc (Hsame & Hd & Hsum & Hlog & Hcells).
    cbn [fst snd] in *.
    assert (Hat := same_fields_knot_at _ _ r c Hsame).
    destruct (detect_cell_cases r c s n)
      as [(Hknot & e & _ & ->)|(Hknot & ->)]; unfold detect_inv;
      cbn [fst snd with_knots knot_map detected_knot_base_values].
    + split; [exact Hsame|].
      split; [apply grid_dims_alter, Hd|].
      split; [rewrite (knot_sum_alter_S h w) by assumption; lia|].
      split; [rewrite length_app; cbn [length]; lia|].
      intros r0 c0 k0 Hc0 Hk. rewrite passed_next.
      destruct (decide ((r, c) = (r0, c0))) as [[= <- <-]|Hne].
      * rewrite grid_get_alter_eq, (Hcells r c k0 Hc0 Hk).
        rewrite <- Hat, Hknot.
        replace (passed r c r c) with false; [reflexivity|].
        unfold passed. rewrite Nat.ltb_irrefl, Nat.ltb_irrefl.
        rewrite andb_false_r. reflexivity.
      * rewrite grid_get_alter_ne by exact Hne. apply Hcells; assumption.
    + split; [exact Hsame|]. split; [exact Hd|].
      split; [exact Hsum|]. split; [exact Hlog|].
      intros r0 c0 k0 Hc0 Hk. rewrite passed_next.
      destruct (decide ((r, c) = (r0, c0))) as [[= <- <-]|Hne].
      * rewrite (Hcells r c k0 Hc0 Hk). rewrite <- Hat, Hknot.
        rewrite andb_false_r. reflexivity.
      * apply Hcells; assumption.
  - intros r x Hr (Hsame & Hd & Hsum & Hlog & Hcells).
    repeat (split; [assumption|]).
    intros r0 c0 k0 Hc0 Hk. rewrite (passed_row w) by exact Hc0.
    apply Hcells; assumption.
Qed.

End Detection.

Section Run.
Import MathHelpers SubQGSimulator.
Variable engine : Js.Engine.
Variable random : nat -> R.

Lemma same_knots_refl s : same_knots s s.
Proof. repeat split. Qed.

Lemma updateWaves_same_knots t0 s : same_knots s (updateWaves engine random t0 s).
Proof.
  unfold updateWaves.
  apply (for_range2_ind (fun _ _ x => same_knots s x)).
  - apply same_knots_refl.
  - intros r c x _ _ Hx. exact Hx.
  - intros r x _ Hx. exact Hx.
Qed.

(** One iteration of the loop over the time steps. *)
Lemma step_eq t0 s total :
  let s1 := updateWaves engine random t0 s in
  let res :=
    for_range (Z.to_nat (field_h (params s1))) (fun r =>
      for_range (Z.to_nat (field_w (params s1))) (fun c =>
        detect_cell r c)) (s1, 0%nat) in
  step engine random t0 (s, total) = (fst res, (total + snd res)%nat).
Proof.
  intros s1 res. unfold step. fold s1. fold res.
  destruct res as [s2 n]. reflexivity.
Qed.

Lemma step_run_inv p t0 x : run_inv p x -> run_inv p (step engine random t0 x).
Proof.
  destruct x as [s total]. intros (Hp & Hd & Hsum & Hlog).
  cbn [fst snd] in *. rewrite step_eq. cbv zeta.
  destruct (updateWaves_same_knots t0 s) as (Hp1 & Hkm & Hl1 & _).
  set (s1 := updateWaves engine random t0 s) in *.
  assert (Hq : params s1 = p) by congruence. rewrite Hq.
  assert (Hd1 : grid_dims (Z.to_nat (field_h p)) (Z.to_nat (field_w p))
                          (knot_map s1))
    by (rewrite Hkm; exact Hd).
  destruct (detect_loops _ _ s1 Hd1) as (Hsame & Hd2 & Hsum2 & Hlog2 & _).
  destruct Hsame as (Hp2 & _).
  set (res := for_range _ _ _) in *.
  unfold run_inv. cbn [fst snd].
  split; [congruence|]. split; [exact Hd2|].
  split; [rewrite Hsum2, Hkm; lia|].
  rewrite Hlog2, Hl1. lia.
Qed.

Lemma runSimulation_inr s km0 :
  Js.Array_grid (field_h (params s)) (field_w (params s)) 0%nat = inr km0 ->
  exists s' total,
    runSimulation engine random s = inr (s', (knot_map s', total))
    /\ run_inv (params s) (s', total).
Proof.
  intros Hgrid. unfold runSimulation. rewrite Hgrid.
  set (res := for_range _ _ _).
  assert (Hinv : run_inv (params s) res).
  { apply (for_range_ind (fun _ x => run_inv (params s) x)).
    - apply Array_grid_inr in Hgrid as ->. unfold run_inv.
      cbn [fst snd with_knots params knot_map detected_knot_base_values].
      split; [reflexivity|]. split; [apply grid_dims_replicate|].
      split; [apply knot_sum_zero|reflexivity].
    - intros i x _. apply step_run_inv. }
  destruct res as [s' total]. exists s', total. split; [reflexivity|].
  exact Hinv.
Qed.

Lemma constructor_inr p s :
  constructor p = inr s ->
  params s = p /\ detected_knot_base_values s = []
  /\ Js.Array_grid (field_h p) (field_w p) 0%nat
     = inr (knot_map s).
Proof.
  unfold constructor.
  destruct (Js.Array_grid _ _ (Js.Num 0)) as [e|ef]; [discriminate|].
  destruct (Js.Array_grid _ _ 0%nat) as [e|km]; [discriminate|].
  intros [= <-]. cbn. tauto.
Qed.

Lemma total_projected_knots_length (log : list R) (c : R) :
  total_projected_knots (analysed log c) = length log.
Proof.
  unfold analysed, projected_values. cbn [total_projected_knots].
  apply length_map.
Qed.

End Run.

(** C10.  A run of a simulator whose parameters the constructor accepts,
    the width being below [2^32], returns; the returned total is the sum
    of the entries of the returned knot map and the length of the log of
    detected events.  The analysis
    that follows reports that total as [total_projected_knots] when the
    engine can spread the log into the arguments of [Math.max]; when the
    run has detected more than one knot and more knots than the engine
    takes arguments, the analysis raises a [RangeError] instead. *)
Theorem run_total_agrees_until_analysis_throws (engine : Js.Engine)
    (random : nat -> R) (s s0 : SubQGSimulator.t) :
  SubQGSimulator.constructor (SubQGSimulator.params s) = inr s0 ->
  (field_w (SubQGSimulator.params s) < Js.array_length_limit)%Z ->
  exists s' km total,
    SubQGSimulator.runSimulation engine random s = inr (s', (km, total))
    /\ km = SubQGSimulator.knot_map s'
    /\ total = knot_sum km
    /\ total = length (SubQGSimulator.detected_knot_base_values s')
    /\ ((1 < total)%nat /\ too_many_arguments engine total ->
        SubQGSimulator.analyzeRiemannProjection engine s'
        = inl Js.RangeError)
    /\ (~ ((1 < total)%nat /\ too_many_arguments engine total) ->
        exists stats,
          SubQGSimulator.analyzeRiemannProjection engine s' = inr stats
          /\ total_projected_knots stats = total).
Proof.
  intros Hctor _. apply constructor_inr in Hctor as (_ & _ & Hgrid).
  destruct (runSimulation_inr engine random s _ Hgrid)
    as (s' & total & Hrun & Hp & Hd & Hsum & Hlog).
  cbn [fst snd] in *.
  exists s', (SubQGSimulator.knot_map s'), total.
  split; [exact Hrun|]. split; [reflexivity|].
  split; [symmetry; exact Hsum|]. split; [symmetry; exact Hlog|].
  unfold SubQGSimulator.analyzeRiemannProjection. split.
  - intros Hlong. apply riemann_projection_throws.
    unfold log_too_long. rewrite Hlog. exact Hlong.
  - intros Hfits.
    destruct (SubQGSimulator.detected_knot_base_values s')
      as [|x log] eqn:Hvalues.
    + eexists. split; [reflexivity|]. cbn [length] in Hlog.
      rewrite <- Hlog. reflexivity.
    + rewrite riemann_projection_returns.
      * eexists. split; [reflexivity|].
        rewrite total_projected_knots_length. exact Hlog.
      * discriminate.
      * unfold log_too_long. rewrite Hlog. exact Hfits.
Qed.

(** ** The simulator: the fields after [updateWaves] *)

Section Waves.
Import MathHelpers SubQGSimulator.
Variable engine : Js.Engine.
Variable random : nat -> R.

Lemma linspace_nth (start stop : R) (num : Z) (i : nat) :
  num <> 1%Z -> (i < Z.to_nat num)%nat ->
  nth i (linspace start stop num) Js.NaN
  = Js.Num (start + (stop - start) / (IZR num - 1) * INR i).
Proof.
  intros Hnum Hi. unfold linspace.
  destruct (Z.eqb_spec num 1) as [|_]; [contradiction|].
  set (f := fun j => Js.Num (start + (stop - start) / (IZR num - 1)
                                     * INR j)).
  rewrite (nth_indep _ Js.NaN (f 0%nat))
    by (rewrite length_map, length_seq; exact Hi).
  rewrite (map_nth f).
  rewrite seq_nth by exact Hi. reflexivity.
Qed.

Lemma linspace_single (start stop : R) :
  linspace start stop 1 = [Js.NaN].
Proof. reflexivity. Qed.

Lemma linspace_length (start stop : R) (num : Z) :
  length (linspace start stop num) = Z.to_nat num.
Proof.
  unfold linspace. destruct (Z.eqb_spec num 1) as [->|_]; [reflexivity|].
  rewrite length_map, length_seq. reflexivity.
Qed.

Lemma updateWaves_cells (t0 : nat) (s : t) :
  let h := Z.to_nat (field_h (params s)) in
  let w := Z.to_nat (field_w (params s)) in
  grid_dims h w (energy_field s) -> grid_dims h w (phase_field s) ->
  waves_inv engine random h w t0 s h 0 (updateWaves engine random t0 s).
Proof.
  intros h w He Hph. unfold updateWaves. fold h w.
  apply (for_range2_ind (waves_inv engine random h w t0 s)).
  - split; [apply same_knots_refl|]. split; [exact He|].
    split; [exact Hph|]. split; [lia|].
    intros r0 c0 _ _ Hp. rewrite passed_none in Hp. discriminate.
  - intros r c x Hr Hc (Hsame & Hde & Hdp & Hdraws & Hcells).
    destruct Hsame as (Hp & Hrest).
    unfold waves_inv, updateWaves_cell.
    cbn [with_fields params energy_field phase_field draws knot_map
         detected_knot_base_values rounding_factor omega_energy omega_phase].
    split; [split; [exact Hp|exact Hrest]|].
    split; [unfold grid_set; do 2 apply grid_dims_alter; exact Hde|].
    split; [unfold grid_set; do 2 apply grid_dims_alter; exact Hdp|].
    split; [lia|].
    intros r0 c0 Hr0 Hc0 Hpass. rewrite passed_next in Hpass.
    destruct (decide ((r, c) = (r0, c0))) as [[= <- <-]|Hne].
    + unfold grid_set. rewrite !grid_get_alter_eq.
      destruct (grid_get_in_dims h w r c _ Hde Hr Hc) as [e0 ->].
      destruct (grid_get_in_dims h w r c _ Hdp Hr Hc) as [p0 ->].
      cbn [fmap option_fmap option_map]. rewrite Hdraws, Hp.
      unfold wave_value. destruct (Js.lift2 _ _ _); split; reflexivity.
    + unfold grid_set. rewrite !grid_get_alter_ne by exact Hne.
      apply Hcells; assumption.
  - intros r x Hr (Hsame & Hde & Hdp & Hdraws & Hcells).
    split; [exact Hsame|]. split; [exact Hde|]. split; [exact Hdp|].
    split; [lia|].
    intros r0 c0 Hr0 Hc0 Hpass. rewrite (passed_row w) in Hpass by exact Hc0.
    apply Hcells; assumption.
Qed.

End Waves.

(** ** The simulator: configurations and the scenario *)

Section Configurations.
Import MathHelpers SubQGSimulator.
Variable engine : Js.Engine.
Variable random : nat -> R.

Lemma constructor_fails p :
  grid_refused (field_h p) (field_w p) ->
  constructor p = inl Js.RangeError.
Proof.
  intros Hbad. unfold constructor.
  rewrite (Array_grid_fails _ _ (Js.Num 0) Hbad). reflexivity.
Qed.

Lemma constructor_succeeds p :
  ~ grid_refused (field_h p) (field_w p) ->
  exists s, constructor p = inr s /\ params s = p.
Proof.
  intros Hok. unfold constructor.
  rewrite (Array_grid_succeeds _ _ (Js.Num 0) Hok).
  rewrite (Array_grid_succeeds _ _ 0%nat Hok).
  eexists. split; reflexivity.
Qed.

Lemma for_range_0 {S : Type} (body : nat -> S -> S) (s : S) :
  for_range 0 body s = s.
Proof. reflexivity. Qed.

Lemma grid_dims_no_cell (h w : nat) (m : KnotMap) :
  grid_dims h w m -> (h = 0 \/ w = 0)%nat ->
  m = replicate h (replicate w 0%nat).
Proof.
  intros [Hlen Hrows] Hzero. subst h.
  induction m as [|row m IH]; [reflexivity|].
  apply Forall_cons in Hrows as [Hrow Hrows].
  destruct Hzero as [Hz | ->]; [discriminate|].
  destruct row; [|discriminate].
  change (replicate (length ([] :: m)) (replicate 0 0%nat))
    with ([] :: replicate (length m) (replicate 0 0%nat)).
  f_equal. apply IH; [exact Hrows|right; reflexivity].
Qed.

End Configurations.

(** C2, as the code has it.  The simulator checks nothing about [W], [H]
    and [T].  On an integer configuration in which one of them is zero or
    negative it fails only with the [RangeError] of [Array], and only when
    [H] is no array length (it is negative, or not below [2^32]) or, [H]
    being positive, [W] is none; otherwise, for a width below [2^32], it
    returns normally: an [H x W] knot map without a knot and a total
    of 0. *)
Theorem simulate_checks_no_configuration (engine : Js.Engine)
    (random : nat -> R) (p : SubQGParams) :
  (field_w p <= 0 \/ field_h p <= 0 \/ sim_duration p <= 0)%Z ->
  (grid_refused (field_h p) (field_w p) ->
   SubQGSimulator.simulate engine random p = inl Js.RangeError)
  /\ (~ grid_refused (field_h p) (field_w p) ->
      (field_w p < Js.array_length_limit)%Z ->
      SubQGSimulator.simulate engine random p
      = inr (replicate (Z.to_nat (field_h p))
                       (replicate (Z.to_nat (field_w p)) 0%nat), 0%nat)).
Proof.
  intros Hdomain. split.
  - intros Hbad. unfold SubQGSimulator.simulate.
    rewrite (constructor_fails p Hbad). reflexivity.
  - intros Hok _. unfold SubQGSimulator.simulate.
    destruct (constructor_succeeds p Hok) as (s & Hctor & Hp).
    rewrite Hctor.
    assert (Hgrid := Array_grid_succeeds (field_h p) (field_w p) 0%nat Hok).
    rewrite <- Hp in Hgrid.
    destruct (runSimulation_inr engine random s _ Hgrid)
      as (s' & total & Hrun & _ & Hd & Hsum & _).
    rewrite Hrun. rewrite Hp in Hd. cbn [fst snd] in *.
    destruct (Z_le_dec (sim_duration p) 0) as [Ht|Ht].
    + pose (s0 := SubQGSimulator.with_knots
                    (replicate (Z.to_nat (field_h p))
                               (replicate (Z.to_nat (field_w p)) 0%nat)) [] s).
      assert (Hrun0 : SubQGSimulator.runSimulation engine random s
                      = inr (s0, (SubQGSimulator.knot_map s0, 0%nat))).
      { unfold SubQGSimulator.runSimulation. rewrite Hgrid, Hp.
        replace (Z.to_nat (sim_duration p)) with 0%nat by lia.
        reflexivity. }
      rewrite Hrun in Hrun0.
      assert (Hs : s' = s0) by congruence.
      assert (Htot : total = 0%nat) by congruence.
      rewrite Hs, Htot. reflexivity.
    + assert (Hkm : SubQGSimulator.knot_map s'
                    = replicate (Z.to_nat (field_h p))
                                (replicate (Z.to_nat (field_w p)) 0%nat))
        by (apply grid_dims_no_cell; [exact Hd|lia]).
      rewrite <- Hsum, Hkm. rewrite knot_sum_zero. reflexivity.
Qed.

Lemma simulate_checks_no_configuration_witness :
  SubQGSimulator.simulate sample_engine always_zero zero_duration_params
  = inr (replicate 4 (replicate 4 0%nat), 0%nat)
  /\ SubQGSimulator.simulate sample_engine always_zero negative_height_params
     = inl Js.RangeError.
Proof.
  split.
  - apply (simulate_checks_no_configuration sample_engine always_zero
             zero_duration_params).
    + cbn. lia.
    + unfold grid_refused, array_length_ok, Js.array_length_limit. cbn. lia.
    + unfold Js.array_length_limit. cbn. lia.
  - apply (simulate_checks_no_configuration sample_engine always_zero
             negative_height_params).
    + cbn. lia.
    + left. unfold array_length_ok. cbn. lia.
Defined.

(** C2, as stated, fails: with [T = 0] the simulator returns a normal
    result, the all-zero map and no knot. *)
Lemma zero_duration_returns_normally :
  SubQGSimulator.simulate sample_engine always_zero zero_duration_params
  = inr (replicate 4 (replicate 4 0%nat), 0%nat).
Proof. reflexivity. Qed.

(** ** The scenario: a [4 x 4] grid, one step, no noise, threshold 0 *)

Section Scenario.
Import MathHelpers SubQGSimulator.

Variable engine : Js.Engine.
Hypothesis Htrig : trig_contract engine.

Lemma scenario_value_bounds r c : 0 <= scenario_value engine r c <= 1.
Proof.
  destruct Htrig as (_ & Hsin & Hcos).
  unfold scenario_value. rewrite Rabs_mult.
  assert (Hs := Rabs_pos (Js.Math_sin engine (2 * PI / 3 * INR c))).
  assert (Hc := Rabs_pos (Js.Math_cos engine (2 * PI / 3 * INR r))).
  assert (Hs1 : Rabs (Js.Math_sin engine (2 * PI / 3 * INR c)) <= 1)
    by (apply Rabs_le, Hsin).
  assert (Hc1 : Rabs (Js.Math_cos engine (2 * PI / 3 * INR r)) <= 1)
    by (apply Rabs_le, Hcos).
  nra.
Qed.

Lemma scenario_value_column_0 r : scenario_value engine r 0 = 0.
Proof.
  destruct Htrig as (Hzero & _).
  unfold scenario_value. cbn [INR].
  rewrite Rmult_0_r, Hzero, Rmult_0_l, Rabs_R0. lra.
Qed.

Lemma scenario_wave_value time_component r c :
  (r < 4)%nat -> (c < 4)%nat -> time_component = 0 ->
  wave_value engine scenario_start time_component r c 0
  = Js.Num (scenario_value engine r c).
Proof.
  intros Hr Hc ->. unfold wave_value.
  cbn [params scenario_start with_knots fresh_4x4 scenario_params
       field_w field_h noise_factor].
  rewrite !linspace_nth
    by (try discriminate; change (Z.to_nat 4) with 4%nat; lia).
  cbn [Js.lift Js.lift2]. f_equal.
  replace (0 + (2 * PI - 0) / (4 - 1) * INR c)
    with (2 * PI / 3 * INR c) by lra.
  replace (0 + (2 * PI - 0) / (4 - 1) * INR r)
    with (2 * PI / 3 * INR r) by lra.
  assert (H := scenario_value_bounds r c). unfold scenario_value in *.
  rewrite clamp_id; rewrite Rplus_0_l; lra.
Qed.

Lemma scenario_time_component omega :
  Js.Math_sin engine
    (omega * INR 0 / IZR (sim_duration (params scenario_start))) = 0.
Proof.
  destruct Htrig as (Hzero & _).
  cbn [INR]. replace (omega * 0 / _) with 0; [exact Hzero|].
  unfold Rdiv. rewrite Rmult_0_r, Rmult_0_l. reflexivity.
Qed.

Lemma scenario_waves_fields r c :
  (r < 4)%nat -> (c < 4)%nat ->
  grid_get r c (energy_field (scenario_waves engine))
  = Some (Js.Num (scenario_value engine r c))
  /\ grid_get r c (phase_field (scenario_waves engine))
     = Some (Js.Num (scenario_value engine r c)).
Proof.
  intros Hr Hc.
  assert (Hinv := updateWaves_cells engine always_zero 0 scenario_start).
  cbv zeta in Hinv.
  change (Z.to_nat (field_h (params scenario_start))) with 4%nat in Hinv.
  change (Z.to_nat (field_w (params scenario_start))) with 4%nat in Hinv.
  destruct Hinv as (_ & _ & _ & _ & Hcells);
    [apply (grid_dims_replicate 4 4)..|].
  fold (scenario_waves engine) in Hcells.
  destruct (Hcells r c Hr Hc (passed_all 4 r c Hr)) as [He Hp].
  rewrite He, Hp.
  unfold always_zero.
  rewrite !scenario_wave_value
    by (assumption || apply scenario_time_component).
  split; reflexivity.
Qed.

Lemma eqb_refl (x : R) : Js.eqb x x = true.
Proof. unfold Js.eqb. destruct Req_dec_T; congruence. Qed.

Lemma scenario_knot_at r c :
  (r < 4)%nat -> (c < 4)%nat ->
  knot_at (scenario_waves engine) r c
  = Js.gtb (scenario_value engine r c) 0.
Proof.
  intros Hr Hc. unfold knot_at.
  destruct (scenario_waves_fields r c Hr Hc) as [-> ->].
  unfold detected_knot. rewrite eqb_refl, andb_true_r.
  destruct (updateWaves_same_knots engine always_zero 0 scenario_start)
    as (Hp & _).
  fold (scenario_waves engine) in Hp. rewrite Hp.
  cbn [params scenario_start with_knots fresh_4x4 scenario_params
       threshold_s].
  replace 0.0 with 0 by lra. apply andb_diag.
Qed.

(** The run of the scenario, cell by cell. *)
Lemma scenario_run :
  exists s' total,
    runSimulation engine always_zero (fresh_4x4 scenario_params)
    = inr (s', (knot_map s', total))
    /\ total = knot_sum (knot_map s')
    /\ grid_dims 4 4 (knot_map s')
    /\ forall r c, (r < 4)%nat -> (c < 4)%nat ->
         grid_get r c (energy_field s')
         = Some (Js.Num (scenario_value engine r c))
         /\ grid_get r c (phase_field s')
            = Some (Js.Num (scenario_value engine r c))
         /\ grid_get r c (knot_map s')
            = Some (if Js.gtb (scenario_value engine r c) 0
                    then 1%nat else 0%nat).
Proof.
  assert (Hd : grid_dims 4 4 (knot_map (scenario_waves engine))).
  { destruct (updateWaves_same_knots engine always_zero 0 scenario_start)
      as (_ & Hkm & _).
    fold (scenario_waves engine) in Hkm. rewrite Hkm.
    apply (grid_dims_replicate 4 4). }
  assert (Hloops := detect_loops 4 4 (scenario_waves engine) Hd).
  set (res := for_range 4 _ _) in Hloops.
  destruct Hloops as (Hsame & Hd2 & Hsum & _ & Hcells).
  assert (Hrun : runSimulation engine always_zero (fresh_4x4 scenario_params)
                 = inr (fst res, (knot_map (fst res), snd res))).
  { unfold runSimulation.
    change (Js.Array_grid _ _ 0%nat)
      with (@inr Js.Error _ (replicate 4 (replicate 4 0%nat))).
    cbv iota beta. fold scenario_start.
    change (Z.to_nat (sim_duration (params (fresh_4x4 scenario_params))))
      with 1%nat.
    rewrite for_range_S, for_range_0, step_eq. cbv zeta.
    fold (scenario_waves engine).
    destruct (updateWaves_same_knots engine always_zero 0 scenario_start)
      as (Hp & _).
    fold (scenario_waves engine) in Hp. rewrite Hp.
    change (Z.to_nat (field_h (params scenario_start))) with 4%nat.
    change (Z.to_nat (field_w (params scenario_start))) with 4%nat.
    fold res. reflexivity. }
  clearbody res.
  exists (fst res), (snd res). split; [exact Hrun|].
  assert (Hzero : knot_sum (knot_map (scenario_waves engine)) = 0%nat).
  { destruct (updateWaves_same_knots engine always_zero 0 scenario_start)
      as (_ & Hkm & _).
    fold (scenario_waves engine) in Hkm. rewrite Hkm. apply (knot_sum_zero 4 4). }
  split; [rewrite Hsum, Hzero; lia|]. split; [exact Hd2|].
  intros r c Hr Hc. destruct Hsame as (_ & He & Hph & _).
  rewrite He, Hph.
  destruct (scenario_waves_fields r c Hr Hc) as [-> ->].
  split; [reflexivity|]. split; [reflexivity|].
  assert (Hk0 : grid_get r c (knot_map (scenario_waves engine)) = Some 0%nat).
  { destruct (updateWaves_same_knots engine always_zero 0 scenario_start)
      as (_ & Hkm & _).
    fold (scenario_waves engine) in Hkm. rewrite Hkm.
    apply (grid_get_replicate 4 4); assumption. }
  rewrite (Hcells r c 0%nat Hc Hk0), (passed_all 4 r c Hr).
  rewrite scenario_knot_at by assumption. reflexivity.
Qed.

(** A [4 x 4] map whose entries are 0 or 1 and whose first column is 0
    sums to 12 at most. *)
Lemma knot_sum_first_column_zero (m : KnotMap) :
  grid_dims 4 4 m ->
  (forall r c, (r < 4)%nat -> (c < 4)%nat ->
               exists k, grid_get r c m = Some k /\ (k <= 1)%nat) ->
  (forall r, (r < 4)%nat -> grid_get r 0 m = Some 0%nat) ->
  (knot_sum m <= 12)%nat.
Proof.
  intros [Hlen Hrows] Hcells Hcol.
  destruct m as [|row0 [|row1 [|row2 [|row3 [|row4 m]]]]];
    try discriminate Hlen.
  apply Forall_cons in Hrows as [H0 Hrows].
  apply Forall_cons in Hrows as [H1 Hrows].
  apply Forall_cons in Hrows as [H2 Hrows].
  apply Forall_cons in Hrows as [H3 _].
  destruct row0 as [|a0 [|a1 [|a2 [|a3 [|a4 row0]]]]]; try discriminate H0.
  destruct row1 as [|b0 [|b1 [|b2 [|b3 [|b4 row1]]]]]; try discriminate H1.
  destruct row2 as [|c0 [|c1 [|c2 [|c3 [|c4 row2]]]]]; try discriminate H2.
  destruct row3 as [|d0 [|d1 [|d2 [|d3 [|d4 row3]]]]]; try discriminate H3.
  assert (Hle : forall r c k, (r < 4)%nat -> (c < 4)%nat ->
            grid_get r c [[a0; a1; a2; a3]; [b0; b1; b2; b3];
                          [c0; c1; c2; c3]; [d0; d1; d2; d3]] = Some k ->
            (k <= 1)%nat).
  { intros r c k Hr Hc Hk. destruct (Hcells r c Hr Hc) as (k' & Hk' & Hle).
    congruence. }
  assert (Ha0 : Some a0 = Some 0%nat) by (apply (Hcol 0%nat); lia).
  assert (Hb0 : Some b0 = Some 0%nat) by (apply (Hcol 1%nat); lia).
  assert (Hc0 : Some c0 = Some 0%nat) by (apply (Hcol 2%nat); lia).
  assert (Hd0 : Some d0 = Some 0%nat) by (apply (Hcol 3%nat); lia).
  injection Ha0 as ->. injection Hb0 as ->.
  injection Hc0 as ->. injection Hd0 as ->.
  pose proof (Hle 0%nat 1%nat a1 ltac:(lia) ltac:(lia) eq_refl).
  pose proof (Hle 0%nat 2%nat a2 ltac:(lia) ltac:(lia) eq_refl).
  pose proof (Hle 0%nat 3%nat a3 ltac:(lia) ltac:(lia) eq_refl).
  pose proof (Hle 1%nat 1%nat b1 ltac:(lia) ltac:(lia) eq_refl).
  pose proof (Hle 1%nat 2%nat b2 ltac:(lia) ltac:(lia) eq_refl).
  pose proof (Hle 1%nat 3%nat b3 ltac:(lia) ltac:(lia) eq_refl).
  pose proof (Hle 2%nat 1%nat c1 ltac:(lia) ltac:(lia) eq_refl).
  pose proof (Hle 2%nat 2%nat c2 ltac:(lia) ltac:(lia) eq_refl).
  pose proof (Hle 2%nat 3%nat c3 ltac:(lia) ltac:(lia) eq_refl).
  pose proof (Hle 3%nat 1%nat d1 ltac:(lia) ltac:(lia) eq_refl).
  pose proof (Hle 3%nat 2%nat d2 ltac:(lia) ltac:(lia) eq_refl).
  pose proof (Hle 3%nat 3%nat d3 ltac:(lia) ltac:(lia) eq_refl).
  unfold knot_sum. cbn. lia.
Qed.

End Scenario.

Lemma scenario_constructor :
  SubQGSimulator.constructor scenario_params
  = inr (fresh_4x4 scenario_params).
Proof. reflexivity. Qed.

Lemma sample_engine_trig : trig_contract sample_engine.
Proof.
  split; [exact sin_0|]. split; [exact SIN_bound|exact COS_bound].
Qed.

Lemma scenario_total_at_most_12 (engine : Js.Engine)
    (s' : SubQGSimulator.t) :
  trig_contract engine ->
  grid_dims 4 4 (SubQGSimulator.knot_map s') ->
  (forall r c, (r < 4)%nat -> (c < 4)%nat ->
     grid_get r c (SubQGSimulator.knot_map s')
     = Some (if Js.gtb (scenario_value engine r c) 0
             then 1%nat else 0%nat)) ->
  (knot_sum (SubQGSimulator.knot_map s') <= 12)%nat.
Proof.
  intros Htrig Hd Hcells.
  apply knot_sum_first_column_zero; [exact Hd| |].
  - intros r c Hr Hc. eexists. split; [apply Hcells; assumption|].
    destruct (Js.gtb _ _); lia.
  - intros r Hr. rewrite Hcells by (assumption || lia).
    rewrite scenario_value_column_0 by exact Htrig.
    replace (Js.gtb 0 0) with false; [reflexivity|].
    symmetry. apply gtb_false. lra.
Qed.

(** C3, as the code has it.  In the scenario (the [4 x 4] grid, one step,
    no noise, threshold 0, a random source that always returns 0) every
    cell's energy equals its phase, both being [|sin x * cos y| / 2] for
    the sine and cosine the engine returns; a cell registers a knot
    exactly when that value is greater than the threshold 0; the cells of
    column 0, where [x = 0] and the sine is 0, hold 0 and register none,
    so the total is at most 12. *)
Theorem scenario_energy_is_phase_knots_where_positive
    (engine : Js.Engine) :
  trig_contract engine ->
  exists s' km total,
    SubQGSimulator.runSimulation engine always_zero
      (fresh_4x4 scenario_params)
    = inr (s', (km, total))
    /\ (forall r c, (r < 4)%nat -> (c < 4)%nat ->
          let v := Rabs (Js.Math_sin engine (2 * PI / 3 * INR c)
                         * Js.Math_cos engine (2 * PI / 3 * INR r))
                   / 2 in
          grid_get r c (SubQGSimulator.energy_field s') = Some (Js.Num v)
          /\ grid_get r c (SubQGSimulator.phase_field s') = Some (Js.Num v)
          /\ grid_get r c km = Some (if Js.gtb v 0 then 1%nat else 0%nat))
    /\ (forall r, (r < 4)%nat ->
          grid_get r 0 (SubQGSimulator.energy_field s') = Some (Js.Num 0)
          /\ grid_get r 0 km = Some 0%nat)
    /\ total = knot_sum km
    /\ (total <= 12)%nat.
Proof.
  intros Htrig.
  destruct (scenario_run engine Htrig)
    as (s' & total & Hrun & Hsum & Hd & Hcells).
  exists s', (SubQGSimulator.knot_map s'), total.
  split; [exact Hrun|]. split; [exact Hcells|].
  split.
  - intros r Hr.
    destruct (Hcells r 0%nat Hr ltac:(lia)) as (-> & _ & ->).
    rewrite scenario_value_column_0 by exact Htrig.
    split; [reflexivity|].
    replace (Js.gtb 0 0) with false; [reflexivity|].
    symmetry. apply gtb_false. lra.
  - split; [exact Hsum|]. rewrite Hsum.
    apply (scenario_total_at_most_12 engine); [exact Htrig|exact Hd|].
    intros r c Hr Hc. apply Hcells; assumption.
Qed.

Lemma scenario_energy_is_phase_knots_where_positive_witness :
  exists s' km total,
    SubQGSimulator.runSimulation sample_engine always_zero
      (fresh_4x4 scenario_params)
    = inr (s', (km, total))
    /\ (forall r c, (r < 4)%nat -> (c < 4)%nat ->
          let v := Rabs (sin (2 * PI / 3 * INR c) * cos (2 * PI / 3 * INR r))
                   / 2 in
          grid_get r c (SubQGSimulator.energy_field s') = Some (Js.Num v)
          /\ grid_get r c (SubQGSimulator.phase_field s') = Some (Js.Num v)
          /\ grid_get r c km = Some (if Js.gtb v 0 then 1%nat else 0%nat))
    /\ (forall r, (r < 4)%nat ->
          grid_get r 0 (SubQGSimulator.energy_field s') = Some (Js.Num 0)
          /\ grid_get r 0 km = Some 0%nat)
    /\ total = knot_sum km
    /\ (total <= 12)%nat.
Proof.
  exact (scenario_energy_is_phase_knots_where_positive sample_engine
           sample_engine_trig).
Defined.

(** C3, as stated, fails: the scenario does not return 16 knots. *)
Lemma scenario_total_is_not_16 :
  total_knots_of
    (SubQGSimulator.simulate sample_engine always_zero scenario_params)
  <> Some 16%nat.
Proof.
  unfold SubQGSimulator.simulate. rewrite scenario_constructor.
  destruct (scenario_run sample_engine sample_engine_trig)
    as (s' & total & Hrun & Hsum & Hd & Hcells).
  rewrite Hrun. cbn [total_knots_of]. intros [= Htotal].
  assert (Hle : (knot_sum (SubQGSimulator.knot_map s') <= 12)%nat).
  { apply (scenario_total_at_most_12 sample_engine);
      [exact sample_engine_trig|exact Hd|].
    intros r c Hr Hc. apply Hcells; assumption. }
  lia.
Qed.

Lemma analyze_empty_log_witness :
  SubQGSimulator.analyzeRiemannProjection sample_engine
    (fresh_4x4 DEFAULT_SUBQG_PARAMS)
  = inr {| mean_re_s := 0; median_re_s := 0; std_dev_re_s := 1;
           count_near_0_5 := 0; total_projected_knots := 0;
           harmony_score := 0; internal_prescale_factor_used := 0 |}.
Proof.
  apply (analyze_empty_log sample_engine (fresh_4x4 DEFAULT_SUBQG_PARAMS)).
  reflexivity.
Defined.

(** ** Conversions to integers and bytes *)

Lemma Math_round_IZR (z : Z) : Js.Math_round (IZR z) = z.
Proof. unfold Js.Math_round. apply Zfloor_eq. lra. Qed.

Lemma Math_round_eq (x : R) (z : Z) :
  IZR z - / 2 <= x < IZR z + / 2 -> Js.Math_round x = z.
Proof. intros H. unfold Js.Math_round. apply Zfloor_eq. lra. Qed.

Lemma ToUint8Clamp_byte (x : R) : is_byte (Js.ToUint8Clamp x).
Proof.
  unfold Js.ToUint8Clamp, is_byte.
  destruct (Rle_dec x 0) as [|Hpos]; [lia|].
  destruct (Rle_dec 255 x) as [|Hlt]; [lia|].
  assert (Hb := Zfloor_bound x).
  assert (H0 : (0 <= Zfloor x)%Z) by (apply Zfloor_lub; lra).
  assert (H1 : (Zfloor x < 255)%Z) by (apply lt_IZR; lra).
  repeat destruct Rlt_dec; try destruct (Z.even _); lia.
Qed.

Lemma ToUint8Clamp_IZR (z : Z) : is_byte z -> Js.ToUint8Clamp (IZR z) = z.
Proof.
  intros [H0 H1]. unfold Js.ToUint8Clamp.
  destruct (Rle_dec (IZR z) 0) as [Hle|Hpos].
  - apply (le_IZR z 0) in Hle. lia.
  - destruct (Rle_dec 255 (IZR z)) as [Hge|Hlt].
    + apply (le_IZR 255 z) in Hge. lia.
    + rewrite (Zfloor_eq z (IZR z)) by lra.
      destruct Rlt_dec as [_|Hn]; [reflexivity|]. lra.
Qed.

Lemma ToUint8Clamp_near (x : R) (z : Z) :
  is_byte z -> IZR z - / 2 < x < IZR z + / 2 -> Js.ToUint8Clamp x = z.
Proof.
  intros [H0 H1] Hx. unfold Js.ToUint8Clamp.
  assert (Hz0 := IZR_le _ _ H0). assert (Hz1 := IZR_le _ _ H1).
  destruct (Rle_dec x 0) as [Hle|Hpos].
  - assert (IZR z < IZR 1) by lra. apply lt_IZR in H. lia.
  - destruct (Rle_dec 255 x) as [Hge|Hlt].
    + assert (IZR 254 < IZR z) by lra. apply lt_IZR in H. lia.
    + destruct (Rle_dec (IZR z) x) as [Hzx|Hxz].
      * rewrite (Zfloor_eq z x) by lra.
        destruct Rlt_dec as [_|Hn]; [reflexivity|]. lra.
      * rewrite (Zfloor_eq (z - 1) x) by (rewrite minus_IZR; lra).
        rewrite minus_IZR.
        destruct Rlt_dec as [Hl|_]; [lra|].
        destruct Rlt_dec as [_|Hn]; [lia|]. lra.
Qed.

Lemma clamp_low (v lo hi : R) :
  v <= lo -> lo <= hi -> MathHelpers.clamp v lo hi = lo.
Proof.
  intros. unfold MathHelpers.clamp, Rmin, Rmax. repeat destruct Rle_dec; lra.
Qed.

Lemma clamp_high (v lo hi : R) :
  hi <= v -> lo <= hi -> MathHelpers.clamp v lo hi = hi.
Proof.
  intros. unfold MathHelpers.clamp, Rmin, Rmax. repeat destruct Rle_dec; lra.
Qed.

(** ** The pixel loops of [processImageWithSubQG] *)

Section TypedArrays.

Lemma ta_set_length buf i x (st : Store) :
  length (ta_set buf i x st) = length st.
Proof. unfold ta_set, grid_alter. apply length_alter. Qed.

Lemma ta_set_other buf i x (st : Store) b :
  b <> buf -> ta_set buf i x st !! b = st !! b.
Proof.
  intros Hne. unfold ta_set, grid_alter.
  apply list_lookup_alter_ne. congruence.
Qed.

Lemma ta_set_same buf i x (st : Store) bytes :
  st !! buf = Some bytes ->
  ta_set buf i x st !! buf
  = Some (alter (fun _ => Js.ToUint8Clamp x) i bytes).
Proof.
  intros Hb. unfold ta_set, grid_alter.
  rewrite list_lookup_alter_eq, Hb. reflexivity.
Qed.

Lemma ta_get_lookup (st : Store) buf i bytes :
  st !! buf = Some bytes -> ta_get st buf i = bytes !! i.
Proof. intros Hb. unfold ta_get, grid_get. rewrite Hb. reflexivity. Qed.

Lemma lookup_set_same (bytes : list Z) i v :
  (i < length bytes)%nat -> alter (fun _ => v) i bytes !! i = Some v.
Proof.
  intros Hi. rewrite list_lookup_alter_eq.
  destruct (lookup_lt_is_Some_2 bytes i Hi) as [x ->]. reflexivity.
Qed.

Lemma lookup_set_other (bytes : list Z) i j v :
  i <> j -> alter (fun _ => v) i bytes !! j = bytes !! j.
Proof. apply list_lookup_alter_ne. Qed.

End TypedArrays.

Lemma pixel_index_lt (w h r c : nat) :
  (r < h)%nat -> (c < w)%nat -> ((r * w + c) * 4 + 3 < 4 * w * h)%nat.
Proof. intros Hr Hc. nia. Qed.

Lemma pixel_index_inj (w r c r1 c1 : nat) :
  (c < w)%nat -> (c1 < w)%nat -> (r1 * w + c1 = r * w + c)%nat ->
  r1 = r /\ c1 = c.
Proof.
  intros Hc Hc1 Heq.
  destruct (Nat.lt_trichotomy r1 r) as [Hlt|[->|Hgt]].
  - assert (H := Nat.mul_le_mono_r (S r1) r w Hlt). lia.
  - lia.
  - assert (H := Nat.mul_le_mono_r (S r) r1 w Hgt). lia.
Qed.

Lemma pixel_at_Some (w h : nat) (bytes : list Z) (r c : nat) :
  length bytes = (4 * w * h)%nat -> (r < h)%nat -> (c < w)%nat ->
  exists px, pixel_at w bytes r c = Some px.
Proof.
  intros Hlen Hr Hc. assert (Hi := pixel_index_lt w h r c Hr Hc).
  unfold pixel_at.
  destruct (lookup_lt_is_Some_2 bytes ((r * w + c) * 4)) as [r0 ->]; [lia|].
  destruct (lookup_lt_is_Some_2 bytes ((r * w + c) * 4 + 1)) as [g0 ->];
    [lia|].
  destruct (lookup_lt_is_Some_2 bytes ((r * w + c) * 4 + 2)) as [b0 ->];
    [lia|].
  destruct (lookup_lt_is_Some_2 bytes ((r * w + c) * 4 + 3)) as [a0 ->];
    [lia|].
  eexists. reflexivity.
Qed.

Lemma pixel_at_inv (w : nat) (bytes : list Z) (r c : nat) r0 g0 b0 a0 :
  pixel_at w bytes r c = Some (r0, g0, b0, a0) ->
  bytes !! ((r * w + c) * 4)%nat = Some r0
  /\ bytes !! ((r * w + c) * 4 + 1)%nat = Some g0
  /\ bytes !! ((r * w + c) * 4 + 2)%nat = Some b0
  /\ bytes !! ((r * w + c) * 4 + 3)%nat = Some a0.
Proof.
  unfold pixel_at.
  destruct (bytes !! _) as [x0|]; [|discriminate].
  destruct (bytes !! _) as [x1|]; [|discriminate].
  destruct (bytes !! _) as [x2|]; [|discriminate].
  destruct (bytes !! _) as [x3|]; [|discriminate].
  intros [= -> -> -> ->]. tauto.
Qed.

Lemma pixel_at_ext (w : nat) (bytes bytes' : list Z) (r c : nat) :
  (forall k, (k < 4)%nat ->
     bytes' !! ((r * w + c) * 4 + k)%nat = bytes !! ((r * w + c) * 4 + k)%nat) ->
  pixel_at w bytes' r c = pixel_at w bytes r c.
Proof.
  intros Hk. unfold pixel_at.
  assert (H0 := Hk 0%nat ltac:(lia)). rewrite Nat.add_0_r in H0.
  rewrite H0, (Hk 1%nat), (Hk 2%nat), (Hk 3%nat) by lia. reflexivity.
Qed.

Section PixelLoops.
Import ImageUtils.
Variables (rev : Revision) (mods : R * R) (harmonyScore : R).
Variable influence : nat -> nat -> Js.Error + option R.
Variables (w h src dst : nat).

(** One pass of the loop body over a pixel whose bytes are still the
    original ones. *)
Lemma process_pixel_step (st : Store) (bytes bytes0 : list Z) r c px fi :
  (r < h)%nat -> (c < w)%nat ->
  length bytes0 = (4 * w * h)%nat -> length bytes = length bytes0 ->
  st !! dst = Some bytes ->
  (src = dst \/ (src <> dst /\ st !! src = Some bytes0)) ->
  (forall i, ((r * w + c) * 4 <= i)%nat -> bytes !! i = bytes0 !! i) ->
  pixel_at w bytes0 r c = Some px ->
  influence r c = inr fi ->
  exists st' bytes',
    process_pixel rev mods harmonyScore influence w src dst r c (st, None)
    = (st', None)
    /\ length st' = length st
    /\ (forall b, b <> dst -> st' !! b = st !! b)
    /\ st' !! dst = Some bytes'
    /\ length bytes' = length bytes
    /\ (forall i, (i < (r * w + c) * 4 \/ (r * w + c) * 4 + 3 < i)%nat ->
          bytes' !! i = bytes !! i)
    /\ pixel_at w bytes' r c
       = Some (pixel_result rev mods harmonyScore fi px).
Proof.
  intros Hr Hc Hlen0 Hlen Hdst Hsrc Hrest Hpx Hfi.
  assert (Hi := pixel_index_lt w h r c Hr Hc).
  destruct px as [[[r0 g0] b0] a0].
  apply pixel_at_inv in Hpx as (Hr0 & Hg0 & Hb0 & Ha0).
  set (idx := ((r * w + c) * 4)%nat) in *.
  assert (Hread : forall i, (idx <= i)%nat -> ta_get st src i = bytes0 !! i).
  { intros i Hle. destruct Hsrc as [->|[_ Hs]].
    - rewrite (ta_get_lookup _ _ _ _ Hdst). apply Hrest, Hle.
    - apply ta_get_lookup, Hs. }
  unfold process_pixel. fold idx.
  rewrite !Hread by lia. rewrite Hr0, Hg0, Hb0, Hfi.
  unfold pixel_result.
  destruct (pixel_values rev mods harmonyScore fi r0 g0 b0)
    as [[vr vg] vb].
  set (st1 := ta_set dst idx vr st).
  set (st2 := ta_set dst (idx + 1) vg st1).
  set (st3 := ta_set dst (idx + 2) vb st2).
  assert (H1 := ta_set_same dst idx vr st _ Hdst). fold st1 in H1.
  assert (H2 := ta_set_same dst (idx + 1) vg st1 _ H1). fold st2 in H2.
  assert (H3 := ta_set_same dst (idx + 2) vb st2 _ H2). fold st3 in H3.
  assert (Halpha : ta_get st3 src (idx + 3) = Some a0).
  { destruct Hsrc as [->|[Hne Hs]].
    - rewrite (ta_get_lookup _ _ _ _ H3).
      rewrite !lookup_set_other by lia.
      rewrite Hrest by lia. exact Ha0.
    - unfold st3, st2, st1. unfold ta_get, grid_get.
      rewrite !ta_set_other by exact Hne. rewrite Hs. exact Ha0. }
  rewrite Halpha.
  assert (H4 := ta_set_same dst (idx + 3) (IZR a0) st3 _ H3).
  eexists. eexists. split; [reflexivity|].
  split; [unfold st3, st2, st1; rewrite !ta_set_length; reflexivity|].
  split; [intros b Hb; unfold st3, st2, st1;
          rewrite !ta_set_other by exact Hb; reflexivity|].
  split; [exact H4|].
  split; [rewrite !length_alter; reflexivity|].
  split; [intros i Hout; rewrite !lookup_set_other by lia; reflexivity|].
  unfold pixel_at. fold idx.
  rewrite (lookup_set_other _ (idx + 3) idx) by lia.
  rewrite (lookup_set_other _ (idx + 2) idx) by lia.
  rewrite (lookup_set_other _ (idx + 1) idx) by lia.
  rewrite lookup_set_same by lia.
  rewrite (lookup_set_other _ (idx + 3) (idx + 1)) by lia.
  rewrite (lookup_set_other _ (idx + 2) (idx + 1)) by lia.
  rewrite lookup_set_same by (rewrite !length_alter; lia).
  rewrite (lookup_set_other _ (idx + 3) (idx + 2)) by lia.
  rewrite lookup_set_same by (rewrite !length_alter; lia).
  rewrite lookup_set_same by (rewrite !length_alter; lia).
  reflexivity.
Qed.

Lemma process_pixels_inv (st : Store) (bytes0 : list Z) :
  length bytes0 = (4 * w * h)%nat ->
  st !! dst = Some bytes0 ->
  (src = dst \/ (src <> dst /\ st !! src = Some bytes0)) ->
  (forall r c, (r < h)%nat -> (c < w)%nat ->
               exists fi, influence r c = inr fi) ->
  pixels_inv rev mods harmonyScore influence w dst st bytes0 h 0
    (process_pixels rev mods harmonyScore influence w h src dst st).
Proof.
  intros Hlen0 Hdst Hsrc Hinf. unfold process_pixels.
  apply (for_range2_ind
           (pixels_inv rev mods harmonyScore influence w dst st bytes0)).
  - unfold pixels_inv. cbn [fst snd].
    split; [reflexivity|]. split; [reflexivity|].
    split; [reflexivity|]. exists bytes0.
    split; [exact Hdst|]. split; [reflexivity|].
    split; [reflexivity|]. intros r1 c1 px fi _ Hlt. lia.
  - intros r c [st1 failure] Hr Hc
           (Hf & Hl & Hframe & bytes & Hb & Hlen & Hrest & Hdone).
    cbn [fst snd] in *. subst failure.
    destruct (pixel_at_Some w h bytes0 r c Hlen0 Hr Hc) as [px Hpx].
    destruct (Hinf r c Hr Hc) as [fi Hfi].
    assert (Hsrc1 : src = dst \/ (src <> dst /\ st1 !! src = Some bytes0)).
    { destruct Hsrc as [->|[Hne Hs]]; [left; reflexivity|right].
      split; [exact Hne|]. rewrite Hframe by exact Hne. exact Hs. }
    destruct (process_pixel_step st1 bytes bytes0 r c px fi
                Hr Hc Hlen0 Hlen Hb Hsrc1 Hrest Hpx Hfi)
      as (st2 & bytes2 & -> & Hl2 & Hframe2 & Hb2 & Hlen2 & Hout & Hres).
    unfold pixels_inv. cbn [fst snd].
    split; [reflexivity|]. split; [congruence|].
    split; [intros b Hne; rewrite Hframe2 by exact Hne;
            apply Hframe, Hne|].
    exists bytes2. split; [exact Hb2|]. split; [congruence|].
    split.
    + intros i Hi. rewrite Hout by lia. apply Hrest. lia.
    + intros r1 c1 px1 fi1 Hc1 Hlt Hpx1 Hfi1.
      destruct (decide (r1 * w + c1 = r * w + c)%nat) as [Heq|Hne].
      * destruct (pixel_index_inj w r c r1 c1 Hc Hc1 Heq) as [-> ->].
        rewrite Hres. congruence.
      * rewrite (pixel_at_ext w bytes bytes2).
        -- apply Hdone; [exact Hc1|lia|exact Hpx1|exact Hfi1].
        -- intros k Hk. apply Hout. lia.
  - intros r x Hr (Hf & Hl & Hframe & bytes & Hb & Hlen & Hrest & Hdone).
    split; [exact Hf|]. split; [exact Hl|]. split; [exact Hframe|].
    exists bytes. split; [exact Hb|]. split; [exact Hlen|].
    split.
    + intros i Hi. apply Hrest. lia.
    + intros r1 c1 px fi Hc1 Hlt. apply Hdone; [exact Hc1|lia].
Qed.

End PixelLoops.

(** ** [processImageWithSubQG] as a whole *)

Section Transform.
Import ImageUtils.

(** Where the result's bytes live. *)
Lemma new_data_spec rev (st : Store) img bytes0 :
  st !! data img = Some bytes0 ->
  exists st1 dst,
    new_data rev st img = (st1, dst)
    /\ st1 !! dst = Some bytes0
    /\ st1 !! data img = Some bytes0
    /\ (forall b, (b < length st)%nat -> st1 !! b = st !! b)
    /\ match rev with
       | Rev1 => dst = data img /\ st1 = st
       | Rev2 => dst = S (length st) /\ data img <> dst
       end.
Proof.
  intros Hb. assert (Hlt := lookup_lt_Some _ _ _ Hb).
  destruct rev; unfold new_data.
  - exists st, (data img). repeat split; assumption || reflexivity.
  - unfold image_bytes. rewrite Hb. cbn [from_option Datatypes.id].
    eexists. eexists. split; [reflexivity|].
    rewrite length_app. cbn [length].
    replace (length st + 1)%nat with (S (length st)) by lia.
    split.
    { rewrite lookup_app_r by (rewrite length_app; cbn [length]; lia).
      rewrite length_app. cbn [length].
      replace (S (length st) - (length st + 1))%nat with 0%nat by lia.
      reflexivity. }
    split.
    { rewrite lookup_app_l by (rewrite length_app; lia).
      rewrite lookup_app_l by exact Hlt. exact Hb. }
    split.
    { intros b Hlb.
      rewrite lookup_app_l by (rewrite length_app; lia).
      apply lookup_app_l, Hlb. }
    split; [reflexivity|lia].
Qed.

(** The transform returns an image of the same size whose pixels are the
    results of the loop body on the original pixels; no buffer but the
    one of the result changes. *)
Lemma processImageWith_result rev influence (st : Store) img
    categoryActivations brightnessFactor contrastFactor harmonyScore :
  valid_image st img ->
  (forall r c, (r < height img)%nat -> (c < width img)%nat ->
               exists fi, influence r c = inr fi) ->
  let mods :=
    fold_activations categoryActivations brightnessFactor contrastFactor in
  exists st' img' bytes0 bytes',
    processImageWith rev influence st img categoryActivations
                     brightnessFactor contrastFactor harmonyScore
    = (st', inr img')
    /\ width img' = width img /\ height img' = height img
    /\ st !! data img = Some bytes0
    /\ st' !! data img' = Some bytes'
    /\ length bytes' = (4 * width img * height img)%nat
    /\ match rev with
       | Rev1 => data img' = data img
       | Rev2 => data img' = S (length st)
       end
    /\ (forall b, (b < length st)%nat -> b <> data img' ->
                  st' !! b = st !! b)
    /\ (forall r c px fi,
          (r < height img)%nat -> (c < width img)%nat ->
          pixel_at (width img) bytes0 r c = Some px ->
          influence r c = inr fi ->
          pixel_at (width img) bytes' r c
          = Some (pixel_result rev mods harmonyScore fi px)).
Proof.
  intros (bytes0 & Hb & Hlen & Hpos & _) Hinf mods.
  destruct (new_data_spec rev st img bytes0 Hb)
    as (st1 & dst & Hnew & Hdst & Hsrc & Hold & Hrev).
  unfold processImageWith. rewrite Hnew, Hdst. cbn [from_option Datatypes.id].
  rewrite Hlen, Nat.eqb_refl. cbn [negb orb].
  destruct (Nat.eqb_spec (4 * width img * height img) 0) as [Hz|_]; [lia|].
  fold mods.
  assert (Hcase : data img = dst
                  \/ (data img <> dst /\ st1 !! data img = Some bytes0)).
  { destruct rev; [left; symmetry; apply Hrev|right].
    split; [apply Hrev|exact Hsrc]. }
  assert (Hinv := process_pixels_inv rev mods harmonyScore influence
                    (width img) (height img) (data img) dst st1 bytes0
                    Hlen Hdst Hcase Hinf).
  destruct (process_pixels _ _ _ _ _ _ _ _ _) as [st2 failure].
  destruct Hinv as (Hf & Hl & Hframe & bytes' & Hb' & Hlen' & _ & Hdone).
  cbn [fst snd] in *. subst failure.
  exists st2, {| width := width img; height := height img; data := dst |},
         bytes0, bytes'.
  cbn [width height data].
  split; [reflexivity|]. split; [reflexivity|]. split; [reflexivity|].
  split; [exact Hb|]. split; [exact Hb'|]. split; [congruence|].
  split; [destruct rev; apply Hrev|].
  split.
  - intros b Hlb Hne. rewrite Hframe by exact Hne. apply Hold, Hlb.
  - intros r c px fi Hr Hc Hpx Hfi.
    apply Hdone; [exact Hc|nia|exact Hpx|exact Hfi].
Qed.

Lemma wave_influence_defined random (w h : nat) (m : list (list R))
    harmonyScore r c :
  grid_dims h w m -> (r < h)%nat -> (c < w)%nat ->
  exists fi, wave_influence random w h m harmonyScore r c = inr (Some fi).
Proof.
  intros [Hlen Hrows] Hr Hc. unfold wave_influence.
  destruct (lookup_lt_is_Some_2 m r) as [row Hrow]; [lia|]. rewrite Hrow.
  destruct (lookup_lt_is_Some_2 row c) as [k Hk].
  { rewrite (Forall_lookup_1 _ _ _ _ Hrows Hrow). exact Hc. }
  rewrite Hk. eexists. reflexivity.
Qed.

Lemma pixel_result_bytes rev mods harmonyScore fi r0 g0 b0 a0 :
  is_byte a0 ->
  exists r1 g1 b1,
    pixel_result rev mods harmonyScore fi (r0, g0, b0, a0)
    = (r1, g1, b1, a0)
    /\ is_byte r1 /\ is_byte g1 /\ is_byte b1.
Proof.
  intros Ha. unfold pixel_result.
  destruct (pixel_values rev mods harmonyScore fi r0 g0 b0) as [[vr vg] vb].
  rewrite (ToUint8Clamp_IZR a0 Ha).
  do 3 eexists. split; [reflexivity|].
  split; [|split]; apply ToUint8Clamp_byte.
Qed.

Lemma pixel_at_bytes (w h : nat) (bytes : list Z) r c px :
  Forall is_byte bytes -> pixel_at w bytes r c = Some px ->
  is_byte (snd px).
Proof.
  intros Hall Hpx. destruct px as [[[r0 g0] b0] a0].
  apply pixel_at_inv in Hpx as (_ & _ & _ & Ha).
  exact (Forall_lookup_1 _ _ _ _ Hall Ha).
Qed.

End Transform.

(** The second revision does what C1 says: on an image of the store and a
    knot map of the image's dimensions, [processImageWithSubQG] returns an
    image of the same width and height over a buffer that did not exist
    before, leaves every buffer that existed (the input's among them) as
    it was, copies the alpha byte of every pixel and stores bytes in
    [0,255]. *)
Lemma copied_buffer_keeps_input (random : nat -> R) (st : Store)
    (img : ImageData) (categoryActivations : list R)
    (brightnessFactor contrastFactor : R) (resizedKnotMap : list (list R))
    (harmonyScore : R) :
  valid_image st img ->
  grid_dims (height img) (width img) resizedKnotMap ->
  exists st' img',
    ImageUtils.processImageWithSubQG Rev2 random st img categoryActivations
      brightnessFactor contrastFactor resizedKnotMap harmonyScore
    = (st', inr img')
    /\ (forall b, (b < length st)%nat -> st' !! b = st !! b)
    /\ image_bytes st' img = image_bytes st img
    /\ (length st <= data img')%nat
    /\ width img' = width img /\ height img' = height img
    /\ forall r c, (r < height img)%nat -> (c < width img)%nat ->
         exists r0 g0 b0 a0 r1 g1 b1,
           pixel_at (width img) (image_bytes st img) r c
           = Some (r0, g0, b0, a0)
           /\ pixel_at (width img') (image_bytes st' img') r c
              = Some (r1, g1, b1, a0)
           /\ is_byte r1 /\ is_byte g1 /\ is_byte b1 /\ is_byte a0.
Proof.
  intros Hvalid Hdims. unfold ImageUtils.processImageWithSubQG.
  assert (Hinf : forall r c, (r < height img)%nat -> (c < width img)%nat ->
            exists fi, ImageUtils.wave_influence random (width img)
                         (height img) resizedKnotMap harmonyScore r c
                       = inr fi).
  { intros r c Hr Hc.
    destruct (wave_influence_defined random _ _ _ harmonyScore r c
                Hdims Hr Hc) as [fi Hfi].
    eexists. exact Hfi. }
  destruct (processImageWith_result Rev2 _ st img categoryActivations
              brightnessFactor contrastFactor harmonyScore Hvalid Hinf)
    as (st' & img' & bytes0 & bytes' & Hrun & Hw & Hh & Hb0 & Hb' & Hlen'
        & Hdata & Hold & Hpix).
  destruct Hvalid as (bytes & Hb & Hlen & Hpos & Hall).
  assert (bytes0 = bytes) by congruence. subst bytes0.
  assert (Hlt := lookup_lt_Some _ _ _ Hb).
  exists st', img'. split; [exact Hrun|].
  assert (Hkeep : forall b, (b < length st)%nat -> st' !! b = st !! b)
    by (intros b Hlb; apply Hold; [exact Hlb|lia]).
  split; [exact Hkeep|].
  split; [unfold image_bytes; rewrite Hkeep by exact Hlt; reflexivity|].
  split; [lia|]. split; [exact Hw|]. split; [exact Hh|].
  intros r c Hr Hc.
  destruct (pixel_at_Some (width img) (height img) bytes r c Hlen Hr Hc)
    as [[[[r0 g0] b0] a0] Hpx].
  destruct (Hinf r c Hr Hc) as [fi Hfi].
  assert (Ha : is_byte a0) by exact (pixel_at_bytes _ (height img) _ _ _ _ Hall Hpx).
  destruct (pixel_result_bytes Rev2
              (ImageUtils.fold_activations categoryActivations
                 brightnessFactor contrastFactor)
              harmonyScore fi r0 g0 b0 a0 Ha)
    as (r1 & g1 & b1 & Hres & Hr1 & Hg1 & Hb1).
  exists r0, g0, b0, a0, r1, g1, b1.
  unfold image_bytes. rewrite Hb, Hb', Hw. cbn [from_option Datatypes.id].
  split; [exact Hpx|].
  split; [rewrite (Hpix r c _ fi Hr Hc Hpx Hfi); rewrite Hres; reflexivity|].
  tauto.
Qed.

(** ** The neutral settings *)

Section Neutral.
Import MathHelpers ImageUtils.

Lemma fold_activations_neutral (acts : list R) (b c : R) :
  Forall (fun a => a = 0.5) acts -> fold_activations acts b c = (b, c).
Proof.
  unfold fold_activations. revert b c.
  induction acts as [|a acts IH]; intros b c Hall; [reflexivity|].
  apply Forall_cons in Hall as [-> Hall]. cbn [fold_left].
  rewrite IH by exact Hall. f_equal; lra.
Qed.

Lemma unit_of_byte (z : Z) : is_byte z -> 0 <= IZR z / 255 <= 1.
Proof.
  intros [H0 H1]. apply IZR_le in H0, H1. lra.
Qed.

Lemma base_channel_neutral (z : Z) :
  is_byte z -> base_channel z (0, 1) = IZR z / 255.
Proof.
  intros Hz. assert (H := unit_of_byte z Hz).
  unfold base_channel. cbn [fst snd]. rewrite clamp_id; lra.
Qed.

Lemma colour_mood_neutral rev (r g b : R) :
  0 <= r <= 1 -> 0 <= g <= 1 -> 0 <= b <= 1 ->
  colour_mood rev 0.5 0 (r, g, b) = (r, g, b).
Proof.
  intros Hr Hg Hb. unfold colour_mood.
  assert (Hshift : effectiveColorTempShift 0.5 0 = 0)
    by (unfold effectiveColorTempShift, colorTempShift; lra).
  assert (Hsat : effectiveSaturationFactor 0.5 0 = 1)
    by (unfold effectiveSaturationFactor, saturationFactor; lra).
  assert (Hvar : brightnessFieldVariation 0.5 0 = 0)
    by (unfold brightnessFieldVariation; lra).
  rewrite Hshift, Hsat, Hvar.
  replace (Js.gtb 0 0) with false by (symmetry; apply gtb_false; lra).
  assert (Hg' : match rev with Rev1 => clamp g 0 1 | Rev2 => g end = g)
    by (destruct rev; [apply clamp_id; lra|reflexivity]).
  rewrite Hg'.
  rewrite (clamp_id (r + 0 * 0.15)), (clamp_id (b - 0 * 0.20)) by lra.
  replace (r + 0 * 0.15) with r by lra.
  replace (b - 0 * 0.20) with b by lra.
  set (luma := 0.299 * r + 0.587 * g + 0.114 * b).
  replace (luma + (r - luma) * 1) with r by lra.
  replace (luma + (g - luma) * 1) with g by lra.
  replace (luma + (b - luma) * 1) with b by lra.
  rewrite (clamp_id r), (clamp_id g), (clamp_id b) by lra.
  rewrite !Rplus_0_r.
  rewrite (clamp_id r), (clamp_id g), (clamp_id b) by lra.
  reflexivity.
Qed.

Lemma stored_of_byte rev (z : Z) :
  is_byte z -> Js.ToUint8Clamp (stored rev (IZR z / 255)) = z.
Proof.
  intros Hz. assert (H := unit_of_byte z Hz).
  assert (Hx : IZR z / 255 * 255 = IZR z) by lra.
  unfold stored. rewrite Hx, clamp_id by lra.
  destruct rev; [rewrite Math_round_IZR|]; apply ToUint8Clamp_IZR, Hz.
Qed.

Lemma pixel_result_neutral rev (r0 g0 b0 a0 : Z) :
  is_byte r0 -> is_byte g0 -> is_byte b0 -> is_byte a0 ->
  pixel_result rev (0, 1) 0.5 (Some 0) (r0, g0, b0, a0)
  = (r0, g0, b0, a0).
Proof.
  intros Hr Hg Hb Ha. unfold pixel_result, pixel_values.
  rewrite !base_channel_neutral by assumption.
  rewrite colour_mood_neutral by (apply unit_of_byte; assumption).
  rewrite !stored_of_byte by assumption.
  rewrite ToUint8Clamp_IZR by assumption. reflexivity.
Qed.

Lemma pixel_at_all_bytes (w : nat) (bytes : list Z) r c r0 g0 b0 a0 :
  Forall is_byte bytes -> pixel_at w bytes r c = Some (r0, g0, b0, a0) ->
  is_byte r0 /\ is_byte g0 /\ is_byte b0 /\ is_byte a0.
Proof.
  intros Hall Hpx. apply pixel_at_inv in Hpx as (Hr & Hg & Hb & Ha).
  split; [|split; [|split]]; eapply Forall_lookup_1; eassumption.
Qed.

(** Two byte arrays of an image with the same pixels are equal. *)
Lemma bytes_eq_of_pixels (w h : nat) (bytes bytes' : list Z) :
  length bytes = (4 * w * h)%nat -> length bytes' = (4 * w * h)%nat ->
  (forall r c, (r < h)%nat -> (c < w)%nat ->
               pixel_at w bytes' r c = pixel_at w bytes r c) ->
  bytes' = bytes.
Proof.
  intros Hlen Hlen' Hpix. apply list_eq. intros i.
  destruct (Nat.lt_ge_cases i (4 * w * h)) as [Hi|Hi].
  - assert (Hw : w <> 0%nat) by nia.
    set (n := (i / 4)%nat). set (k := (i mod 4)%nat).
    set (r := (n / w)%nat). set (c := (n mod w)%nat).
    assert (Hik : i = (n * 4 + k)%nat)
      by (unfold n, k; rewrite (Nat.div_mod_eq i 4) at 1; lia).
    assert (Hk : (k < 4)%nat) by (apply Nat.mod_upper_bound; lia).
    assert (Hn : n = (r * w + c)%nat)
      by (unfold r, c; rewrite (Nat.div_mod_eq n w) at 1; lia).
    assert (Hc : (c < w)%nat) by (apply Nat.mod_upper_bound; exact Hw).
    assert (Hr : (r < h)%nat).
    { apply Nat.Div0.div_lt_upper_bound. nia. }
    specialize (Hpix r c Hr Hc).
    destruct (pixel_at_Some w h bytes r c Hlen Hr Hc)
      as [[[[r0 g0] b0] a0] Hpx].
    rewrite Hpx in Hpix.
    apply pixel_at_inv in Hpx as (H0 & H1 & H2 & H3).
    apply pixel_at_inv in Hpix as (H0' & H1' & H2' & H3').
    rewrite Hik, Hn.
    destruct k as [|[|[|[|k]]]]; [| | | |lia];
      rewrite ?Nat.add_0_r; congruence.
  - rewrite !lookup_ge_None_2 by lia. reflexivity.
Qed.

End Neutral.

(** C8, as the code has it.  With brightness 0, contrast 1, every category
    activation 0.5, the field influence forced to 0 and a harmony score of
    0.5, the transform returns an image with the bytes of its input: red,
    green and blue unchanged and alpha copied.  (At another harmony score
    the colour temperature and the saturation still move the pixels.) *)
Theorem neutral_transform_is_identity (rev : Revision) (st : Store)
    (img : ImageData) (categoryActivations : list R) :
  valid_image st img ->
  Forall (fun activation => activation = 0.5) categoryActivations ->
  exists st' img',
    ImageUtils.processImageWith rev forced_zero st img categoryActivations
                                0 1 0.5
    = (st', inr img')
    /\ width img' = width img /\ height img' = height img
    /\ image_bytes st' img' = image_bytes st img.
Proof.
  intros Hvalid Hneutral.
  assert (Hinf : forall r c, (r < height img)%nat -> (c < width img)%nat ->
                             exists fi, forced_zero r c = inr fi)
    by (intros; eexists; reflexivity).
  destruct (processImageWith_result rev _ st img categoryActivations
              0 1 0.5 Hvalid Hinf)
    as (st' & img' & bytes0 & bytes' & Hrun & Hw & Hh & Hb0 & Hb' & Hlen'
        & _ & _ & Hpix).
  destruct Hvalid as (bytes & Hb & Hlen & Hpos & Hall).
  assert (bytes0 = bytes) by congruence. subst bytes0.
  exists st', img'. split; [exact Hrun|].
  split; [exact Hw|]. split; [exact Hh|].
  unfold image_bytes. rewrite Hb, Hb'. cbn [from_option Datatypes.id].
  apply (bytes_eq_of_pixels (width img) (height img)); [exact Hlen|exact Hlen'|].
  intros r c Hr Hc.
  destruct (pixel_at_Some (width img) (height img) bytes r c Hlen Hr Hc)
    as [[[[r0 g0] b0] a0] Hpx].
  rewrite (Hpix r c _ (Some 0) Hr Hc Hpx eq_refl), Hpx.
  rewrite fold_activations_neutral by exact Hneutral.
  destruct (pixel_at_all_bytes _ _ _ _ _ _ _ _ Hall Hpx)
    as (Hr0 & Hg0 & Hb0' & Ha0).
  rewrite pixel_result_neutral by assumption. reflexivity.
Qed.

(** ** The transform on single pixels *)

Ltac clamp_eval :=
  repeat match goal with
         | |- context [MathHelpers.clamp ?v ?lo ?hi] =>
           first [ rewrite (clamp_id v lo hi) by lra
                 | rewrite (clamp_low v lo hi) by lra
                 | rewrite (clamp_high v lo hi) by lra ]
         end.

Section SinglePixels.
Import MathHelpers ImageUtils.

Lemma valid_one_pixel (r0 g0 b0 a0 : Z) :
  is_byte r0 -> is_byte g0 -> is_byte b0 -> is_byte a0 ->
  valid_image [[r0; g0; b0; a0]] one_pixel.
Proof.
  intros Hr Hg Hb Ha. exists [r0; g0; b0; a0].
  split; [reflexivity|]. split; [reflexivity|].
  split; [cbn; lia|].
  repeat (apply Forall_cons; split; [assumption|]). constructor.
Qed.

Lemma one_pixel_bytes (bytes : list Z) (px : Z * Z * Z * Z) :
  length bytes = 4%nat -> pixel_at 1 bytes 0 0 = Some px ->
  bytes = [fst (fst (fst px)); snd (fst (fst px)); snd (fst px); snd px].
Proof.
  intros Hlen Hpx. destruct px as [[[r0 g0] b0] a0].
  do 5 (destruct bytes as [|? bytes]; try discriminate Hlen).
  cbn in Hpx. injection Hpx as -> -> -> ->. reflexivity.
Qed.

(** A black pixel at harmony 0, with no field influence: the cooling
    branch lifts blue. *)
Lemma colour_mood_black :
  colour_mood Rev1 0 0 (0, 0, 0) = (0.00035625, 0.00035625, 0.02223125).
Proof.
  unfold colour_mood.
  assert (Hshift : effectiveColorTempShift 0 0 = -0.125)
    by (unfold effectiveColorTempShift, colorTempShift; lra).
  assert (Hsat : effectiveSaturationFactor 0 0 = 0.875)
    by (unfold effectiveSaturationFactor, saturationFactor; lra).
  assert (Hvar : brightnessFieldVariation 0 0 = 0)
    by (unfold brightnessFieldVariation; lra).
  rewrite Hshift, Hsat, Hvar.
  replace (Js.gtb (-0.125) 0) with false
    by (symmetry; apply gtb_false; lra).
  clamp_eval. f_equal; [f_equal|]; lra.
Qed.

Lemma pixel_result_black :
  pixel_result Rev1 (0, 1) 0 (Some 0) (0, 0, 0, 255)%Z
  = (0, 0, 6, 255)%Z.
Proof.
  unfold pixel_result, pixel_values.
  rewrite base_channel_neutral by (unfold is_byte; lia).
  replace (IZR 0 / 255) with 0 by lra.
  rewrite colour_mood_black. unfold stored. clamp_eval.
  rewrite (Math_round_eq (0.00035625 * 255) 0) by lra.
  rewrite (Math_round_eq (0.02223125 * 255) 6) by lra.
  rewrite !ToUint8Clamp_IZR by (unfold is_byte; lia). reflexivity.
Qed.

(** A light grey pixel pushed to white by a brightness of 0.6. *)
Lemma pixel_result_grey :
  pixel_result Rev1 (0.6, 1) 0.5 (Some 0) (200, 200, 200, 255)%Z
  = (255, 255, 255, 255)%Z.
Proof.
  unfold pixel_result, pixel_values.
  assert (Hbase : base_channel 200 (0.6, 1) = 1)
    by (unfold base_channel; cbn [fst snd]; apply clamp_high; lra).
  rewrite Hbase, colour_mood_neutral by lra.
  unfold stored. clamp_eval.
  rewrite (Math_round_eq (1 * 255) 255) by lra.
  rewrite !ToUint8Clamp_IZR by (unfold is_byte; lia). reflexivity.
Qed.

(** On a [1 x 1] image, with a knot value of 0 and both random draws at
    0, the two waves vanish. *)
Lemma wave_influence_one_pixel (harmonyScore : R) :
  wave_influence always_zero 1 1 [[0]] harmonyScore 0 0 = inr (Some 0).
Proof.
  unfold wave_influence, fieldInfluence, always_zero. cbn [lookup list_lookup fmap option_fmap option_map INR].
  do 2 f_equal.
  replace (0 / 1 * (3.0 + harmonyScore * 4.0) * PI * 2 + 0 * PI + 0 * PI * 2)
    with 0 by lra.
  replace (0 / 1 * (2.0 + harmonyScore * 3.0) * PI * 2 + 0 * PI + 0 * PI * 2)
    with 0 by lra.
  rewrite sin_0. lra.
Qed.

End SinglePixels.

(** C8, as stated, fails: at harmony 0 (the score of a run without knots)
    the neutral settings with the field influence forced to 0 turn a black
    pixel into one with 6 levels of blue. *)
Lemma neutral_transform_tints_black :
  exists st',
    ImageUtils.processImageWith Rev1 forced_zero black_store one_pixel
                                neutral_activations 0 1 0
    = (st', inr one_pixel)
    /\ image_bytes black_store one_pixel = [0; 0; 0; 255]%Z
    /\ image_bytes st' one_pixel = [0; 0; 6; 255]%Z.
Proof.
  assert (Hvalid : valid_image black_store one_pixel)
    by (apply valid_one_pixel; unfold is_byte; lia).
  assert (Hinf : forall r c, (r < height one_pixel)%nat ->
                   (c < width one_pixel)%nat ->
                   exists fi, forced_zero r c = inr fi)
    by (intros; eexists; reflexivity).
  destruct (processImageWith_result Rev1 _ black_store one_pixel
              neutral_activations 0 1 0 Hvalid Hinf)
    as (st' & img' & bytes0 & bytes' & Hrun & Hw & Hh & Hb0 & Hb' & Hlen'
        & Hdata & _ & Hpix).
  assert (Himg : img' = one_pixel)
    by (destruct img'; cbn in Hw, Hh, Hdata; subst; reflexivity).
  subst img'. exists st'. split; [exact Hrun|]. split; [reflexivity|].
  injection Hb0 as <-.
  assert (Hpx := Hpix 0%nat 0%nat _ (Some 0) ltac:(cbn; lia) ltac:(cbn; lia)
                   eq_refl eq_refl).
  rewrite fold_activations_neutral in Hpx
    by (repeat constructor).
  rewrite pixel_result_black in Hpx.
  unfold image_bytes. rewrite Hb'. cbn [from_option Datatypes.id].
  exact (one_pixel_bytes bytes' _ Hlen' Hpx).
Qed.

Lemma neutral_transform_is_identity_witness :
  exists st' img',
    ImageUtils.processImageWith Rev1 forced_zero black_store one_pixel
                                neutral_activations 0 1 0.5
    = (st', inr img')
    /\ width img' = width one_pixel /\ height img' = height one_pixel
    /\ image_bytes st' img' = image_bytes black_store one_pixel.
Proof.
  apply (neutral_transform_is_identity Rev1 black_store one_pixel
           neutral_activations).
  - apply valid_one_pixel; unfold is_byte; lia.
  - repeat constructor.
Defined.

(** C1 on the first revision: the result's byte array is a view over the
    buffer of the input, so the transform overwrites the input in place.
    A light grey pixel under a brightness of 0.6 comes back white, in the
    input's own buffer. *)
Theorem shared_buffer_overwrites_input :
  exists st' img',
    ImageUtils.processImageWithSubQG Rev1 always_zero grey_store one_pixel
      neutral_activations 0.6 1 [[0]] 0.5
    = (st', inr img')
    /\ data img' = data one_pixel
    /\ image_bytes grey_store one_pixel = [200; 200; 200; 255]%Z
    /\ image_bytes st' one_pixel = [255; 255; 255; 255]%Z.
Proof.
  assert (Hvalid : valid_image grey_store one_pixel)
    by (apply valid_one_pixel; unfold is_byte; lia).
  unfold ImageUtils.processImageWithSubQG.
  set (influence := ImageUtils.wave_influence _ _ _ _ _).
  assert (Hinf : forall r c, (r < height one_pixel)%nat ->
                   (c < width one_pixel)%nat ->
                   exists fi, influence r c = inr fi).
  { intros r c Hr Hc. cbn in Hr, Hc.
    assert (r = 0%nat) by lia. assert (c = 0%nat) by lia. subst r c.
    eexists. apply wave_influence_one_pixel. }
  destruct (processImageWith_result Rev1 influence grey_store one_pixel
              neutral_activations 0.6 1 0.5 Hvalid Hinf)
    as (st' & img' & bytes0 & bytes' & Hrun & Hw & Hh & Hb0 & Hb' & Hlen'
        & Hdata & _ & Hpix).
  exists st', img'. split; [exact Hrun|]. split; [exact Hdata|].
  split; [reflexivity|].
  injection Hb0 as <-.
  assert (Hpx := Hpix 0%nat 0%nat _ (Some 0) ltac:(cbn; lia) ltac:(cbn; lia)
                   eq_refl (wave_influence_one_pixel 0.5)).
  rewrite fold_activations_neutral in Hpx by (repeat constructor).
  rewrite pixel_result_grey in Hpx.
  unfold image_bytes. rewrite <- Hdata, Hb'. cbn [from_option Datatypes.id].
  exact (one_pixel_bytes bytes' _ Hlen' Hpx).
Qed.

(** ** The modulation of the colour mood by the field *)

Section Mood.
Import MathHelpers ImageUtils.

Lemma clamped_id (v lo hi : R) : lo <= v <= hi -> Spec.clamped v lo hi = v.
Proof.
  intros H. unfold Spec.clamped. repeat destruct Rlt_dec; lra.
Qed.

Lemma clamped_high (v lo hi : R) :
  hi <= v -> lo <= hi -> Spec.clamped v lo hi = hi.
Proof.
  intros H1 H2. unfold Spec.clamped. repeat destruct Rlt_dec; lra.
Qed.

Lemma base_channel_unit (z : Z) (mods : R * R) :
  0 <= base_channel z mods <= 1.
Proof. unfold base_channel. apply clamp_bounds. lra. Qed.

Lemma effectiveColorTempShift_in_words (harmonyScore fi : R) :
  effectiveColorTempShift harmonyScore fi
  = temperature_shift harmonyScore fi.
Proof.
  unfold effectiveColorTempShift, temperature_shift, colorTempShift,
    fieldColorModulationStrength, modulation_strength.
  replace 1.0 with 1 by lra. reflexivity.
Qed.

Lemma effectiveSaturationFactor_in_words (harmonyScore fi : R) :
  effectiveSaturationFactor harmonyScore fi = saturation harmonyScore fi.
Proof.
  unfold effectiveSaturationFactor, saturation, saturationFactor,
    fieldColorModulationStrength, modulation_strength.
  replace 1.0 with 1 by lra. reflexivity.
Qed.

Lemma brightnessFieldVariation_in_words (harmonyScore fi : R) :
  brightnessFieldVariation harmonyScore fi
  = brightness_delta harmonyScore fi.
Proof.
  unfold brightnessFieldVariation, brightness_delta,
    fieldBrightnessVariationStrength.
  replace 1.0 with 1 by lra. reflexivity.
Qed.

(** The colour stages of the loop body are the mood under the three
    modulated quantities. *)
Lemma colour_mood_in_words rev (harmonyScore fi r g b : R) :
  0 <= g <= 1 ->
  colour_mood rev harmonyScore fi (r, g, b)
  = mood (temperature_shift harmonyScore fi) (saturation harmonyScore fi)
         (brightness_delta harmonyScore fi) (r, g, b).
Proof.
  intros Hg. unfold colour_mood, mood.
  rewrite effectiveColorTempShift_in_words,
    effectiveSaturationFactor_in_words, brightnessFieldVariation_in_words.
  set (shift := temperature_shift harmonyScore fi).
  set (sat := saturation harmonyScore fi).
  set (delta := brightness_delta harmonyScore fi).
  assert (Hgreen : match rev with Rev1 => clamp g 0 1 | Rev2 => g end = g)
    by (destruct rev; [apply clamp_id; exact Hg|reflexivity]).
  rewrite Hgreen. unfold Js.gtb.
  destruct (Rlt_dec 0 shift); cbv beta iota zeta;
    rewrite !clamp_clamped by lra;
    rewrite !(Rmult_comm _ sat).
  - replace (r + shift * 0.20) with (r + 0.20 * shift) by lra.
    replace (g + shift * 0.10) with (g + 0.10 * shift) by lra.
    replace (b - shift * 0.15) with (b - 0.15 * shift) by lra.
    reflexivity.
  - replace (r + shift * 0.15) with (r + 0.15 * shift) by lra.
    replace (b - shift * 0.20) with (b - 0.20 * shift) by lra.
    reflexivity.
Qed.

(** The loop body on a pixel whose alpha is a byte. *)
Lemma pixel_result_in_words rev (mods : R * R) (harmonyScore fi : R)
    (r0 g0 b0 a0 : Z) :
  is_byte a0 ->
  pixel_result rev mods harmonyScore (Some fi) (r0, g0, b0, a0)
  = mood_pixel rev mods (temperature_shift harmonyScore fi)
               (saturation harmonyScore fi)
               (brightness_delta harmonyScore fi) (r0, g0, b0, a0).
Proof.
  intros Ha. unfold pixel_result, pixel_values, mood_pixel.
  rewrite colour_mood_in_words by apply base_channel_unit.
  destruct (mood _ _ _ _) as [[x y] z].
  rewrite (ToUint8Clamp_IZR a0 Ha). reflexivity.
Qed.

Lemma clamped_bounds (v lo hi : R) :
  lo <= hi -> lo <= Spec.clamped v lo hi <= hi.
Proof.
  intros H. unfold Spec.clamped. repeat destruct Rlt_dec; lra.
Qed.

Lemma mood_unit (shift sat delta : R) (rgb : R * R * R) :
  let '(x, y, z) := mood shift sat delta rgb in
  0 <= x <= 1 /\ 0 <= y <= 1 /\ 0 <= z <= 1.
Proof.
  destruct rgb as [[r g] b]. unfold mood.
  destruct (Rlt_dec 0 shift);
    (split; [|split]; apply clamped_bounds; lra).
Qed.

Lemma Math_round_within (v : R) :
  Rabs (IZR (Js.Math_round v) - v) <= / 2.
Proof.
  unfold Js.Math_round. assert (Hb := Zfloor_bound (v + / 2)).
  apply Rabs_le. lra.
Qed.

Lemma ToUint8Clamp_within (v : R) :
  0 <= v <= 255 -> Rabs (IZR (Js.ToUint8Clamp v) - v) <= / 2.
Proof.
  intros Hv. unfold Js.ToUint8Clamp. assert (Hb := Zfloor_bound v).
  apply Rabs_le.
  destruct (Rle_dec v 0); [lra|].
  destruct (Rle_dec 255 v); [lra|].
  destruct (Rlt_dec (v - IZR (Zfloor v)) (/ 2)); [lra|].
  destruct (Rlt_dec (/ 2) (v - IZR (Zfloor v)));
    [rewrite plus_IZR; lra|].
  destruct (Z.even (Zfloor v)); [lra|rewrite plus_IZR; lra].
Qed.

(** Both revisions store a channel in a byte that holds it. *)
Lemma stored_holds rev (x : R) :
  0 <= x <= 1 -> holds_channel (Js.ToUint8Clamp (stored rev x)) x.
Proof.
  intros Hx. split; [apply ToUint8Clamp_byte|].
  unfold stored. rewrite (clamp_id (x * 255)) by lra.
  destruct rev.
  - assert (Hround : is_byte (Js.Math_round (x * 255))).
    { unfold Js.Math_round, is_byte.
      assert (Hb := Zfloor_bound (x * 255 + / 2)).
      split; [apply Zfloor_lub; lra|].
      assert (H : (Zfloor (x * 255 + / 2) < 256)%Z)
        by (apply lt_IZR; lra).
      lia. }
    rewrite (ToUint8Clamp_IZR _ Hround). apply Math_round_within.
  - apply ToUint8Clamp_within. lra.
Qed.

End Mood.

(** C4, as the code has it.  In the pixel transformer, for every pixel,
    the colour-temperature shift is [(harmony - 0.5) * 0.25] multiplied by
    [1 + fieldInfluence * s] and the saturation factor is
    [1 + (harmony - 0.5) * 0.25] multiplied by
    [1 + fieldInfluence * s * 0.5], half that modulation, with
    [s = 0.15 * (1 - harmony)]; the later brightness delta is
    [fieldInfluence * 0.10 * (1 - harmony)].  The transformer returns, and
    the three bytes it stores for the pixel hold the channels of the mood
    under these three quantities, for the field influence of the pixel;
    the alpha byte is the original one.  (The channels are computed in
    exact arithmetic; a byte holds a channel whichever way a half is
    rounded.) *)
Theorem field_modulation_of_mood (rev : Revision) (random : nat -> R)
    (st : Store) (img : ImageData) (categoryActivations : list R)
    (brightnessFactor contrastFactor : R) (resizedKnotMap : list (list R))
    (harmonyScore : R) :
  valid_image st img ->
  grid_dims (height img) (width img) resizedKnotMap ->
  let mods := ImageUtils.fold_activations categoryActivations
                brightnessFactor contrastFactor in
  exists st' img',
    ImageUtils.processImageWithSubQG rev random st img categoryActivations
      brightnessFactor contrastFactor resizedKnotMap harmonyScore
    = (st', inr img')
    /\ forall r c, (r < height img)%nat -> (c < width img)%nat ->
         exists r0 g0 b0 a0 fieldInfluence x y z r1 g1 b1,
           pixel_at (width img) (image_bytes st img) r c
           = Some (r0, g0, b0, a0)
           /\ ImageUtils.wave_influence random (width img) (height img)
                resizedKnotMap harmonyScore r c = inr (Some fieldInfluence)
           /\ mood (temperature_shift harmonyScore fieldInfluence)
                   (saturation harmonyScore fieldInfluence)
                   (brightness_delta harmonyScore fieldInfluence)
                   (ImageUtils.base_channel r0 mods,
                    ImageUtils.base_channel g0 mods,
                    ImageUtils.base_channel b0 mods)
              = (x, y, z)
           /\ pixel_at (width img) (image_bytes st' img') r c
              = Some (r1, g1, b1, a0)
           /\ holds_channel r1 x /\ holds_channel g1 y
           /\ holds_channel b1 z.
Proof.
  intros Hvalid Hdims mods. unfold ImageUtils.processImageWithSubQG.
  assert (Hinf : forall r c, (r < height img)%nat -> (c < width img)%nat ->
            exists fi, ImageUtils.wave_influence random (width img)
                         (height img) resizedKnotMap harmonyScore r c
                       = inr fi).
  { intros r c Hr Hc.
    destruct (wave_influence_defined random _ _ _ harmonyScore r c
                Hdims Hr Hc) as [fi Hfi].
    eexists. exact Hfi. }
  destruct (processImageWith_result rev _ st img categoryActivations
              brightnessFactor contrastFactor harmonyScore Hvalid Hinf)
    as (st' & img' & bytes0 & bytes' & Hrun & Hw & Hh & Hb0 & Hb' & Hlen'
        & Hdata & Hold & Hpix).
  destruct Hvalid as (bytes & Hb & Hlen & Hpos & Hall).
  assert (bytes0 = bytes) by congruence. subst bytes0.
  exists st', img'. split; [exact Hrun|].
  intros r c Hr Hc.
  destruct (pixel_at_Some (width img) (height img) bytes r c Hlen Hr Hc)
    as [[[[r0 g0] b0] a0] Hpx].
  destruct (wave_influence_defined random _ _ _ harmonyScore r c
              Hdims Hr Hc) as [fi Hfi].
  assert (Ha : is_byte a0)
    by exact (pixel_at_bytes _ (height img) _ _ _ _ Hall Hpx).
  assert (Hres := Hpix r c _ (Some fi) Hr Hc Hpx Hfi).
  rewrite pixel_result_in_words in Hres by exact Ha.
  unfold mood_pixel in Hres. fold mods in Hres.
  assert (Hunit := mood_unit (temperature_shift harmonyScore fi)
                     (saturation harmonyScore fi)
                     (brightness_delta harmonyScore fi)
                     (ImageUtils.base_channel r0 mods,
                      ImageUtils.base_channel g0 mods,
                      ImageUtils.base_channel b0 mods)).
  destruct (mood _ _ _ _) as [[x y] z] eqn:Hmood.
  destruct Hunit as (Hx & Hy & Hz).
  exists r0, g0, b0, a0, fi, x, y, z.
  exists (Js.ToUint8Clamp (ImageUtils.stored rev x)),
         (Js.ToUint8Clamp (ImageUtils.stored rev y)),
         (Js.ToUint8Clamp (ImageUtils.stored rev z)).
  unfold image_bytes. rewrite Hb, Hb'. cbn [from_option Datatypes.id].
  split; [exact Hpx|]. split; [exact Hfi|]. split; [exact Hmood|].
  split; [exact Hres|].
  split; [apply stored_holds, Hx|].
  split; [apply stored_holds, Hy|apply stored_holds, Hz].
Qed.

(** ** The mood on one orange pixel *)

Ltac clamped_eval :=
  repeat match goal with
         | |- context [Spec.clamped ?v ?lo ?hi] =>
           first [ rewrite (clamped_id v lo hi) by lra
                 | rewrite (clamped_high v lo hi) by lra ]
         end.

Section OrangePixel.
Import MathHelpers ImageUtils.

(** On a [1 x 1] image, with a knot value of 0.5 and both random draws
    at 0, both waves are [sin (PI / 2)]. *)
Lemma wave_influence_half_knot (harmonyScore : R) :
  wave_influence always_zero 1 1 [[0.5]] harmonyScore 0 0 = inr (Some 1).
Proof.
  unfold wave_influence, fieldInfluence, always_zero.
  cbn [lookup list_lookup fmap option_fmap option_map INR].
  do 2 f_equal.
  replace (0 / 1 * (3.0 + harmonyScore * 4.0) * PI * 2 + 0.5 * PI
           + 0 * PI * 2) with (PI / 2) by lra.
  replace (0 / 1 * (2.0 + harmonyScore * 3.0) * PI * 2 + 0.5 * PI
           + 0 * PI * 2) with (PI / 2) by lra.
  rewrite sin_PI2. lra.
Qed.

Lemma orange_shift : temperature_shift 0 1 = -0.14375.
Proof. unfold temperature_shift, modulation_strength. lra. Qed.

Lemma orange_saturation : saturation 0 1 = 0.940625.
Proof. unfold saturation, modulation_strength. lra. Qed.

Lemma orange_full_saturation : fully_modulated_saturation 0 1 = 1.00625.
Proof. unfold fully_modulated_saturation, modulation_strength. lra. Qed.

Lemma orange_delta : brightness_delta 0 1 = 0.1.
Proof. unfold brightness_delta. lra. Qed.

Lemma stored_byte rev (x : R) (z : Z) :
  is_byte z -> IZR z - / 2 < x * 255 < IZR z + / 2 ->
  Js.ToUint8Clamp (stored rev x) = z.
Proof.
  intros Hz Hx. assert (Hb := Hz). destruct Hb as [H0 H1].
  apply IZR_le in H0, H1.
  assert (Hlow : 0 <= x * 255 \/ x * 255 < 0) by lra.
  assert (Hhigh : x * 255 <= 255 \/ 255 < x * 255) by lra.
  assert (Hnear : IZR z - / 2 < clamp (x * 255) 0 255 < IZR z + / 2).
  { destruct Hlow as [Hlow|Hlow]; destruct Hhigh as [Hhigh|Hhigh].
    - rewrite clamp_id by lra. exact Hx.
    - rewrite clamp_high by lra. lra.
    - rewrite clamp_low by lra. lra.
    - lra. }
  destruct rev; unfold stored.
  - rewrite (Math_round_eq _ z) by lra. apply ToUint8Clamp_IZR, Hz.
  - apply ToUint8Clamp_near; assumption.
Qed.

(** The pixel under the modulation the code applies. *)
Lemma mood_pixel_orange rev :
  mood_pixel rev (0, 1) (temperature_shift 0 1) (saturation 0 1)
             (brightness_delta 0 1) (200, 100, 50, 255)%Z
  = (216, 127, 87, 255)%Z.
Proof.
  unfold mood_pixel.
  rewrite !base_channel_neutral by (unfold is_byte; lia).
  rewrite orange_shift, orange_saturation, orange_delta.
  unfold mood.
  destruct (Rlt_dec 0 (-0.14375)) as [Hpos|_]; [lra|].
  clamped_eval.
  rewrite (stored_byte rev _ 216) by (unfold is_byte; try lia; lra).
  rewrite (stored_byte rev _ 127) by (unfold is_byte; try lia; lra).
  rewrite (stored_byte rev _ 87) by (unfold is_byte; try lia; lra).
  reflexivity.
Qed.

(** The channels if the saturation took the full modulation. *)
Lemma mood_orange_full :
  exists x y z,
    mood (temperature_shift 0 1) (fully_modulated_saturation 0 1)
         (brightness_delta 0 1)
         (base_channel 200 (0, 1), base_channel 100 (0, 1),
          base_channel 50 (0, 1))
    = (x, y, z)
    /\ 220 < x * 255 < 221 /\ 125 < y * 255 < 126 /\ 82 < z * 255 < 83.
Proof.
  rewrite !base_channel_neutral by (unfold is_byte; lia).
  rewrite orange_shift, orange_full_saturation, orange_delta.
  unfold mood.
  destruct (Rlt_dec 0 (-0.14375)) as [Hpos|_]; [lra|].
  clamped_eval. do 3 eexists. split; [reflexivity|]. lra.
Qed.

End OrangePixel.

Lemma field_modulation_of_mood_witness :
  exists st' img',
    ImageUtils.processImageWithSubQG Rev2 always_zero orange_store one_pixel
      neutral_activations 0 1 [[0.5]] 0
    = (st', inr img')
    /\ forall r c, (r < height one_pixel)%nat -> (c < width one_pixel)%nat ->
         exists r0 g0 b0 a0 fieldInfluence x y z r1 g1 b1,
           pixel_at (width one_pixel) (image_bytes orange_store one_pixel) r c
           = Some (r0, g0, b0, a0)
           /\ ImageUtils.wave_influence always_zero (width one_pixel)
                (height one_pixel) [[0.5]] 0 r c = inr (Some fieldInfluence)
           /\ mood (temperature_shift 0 fieldInfluence)
                   (saturation 0 fieldInfluence)
                   (brightness_delta 0 fieldInfluence)
                   (ImageUtils.base_channel r0
                      (ImageUtils.fold_activations neutral_activations 0 1),
                    ImageUtils.base_channel g0
                      (ImageUtils.fold_activations neutral_activations 0 1),
                    ImageUtils.base_channel b0
                      (ImageUtils.fold_activations neutral_activations 0 1))
              = (x, y, z)
           /\ pixel_at (width one_pixel) (image_bytes st' img') r c
              = Some (r1, g1, b1, a0)
           /\ holds_channel r1 x /\ holds_channel g1 y
           /\ holds_channel b1 z.
Proof.
  apply (field_modulation_of_mood Rev2 always_zero orange_store one_pixel
           neutral_activations 0 1 [[0.5]] 0).
  - apply valid_one_pixel; unfold is_byte; lia.
  - split; [reflexivity|]. repeat constructor.
Defined.

(** C4, as stated, fails: the saturation factor does not take the
    modulation [1 + fieldInfluence * s] of the temperature shift.  On an
    orange pixel, at harmony 0 and under a field influence of 1, the
    transformer stores (216, 127, 87); with the full modulation on the
    saturation the three channels would be near 220.4, 125.4 and 82.4,
    which none of these bytes holds. *)
Lemma saturation_modulation_is_halved :
  exists st' img' x y z,
    ImageUtils.processImageWithSubQG Rev2 always_zero orange_store one_pixel
      neutral_activations 0 1 [[0.5]] 0
    = (st', inr img')
    /\ ImageUtils.wave_influence always_zero 1 1 [[0.5]] 0 0 0
       = inr (Some 1)
    /\ pixel_at 1 (image_bytes st' img') 0 0 = Some (216, 127, 87, 255)%Z
    /\ mood (temperature_shift 0 1) (fully_modulated_saturation 0 1)
            (brightness_delta 0 1)
            (ImageUtils.base_channel 200
               (ImageUtils.fold_activations neutral_activations 0 1),
             ImageUtils.base_channel 100
               (ImageUtils.fold_activations neutral_activations 0 1),
             ImageUtils.base_channel 50
               (ImageUtils.fold_activations neutral_activations 0 1))
       = (x, y, z)
    /\ ~ holds_channel 216 x /\ ~ holds_channel 127 y
    /\ ~ holds_channel 87 z.
Proof.
  assert (Hvalid : valid_image orange_store one_pixel)
    by (apply valid_one_pixel; unfold is_byte; lia).
  unfold ImageUtils.processImageWithSubQG.
  set (influence := ImageUtils.wave_influence _ _ _ _ _).
  assert (Hinf : forall r c, (r < height one_pixel)%nat ->
                   (c < width one_pixel)%nat ->
                   exists fi, influence r c = inr fi).
  { intros r c Hr Hc. cbn in Hr, Hc.
    assert (r = 0%nat) by lia. assert (c = 0%nat) by lia. subst r c.
    eexists. apply wave_influence_half_knot. }
  destruct (processImageWith_result Rev2 influence orange_store one_pixel
              neutral_activations 0 1 0 Hvalid Hinf)
    as (st' & img' & bytes0 & bytes' & Hrun & Hw & Hh & Hb0 & Hb' & Hlen'
        & Hdata & _ & Hpix).
  rewrite fold_activations_neutral in * by (repeat constructor).
  destruct mood_orange_full as (x & y & z & Hmood & Hx & Hy & Hz).
  exists st', img', x, y, z. split; [exact Hrun|].
  split; [apply wave_influence_half_knot|].
  split.
  { injection Hb0 as <-.
    assert (Hpx := Hpix 0%nat 0%nat _ (Some 1) ltac:(cbn; lia)
                     ltac:(cbn; lia) eq_refl (wave_influence_half_knot 0)).
    rewrite pixel_result_in_words in Hpx by (unfold is_byte; lia).
    rewrite mood_pixel_orange in Hpx.
    unfold image_bytes. rewrite Hb'. cbn [from_option Datatypes.id].
    exact Hpx. }
  split; [exact Hmood|].
  unfold holds_channel.
  split; [|split]; intros [_ Hnear]; revert Hnear; unfold Rabs;
    destruct Rcase_abs; lra.
Qed.

(** ** [resizeKnotMap] *)

Section Resize.
Import MathHelpers ImageUtils.

Lemma grid_get_dims {A : Type} (h w r c : nat) (g : list (list A)) x :
  grid_dims h w g -> grid_get r c g = Some x -> (r < h)%nat /\ (c < w)%nat.
Proof.
  intros [Hlen Hrows]. unfold grid_get.
  destruct (g !! r) as [row|] eqn:Hrow; [|discriminate].
  intros Hx. split.
  - rewrite <- Hlen. exact (lookup_lt_Some _ _ _ Hrow).
  - rewrite <- (Forall_lookup_1 _ _ _ _ Hrows Hrow).
    exact (lookup_lt_Some _ _ _ Hx).
Qed.

Lemma all_zero_get (knotMap : KnotMap) r c k :
  all_zero knotMap -> grid_get r c knotMap = Some k -> k = 0%nat.
Proof.
  intros Hall. unfold grid_get.
  destruct (knotMap !! r) as [row|] eqn:Hrow; [|discriminate].
  intros Hk.
  exact (Forall_lookup_1 _ _ _ _ (Forall_lookup_1 _ _ _ _ Hall Hrow) Hk).
Qed.

Lemma scan_max_zero (knotMap : KnotMap) sh sw :
  all_zero knotMap -> scan_max knotMap sh sw = 0%nat.
Proof.
  intros Hall. unfold scan_max.
  apply (for_range2_ind (fun _ _ m => m = 0%nat)); [reflexivity| |auto].
  intros r c m _ _ ->.
  destruct (grid_get r c knotMap) as [k|] eqn:Hk; [|reflexivity].
  rewrite (all_zero_get _ _ _ _ Hall Hk). reflexivity.
Qed.

Lemma normVal_zero (knotMap : KnotMap) maxKnotVal r c :
  all_zero knotMap ->
  Js.ToUint8Clamp (normVal knotMap maxKnotVal r c) = 0%Z.
Proof.
  intros Hall. unfold normVal.
  destruct (grid_get r c knotMap) as [k|] eqn:Hk.
  - rewrite (all_zero_get _ _ _ _ Hall Hk). cbn [INR].
    replace (0 / INR maxKnotVal * 255) with 0
      by (unfold Rdiv; rewrite !Rmult_0_l; reflexivity).
    unfold Js.Math_floor. rewrite (Zfloor_eq 0 0) by lra.
    apply ToUint8Clamp_IZR. unfold is_byte. lia.
  - apply (ToUint8Clamp_IZR 0). unfold is_byte. lia.
Qed.

Lemma paint_source_inv (knotMap : KnotMap) sh sw maxKnotVal :
  paint_inv knotMap sw sh maxKnotVal sh 0
            (paint_source knotMap sh sw maxKnotVal).
Proof.
  unfold paint_source.
  apply (for_range2_ind (paint_inv knotMap sw sh maxKnotVal)).
  - split; [apply length_replicate|]. intros r1 c1 _ Hlt. lia.
  - intros r c bytes Hr Hc [Hlen Hdone].
    assert (Hi := pixel_index_lt sw sh r c Hr Hc).
    set (idx := ((r * sw + c) * 4)%nat) in *.
    set (v := Js.ToUint8Clamp (normVal knotMap maxKnotVal r c)).
    split; [rewrite !length_insert; exact Hlen|].
    intros r1 c1 Hc1 Hlt.
    destruct (decide (r1 * sw + c1 = r * sw + c)%nat) as [Heq|Hne].
    + destruct (pixel_index_inj sw r c r1 c1 Hc Hc1 Heq) as [-> ->].
      cbv zeta. fold v. unfold pixel_at. fold idx.
      rewrite (list_lookup_insert_ne _ (idx + 3) idx) by lia.
      rewrite (list_lookup_insert_ne _ (idx + 2) idx) by lia.
      rewrite (list_lookup_insert_ne _ (idx + 1) idx) by lia.
      rewrite list_lookup_insert_eq by lia.
      rewrite (list_lookup_insert_ne _ (idx + 3) (idx + 1)) by lia.
      rewrite (list_lookup_insert_ne _ (idx + 2) (idx + 1)) by lia.
      rewrite list_lookup_insert_eq by (rewrite !length_insert; lia).
      rewrite (list_lookup_insert_ne _ (idx + 3) (idx + 2)) by lia.
      rewrite list_lookup_insert_eq by (rewrite !length_insert; lia).
      rewrite list_lookup_insert_eq by (rewrite !length_insert; lia).
      reflexivity.
    + assert (Hold := Hdone r1 c1 Hc1 ltac:(lia)).
      cbv zeta in Hold |- *. rewrite <- Hold.
      apply pixel_at_ext. intros k Hk.
      rewrite !list_lookup_insert_ne by (fold idx; lia). reflexivity.
  - intros r bytes Hr [Hlen Hdone]. split; [exact Hlen|].
    intros r1 c1 Hc1 Hlt. apply Hdone; [exact Hc1|lia].
Qed.

Lemma grid_set_replicate_same {A : Type} (h w r c : nat) (x : A) :
  grid_set r c x (replicate h (replicate w x))
  = replicate h (replicate w x).
Proof.
  unfold grid_set, grid_alter. apply list_eq. intros i.
  destruct (decide (r = i)) as [->|Hne].
  - rewrite list_lookup_alter_eq.
    destruct (replicate h (replicate w x) !! i) as [row|] eqn:Hrow;
      [|reflexivity].
    apply lookup_replicate in Hrow as [-> _]. cbn. f_equal.
    apply list_eq. intros j.
    destruct (decide (c = j)) as [->|Hnc].
    + rewrite list_lookup_alter_eq.
      destruct (replicate w x !! j) as [y|] eqn:Hy; [|reflexivity].
      apply lookup_replicate in Hy as [-> _]. reflexivity.
    + apply list_lookup_alter_ne, Hnc.
  - apply list_lookup_alter_ne, Hne.
Qed.

(** With no red in the resized image, the third pair of loops leaves the
    zero matrix and a largest value of 0. *)
Lemma read_resized_zero (bytes : list Z) th tw :
  (forall r c, (r < th)%nat -> (c < tw)%nat ->
               bytes !! ((r * tw + c) * 4)%nat = Some 0%Z) ->
  read_resized bytes th tw (replicate th (replicate tw 0))
  = (replicate th (replicate tw 0), 0).
Proof.
  intros Hred. unfold read_resized.
  apply (for_range2_ind
           (fun _ _ x => x = (replicate th (replicate tw 0), 0)));
    [reflexivity| |auto].
  intros r c x Hr Hc ->. rewrite (Hred r c Hr Hc). cbn [from_option Datatypes.id].
  replace (IZR 0 / 255) with 0 by lra.
  rewrite grid_set_replicate_same.
  replace (Js.gtb 0 0) with false by (symmetry; apply gtb_false; lra).
  reflexivity.
Qed.

Lemma read_resized_inv (bytes : list Z) th tw :
  Forall is_byte bytes ->
  read_inv th tw (read_resized bytes th tw (replicate th (replicate tw 0))).
Proof.
  intros Hbytes. unfold read_resized.
  apply (for_range2_ind (fun _ _ x => read_inv th tw x)); [| |auto].
  - split; [apply grid_dims_replicate|]. cbn [fst snd]. split; [lra|].
    intros r c v Hv.
    destruct (grid_get_dims th tw r c _ v (grid_dims_replicate th tw 0) Hv)
      as [Hr Hc].
    rewrite grid_get_replicate in Hv by assumption.
    injection Hv as <-. lra.
  - intros r c [m mx] _ _ (Hd & Hmx & Hall). cbn [fst snd] in *.
    set (b := default 0%Z (bytes !! ((r * tw + c) * 4)%nat)).
    assert (Hb : is_byte b).
    { unfold b. destruct (bytes !! _) as [z|] eqn:Hz; cbn [from_option Datatypes.id].
      - exact (Forall_lookup_1 _ _ _ _ Hbytes Hz).
      - unfold is_byte. lia. }
    assert (Hval := unit_of_byte b Hb).
    set (val := IZR b / 255) in *.
    set (mx' := if Js.gtb val mx then val else mx).
    assert (Hmx' : mx <= mx' /\ val <= mx' /\ 0 <= mx' <= 1).
    { unfold mx'. destruct (Js.gtb val mx) eqn:Hgt.
      - apply gtb_true in Hgt. lra.
      - apply gtb_false in Hgt. lra. }
    split; [apply grid_dims_alter, Hd|]. cbn [fst snd].
    split; [tauto|].
    intros r0 c0 v Hv.
    destruct (decide ((r, c) = (r0, c0))) as [[= <- <-]|Hne].
    + unfold grid_set in Hv. rewrite grid_get_alter_eq in Hv.
      destruct (grid_get r c m) as [v0|]; [|discriminate].
      injection Hv as <-. lra.
    + unfold grid_set in Hv. rewrite grid_get_alter_ne in Hv by exact Hne.
      specialize (Hall r0 c0 v Hv). lra.
Qed.

Lemma renormalise_inv (mx : R) th tw (m : list (list R)) :
  0 < mx -> grid_dims th tw m ->
  (forall r c v, grid_get r c m = Some v -> 0 <= v <= mx) ->
  renorm_inv th tw mx th 0 (renormalise mx th tw m).
Proof.
  intros Hmx Hd Hall. unfold renormalise.
  apply (for_range2_ind (renorm_inv th tw mx)).
  - split; [exact Hd|]. intros r0 c0 v Hv. rewrite passed_none.
    apply Hall with r0 c0. exact Hv.
  - intros r c g Hr Hc [Hdg Hg].
    split; [apply grid_dims_alter, Hdg|].
    intros r0 c0 v Hv. rewrite passed_next.
    destruct (decide ((r, c) = (r0, c0))) as [[= <- <-]|Hne].
    + rewrite grid_get_alter_eq in Hv.
      destruct (grid_get r c g) as [v0|] eqn:Hv0; [|discriminate].
      injection Hv as <-. specialize (Hg r c v0 Hv0).
      replace (passed r c r c) with false in Hg.
      * split.
        -- apply Rmult_le_pos; [lra|]. apply Rlt_le, Rinv_0_lt_compat, Hmx.
        -- apply (Rmult_le_reg_r mx); [exact Hmx|].
           unfold Rdiv. rewrite Rmult_assoc, Rinv_l by lra. lra.
      * unfold passed. rewrite !Nat.ltb_irrefl, andb_false_r. reflexivity.
    + rewrite grid_get_alter_ne in Hv by exact Hne. apply Hg, Hv.
  - intros r g Hr [Hdg Hg]. split; [exact Hdg|].
    intros r0 c0 v Hv.
    destruct (grid_get_dims th tw r0 c0 g v Hdg Hv) as [_ Hc0].
    rewrite (passed_row tw) by exact Hc0. apply Hg, Hv.
Qed.

End Resize.

Section NearestCanvas.

Lemma nearest_canvas_contract : canvas_contract nearest_canvas.
Proof.
  intros sw sh src tw th. cbn [drawImage nearest_canvas]. split.
  - rewrite length_map, length_seq. reflexivity.
  - apply Forall_forall. intros z Hz. apply list_elem_of_In in Hz.
    apply in_map_iff in Hz as (i & <- & _).
    unfold nearest_byte, is_byte. lia.
Qed.

Lemma nearest_canvas_keeps_black : canvas_keeps_black nearest_canvas.
Proof.
  intros sw sh src tw th Hsw Hsh Hblack r c Hr Hc.
  cbn [drawImage nearest_canvas].
  assert (Hi := pixel_index_lt tw th r c Hr Hc).
  rewrite list_lookup_fmap, lookup_seq_lt by lia. cbn [fmap option_fmap option_map Nat.add].
  f_equal. unfold nearest_byte.
  replace (((r * tw + c) * 4) / 4)%nat with (r * tw + c)%nat
    by (symmetry; apply Nat.div_mul; lia).
  replace (((r * tw + c) * 4) mod 4)%nat with 0%nat
    by (symmetry; apply Nat.Div0.mod_mul).
  replace ((r * tw + c) / tw)%nat with r
    by (symmetry; rewrite Nat.add_comm, Nat.div_add by lia;
        rewrite Nat.div_small by exact Hc; reflexivity).
  replace ((r * tw + c) mod tw)%nat with c
    by (symmetry; rewrite Nat.add_comm, Nat.Div0.mod_add;
        apply Nat.mod_small, Hc).
  assert (Hsr : (r * sh / th < sh)%nat)
    by (apply Nat.Div0.div_lt_upper_bound; nia).
  assert (Hsc : (c * sw / tw < sw)%nat)
    by (apply Nat.Div0.div_lt_upper_bound; nia).
  specialize (Hblack _ _ Hsr Hsc).
  apply pixel_at_inv in Hblack as (Hred & _).
  rewrite Nat.add_0_r, Hred. reflexivity.
Qed.

End NearestCanvas.

(** C9.  On a canvas that keeps the contract of [getImageData]: a knot
    map whose entries are all zero, resampled to a positive width and
    height with both 2D contexts at hand, comes back as the target-sized
    matrix of zeros (the largest value is replaced by 1 before the
    division, and the second division is skipped); and every entry of a
    map [resizeKnotMap] returns lies in [0,1]. *)
Theorem resize_zero_map_and_unit_range (canvas : Canvas) (knotMap : KnotMap)
    (targetWidth targetHeight : nat) :
  canvas_contract canvas ->
  (all_zero knotMap ->
   (0 < targetWidth)%nat -> (0 < targetHeight)%nat ->
   source_context canvas = true -> target_context canvas = true ->
   canvas_keeps_black canvas ->
   ImageUtils.resizeKnotMap canvas knotMap targetWidth targetHeight
   = inr (replicate targetHeight (replicate targetWidth 0)))
  /\ (forall m,
        ImageUtils.resizeKnotMap canvas knotMap targetWidth targetHeight
        = inr m ->
        grid_dims targetHeight targetWidth m
        /\ forall r c v, grid_get r c m = Some v -> 0 <= v <= 1).
Proof.
  intros Hcontract. split.
  - intros Hzero Htw Hth Hsrc Htgt Hblack.
    unfold ImageUtils.resizeKnotMap.
    destruct (_ || _) eqn:Hempty; [reflexivity|].
    apply orb_false_elim in Hempty as [Hh Hw].
    apply Nat.eqb_neq in Hh, Hw.
    rewrite Hsrc, Htgt. cbn [negb].
    destruct (Nat.eqb_spec targetWidth 0) as [|_]; [lia|].
    destruct (Nat.eqb_spec targetHeight 0) as [|_]; [lia|]. cbn [orb].
    rewrite scan_max_zero by exact Hzero. cbn [Nat.eqb].
    set (sh := length knotMap) in *.
    set (sw := length (default [] (knotMap !! 0%nat))) in *.
    destruct (paint_source_inv knotMap sh sw 1) as [_ Hpainted].
    rewrite read_resized_zero.
    + replace (Js.gtb 0 0) with false by (symmetry; apply gtb_false; lra).
      reflexivity.
    + intros r c Hr Hc. apply Hblack; [lia|lia| |exact Hr|exact Hc].
      intros r1 c1 Hr1 Hc1.
      rewrite (Hpainted r1 c1 Hc1) by nia. cbv zeta.
      rewrite normVal_zero by exact Hzero. reflexivity.
  - intros m. unfold ImageUtils.resizeKnotMap.
    destruct (_ || _).
    { intros [= <-]. split; [apply grid_dims_replicate|].
      intros r c v Hv.
      destruct (grid_get_dims _ _ r c _ v
                  (grid_dims_replicate targetHeight targetWidth 0) Hv)
        as [Hr Hc].
      rewrite grid_get_replicate in Hv by assumption.
      injection Hv as <-. lra. }
    destruct (negb (source_context canvas)); [discriminate|].
    destruct (negb (target_context canvas)); [discriminate|].
    destruct (_ || _); [discriminate|].
    set (bytes := drawImage canvas _ _ _ _ _).
    assert (Hbytes : Forall is_byte bytes) by apply Hcontract.
    assert (Hread := read_resized_inv bytes targetHeight targetWidth Hbytes).
    destruct (ImageUtils.read_resized _ _ _ _) as [resized mx].
    destruct Hread as (Hd & Hmx & Hall). cbn [fst snd] in *.
    destruct (Js.gtb mx 0) eqn:Hgt; intros [= <-].
    + apply gtb_true in Hgt.
      destruct (renormalise_inv mx targetHeight targetWidth resized
                  Hgt Hd Hall) as [Hd' Hall'].
      split; [exact Hd'|]. intros r c v Hv.
      specialize (Hall' r c v Hv).
      destruct (grid_get_dims _ _ r c _ v Hd' Hv) as [Hr _].
      rewrite (passed_all targetHeight r c Hr) in Hall'. exact Hall'.
    + split; [exact Hd|]. intros r c v Hv.
      specialize (Hall r c v Hv). lra.
Qed.

Lemma resize_zero_map_and_unit_range_witness :
  ImageUtils.resizeKnotMap nearest_canvas [[0; 0]; [0; 0]]%nat 3 3
  = inr (replicate 3 (replicate 3 0)).
Proof.
  apply (proj1 (resize_zero_map_and_unit_range nearest_canvas
                  [[0; 0]; [0; 0]]%nat 3 3 nearest_canvas_contract)).
  - repeat constructor.
  - lia.
  - lia.
  - reflexivity.
  - reflexivity.
  - exact nearest_canvas_keeps_black.
Defined.

(** * Further properties of the simulator *)

Section RunBounds.
Import MathHelpers SubQGSimulator.
Variable engine : Js.Engine.
Variable random : nat -> R.



(** [updateWaves] takes two random numbers per cell. *)
Lemma updateWaves_draws (t0 : nat) (s : t) :
  draws (updateWaves engine random t0 s)
  = (draws s + 2 * (Z.to_nat (field_h (params s))
                    * Z.to_nat (field_w (params s))))%nat.
Proof.
  unfold updateWaves.
  set (h := Z.to_nat (field_h (params s))).
  set (w := Z.to_nat (field_w (params s))).
  assert (H : draws (for_range h (fun r => for_range w (fun c =>
                updateWaves_cell engine random
                  (Js.Math_sin engine
                     (omega_energy s * INR t0
                      / IZR (sim_duration (params s))))
                  (Js.Math_sin engine
                     (omega_phase s * INR t0
                      / IZR (sim_duration (params s))))
                  (linspace 0 (2 * PI) (field_w (params s)))
                  (linspace 0 (2 * PI) (field_h (params s))) r c)) s)
              = (draws s + 2 * (h * w + 0))%nat).
  { apply (for_range2_ind
             (fun r c x => draws x = (draws s + 2 * (r * w + c))%nat)).
    - lia.
    - intros r c x _ _ Hx. unfold updateWaves_cell.
      cbn [with_fields draws]. lia.
    - intros r x _ Hx. lia. }
  rewrite H. lia.
Qed.

Lemma step_draws (p : SubQGParams) (t0 : nat) (x : t * nat) :
  params (fst x) = p ->
  grid_dims (Z.to_nat (field_h p)) (Z.to_nat (field_w p))
            (knot_map (fst x)) ->
  draws (fst (step engine random t0 x))
  = (draws (fst x) + 2 * (Z.to_nat (field_h p) * Z.to_nat (field_w p)))%nat.
Proof.
  destruct x as [s total]. cbn [fst]. intros Hp Hd.
  rewrite step_eq. cbv zeta. cbn [fst].
  destruct (updateWaves_same_knots engine random t0 s) as (Hp1 & Hkm & _).
  assert (Hdraws := updateWaves_draws t0 s).
  set (s1 := updateWaves engine random t0 s) in *.
  assert (Hq : params s1 = p) by congruence. rewrite Hq.
  assert (Hd1 : grid_dims (Z.to_nat (field_h p)) (Z.to_nat (field_w p))
                          (knot_map s1))
    by (rewrite Hkm; exact Hd).
  destruct (detect_loops _ _ s1 Hd1) as (Hsame & _).
  destruct Hsame as (_ & _ & _ & _ & _ & _ & Hdr).
  rewrite Hdr, Hdraws, Hp. reflexivity.
Qed.

End RunBounds.



(** X2.  A run takes exactly [2 * H * W] numbers from the random source
    per time step: one for the energy and one for the phase of each cell. *)
Theorem run_draws_two_per_cell_per_step (engine : Js.Engine)
    (random : nat -> R) (s s0 : SubQGSimulator.t) :
  SubQGSimulator.constructor (SubQGSimulator.params s) = inr s0 ->
  exists s' result,
    SubQGSimulator.runSimulation engine random s = inr (s', result)
    /\ SubQGSimulator.draws s'
       = (SubQGSimulator.draws s
          + Z.to_nat (sim_duration (SubQGSimulator.params s))
            * (2 * (Z.to_nat (field_h (SubQGSimulator.params s))
                    * Z.to_nat (field_w (SubQGSimulator.params s)))))%nat.
Proof.
  intros Hctor. apply constructor_inr in Hctor as (_ & _ & Hgrid).
  unfold SubQGSimulator.runSimulation. rewrite Hgrid.
  set (p := SubQGSimulator.params s) in *.
  set (res := for_range _ _ _).
  assert (Hinv : run_inv p res
                 /\ SubQGSimulator.draws (fst res)
                    = (SubQGSimulator.draws s
                       + Z.to_nat (sim_duration p)
                         * (2 * (Z.to_nat (field_h p)
                                 * Z.to_nat (field_w p))))%nat).
  { apply (for_range_ind
             (fun n x => run_inv p x
                         /\ SubQGSimulator.draws (fst x)
                            = (SubQGSimulator.draws s
                               + n * (2 * (Z.to_nat (field_h p)
                                           * Z.to_nat (field_w p))))%nat)).
    - apply Array_grid_inr in Hgrid as ->. split.
      + unfold run_inv. cbn. split; [reflexivity|].
        split; [apply grid_dims_replicate|].
        split; [apply knot_sum_zero|reflexivity].
      + cbn. lia.
    - intros i x _ [Hinv Hdr]. split; [apply step_run_inv, Hinv|].
      destruct Hinv as (Hp & Hd & _).
      rewrite (step_draws engine random p i x Hp Hd), Hdr. lia. }
  clearbody res. destruct res as [s' total]. cbn [fst] in Hinv.
  exists s', (SubQGSimulator.knot_map s', total).
  split; [reflexivity|]. apply Hinv.
Qed.

Lemma run_draws_two_per_cell_per_step_witness :
  exists s' result,
    SubQGSimulator.runSimulation sample_engine always_zero
      (fresh_4x4 scenario_params)
    = inr (s', result)
    /\ SubQGSimulator.draws s'
       = (SubQGSimulator.draws (fresh_4x4 scenario_params)
          + Z.to_nat (sim_duration
                        (SubQGSimulator.params (fresh_4x4 scenario_params)))
            * (2 * (Z.to_nat (field_h (SubQGSimulator.params
                                         (fresh_4x4 scenario_params)))
                    * Z.to_nat (field_w (SubQGSimulator.params
                                           (fresh_4x4 scenario_params))))))%nat.
Proof.
  apply (run_draws_two_per_cell_per_step sample_engine always_zero
           (fresh_4x4 scenario_params) (fresh_4x4 scenario_params)).
  reflexivity.
Defined.

Section FieldRanges.
Import MathHelpers SubQGSimulator.
Variable engine : Js.Engine.
Variable random : nat -> R.

Lemma wave_value_range (s : t) (time_component u : R) (r c : nat) :
  0 <= noise_factor (params s) ->
  (r < Z.to_nat (field_h (params s)))%nat ->
  (c < Z.to_nat (field_w (params s)))%nat ->
  clamped_cell (params s) (wave_value engine s time_component r c u).
Proof.
  intros Hn Hr Hc. unfold wave_value.
  destruct (Z.eq_dec (field_w (params s)) 1%Z) as [Hw|Hw].
  { rewrite Hw in *. assert (c = 0%nat) by lia. subst c.
    rewrite linspace_single. cbn [nth Js.lift2 Js.lift clamped_cell].
    left. exact Hw. }
  rewrite (linspace_nth _ _ _ c Hw Hc).
  destruct (Z.eq_dec (field_h (params s)) 1%Z) as [Hh|Hh].
  { rewrite Hh in *. assert (r = 0%nat) by lia. subst r.
    rewrite linspace_single. cbn [nth Js.lift2 Js.lift clamped_cell].
    right. exact Hh. }
  rewrite (linspace_nth _ _ _ r Hh Hr).
  cbn [Js.lift2 Js.lift clamped_cell].
  split; [exact Hw|]. split; [exact Hh|]. apply clamp_bounds. lra.
Qed.

(** A knot is only ever seen where the energy exceeds the threshold. *)
Lemma knot_at_threshold (s : t) (r c : nat) (e : R) :
  knot_at s r c = true ->
  grid_get r c (energy_field s) = Some (Js.Num e) ->
  threshold_s (params s) < e.
Proof.
  unfold knot_at. intros Hknot He. rewrite He in Hknot.
  destruct (grid_get r c (phase_field s)) as [[ph|]|]; [|discriminate..].
  unfold detected_knot in Hknot.
  apply andb_true_iff in Hknot as [Hknot _].
  apply andb_true_iff in Hknot as [Hknot _].
  apply gtb_true, Hknot.
Qed.

(** The detection loops only append energies of knots to the log. *)
Lemma detect_loops_log (P : R -> Prop) (h w : nat) (s1 : t) :
  (forall r c e, (r < h)%nat -> (c < w)%nat ->
      grid_get r c (energy_field s1) = Some (Js.Num e) ->
      knot_at s1 r c = true -> P e) ->
  Forall P (detected_knot_base_values s1) ->
  Forall P (detected_knot_base_values
              (fst (for_range h (fun r =>
                      for_range w (fun c => detect_cell r c))
                      (s1, 0%nat)))).
Proof.
  intros Hcell Hlog.
  assert (H : same_fields s1
                (fst (for_range h (fun r =>
                        for_range w (fun c => detect_cell r c))
                        (s1, 0%nat)))
              /\ Forall P (detected_knot_base_values
                   (fst (for_range h (fun r =>
                           for_range w (fun c => detect_cell r c))
                           (s1, 0%nat))))); [|apply H].
  apply (for_range2_ind
           (fun _ _ x => same_fields s1 (fst x)
                         /\ Forall P (detected_knot_base_values (fst x)))).
  - split; [apply same_fields_refl|exact Hlog].
  - intros r c [s n] Hr Hc [Hsame Hall]. cbn [fst] in *.
    destruct (detect_cell_cases r c s n)
      as [(Hknot & e & He & ->)|(_ & ->)]; cbn [fst];
      [|split; assumption].
    split; [exact Hsame|].
    cbn [with_knots detected_knot_base_values].
    apply Forall_app. split; [exact Hall|].
    apply Forall_cons. split; [|constructor].
    apply (Hcell r c e Hr Hc).
    + destruct Hsame as (_ & <- & _). exact He.
    + rewrite <- (same_fields_knot_at s1 s r c Hsame). exact Hknot.
  - intros r x _ Hx. exact Hx.
Qed.

(** What the loop over the time steps keeps, beyond [run_inv]: the
    shape of the two fields, the range of the log, and, once a step has
    run, the range of the fields. *)
Lemma step_ranges (p : SubQGParams) (t0 n : nat) (x : t * nat) :
  0 <= noise_factor p ->
  let h := Z.to_nat (field_h p) in
  let w := Z.to_nat (field_w p) in
  let in_range v := clamped_cell p v in
  let logged e := threshold_s p < e <= 1 + noise_factor p in
  run_inv p x ->
  grid_dims h w (energy_field (fst x)) ->
  grid_dims h w (phase_field (fst x)) ->
  Forall logged (detected_knot_base_values (fst x)) ->
  let x' := step engine random t0 x in
  grid_dims h w (energy_field (fst x'))
  /\ grid_dims h w (phase_field (fst x'))
  /\ Forall logged (detected_knot_base_values (fst x'))
  /\ forall r c v,
       grid_get r c (energy_field (fst x')) = Some v
       \/ grid_get r c (phase_field (fst x')) = Some v ->
       in_range v.
Proof.
  intros Hnoise h w in_range logged Hinv Hde Hdp Hlog.
  destruct x as [s total]. destruct Hinv as (Hp & Hd & _).
  cbn [fst snd] in *. rewrite step_eq. cbv zeta. cbn [fst].
  destruct (updateWaves_same_knots engine random t0 s) as (Hp1 & Hkm & Hl1 & _).
  assert (Hwaves := updateWaves_cells engine random t0 s).
  cbv zeta in Hwaves. rewrite Hp in Hwaves. fold h w in Hwaves.
  specialize (Hwaves Hde Hdp).
  destruct Hwaves as (_ & Hde1 & Hdp1 & _ & Hcells).
  set (s1 := updateWaves engine random t0 s) in *.
  assert (Hq : params s1 = p) by congruence. rewrite Hq. fold h w.
  assert (Hrange : forall r c v,
            grid_get r c (energy_field s1) = Some v
            \/ grid_get r c (phase_field s1) = Some v -> in_range v).
  { intros r c v Hv.
    assert (Hrc : (r < h)%nat /\ (c < w)%nat)
      by (destruct Hv as [Hv|Hv];
          [exact (grid_get_dims h w r c _ v Hde1 Hv)
          |exact (grid_get_dims h w r c _ v Hdp1 Hv)]).
    destruct Hrc as [Hr Hc].
    destruct (Hcells r c Hr Hc (passed_all h r c Hr)) as [He Hph].
    unfold in_range. rewrite <- Hp.
    destruct Hv as [Hv|Hv]; [rewrite He in Hv|rewrite Hph in Hv];
      injection Hv as <-; apply wave_value_range; rewrite Hp;
      assumption. }
  assert (Hd1 : grid_dims h w (knot_map s1)) by (rewrite Hkm; exact Hd).
  destruct (detect_loops h w s1 Hd1) as (Hsame & _).
  assert (Hlog' := detect_loops_log logged h w s1).
  set (res := for_range h _ _) in *. clearbody res.
  destruct Hsame as (_ & He & Hph & _). rewrite He, Hph.
  split; [exact Hde1|]. split; [exact Hdp1|].
  split; [|exact Hrange].
  apply Hlog'; [|rewrite Hl1; exact Hlog].
  intros r c e Hr Hc Hget Hknot. split.
  - rewrite <- Hq. apply (knot_at_threshold s1 r c e Hknot Hget).
  - apply (Hrange r c (Js.Num e)). left. exact Hget.
Qed.

Lemma constructor_fields (p : SubQGParams) (s : t) :
  constructor p = inr s ->
  grid_dims (Z.to_nat (field_h p)) (Z.to_nat (field_w p)) (energy_field s)
  /\ grid_dims (Z.to_nat (field_h p)) (Z.to_nat (field_w p))
               (phase_field s).
Proof.
  unfold constructor.
  destruct (Js.Array_grid _ _ (Js.Num 0)) as [e|ef] eqn:Hef;
    [discriminate|].
  destruct (Js.Array_grid _ _ 0%nat) as [e|km]; [discriminate|].
  intros [= <-]. cbn [energy_field phase_field].
  apply Array_grid_inr in Hef as ->.
  split; apply grid_dims_replicate.
Qed.

Lemma runSimulation_ranges (p : SubQGParams) (s : t) :
  constructor p = inr s -> 0 <= noise_factor p ->
  exists s' total,
    runSimulation engine random s = inr (s', (knot_map s', total))
    /\ Forall (fun e => threshold_s p < e <= 1 + noise_factor p)
              (detected_knot_base_values s')
    /\ ((0 < sim_duration p)%Z ->
        forall r c v,
          grid_get r c (energy_field s') = Some v
          \/ grid_get r c (phase_field s') = Some v ->
          clamped_cell p v).
Proof.
  intros Hctor Hnoise.
  destruct (constructor_fields p s Hctor) as [Hde Hdp].
  apply constructor_inr in Hctor as (Hp & _ & Hgrid).
  rewrite <- Hp in Hgrid. unfold runSimulation. rewrite Hgrid, Hp.
  set (h := Z.to_nat (field_h p)) in *.
  set (w := Z.to_nat (field_w p)) in *.
  set (res := for_range _ _ _).
  assert (Hinv :
    run_inv p res
    /\ grid_dims h w (energy_field (fst res))
    /\ grid_dims h w (phase_field (fst res))
    /\ Forall (fun e => threshold_s p < e <= 1 + noise_factor p)
              (detected_knot_base_values (fst res))
    /\ ((0 < Z.to_nat (sim_duration p))%nat ->
        forall r c v,
          grid_get r c (energy_field (fst res)) = Some v
          \/ grid_get r c (phase_field (fst res)) = Some v ->
          clamped_cell p v)).
  { apply (for_range_ind
      (fun n x =>
         run_inv p x
         /\ grid_dims h w (energy_field (fst x))
         /\ grid_dims h w (phase_field (fst x))
         /\ Forall (fun e => threshold_s p < e <= 1 + noise_factor p)
                   (detected_knot_base_values (fst x))
         /\ ((0 < n)%nat ->
             forall r c v,
               grid_get r c (energy_field (fst x)) = Some v
               \/ grid_get r c (phase_field (fst x)) = Some v ->
               clamped_cell p v))).
    - cbn [fst snd with_knots energy_field phase_field
           detected_knot_base_values].
      split.
      { unfold run_inv. cbn. split; [exact Hp|].
        apply Array_grid_inr in Hgrid. rewrite Hp in Hgrid.
        rewrite Hgrid. split; [apply grid_dims_replicate|].
        split; [apply knot_sum_zero|reflexivity]. }
      split; [exact Hde|]. split; [exact Hdp|].
      split; [constructor|]. intros Hlt. lia.
    - intros i x _ (Hinv & He & Hph & Hlog & _).
      destruct (step_ranges p i i x Hnoise Hinv He Hph Hlog)
        as (He' & Hph' & Hlog' & Hrange').
      split; [apply step_run_inv, Hinv|].
      split; [exact He'|]. split; [exact Hph'|].
      split; [exact Hlog'|]. intros _. exact Hrange'. }
  clearbody res. destruct res as [s' total]. cbn [fst snd] in Hinv.
  destruct Hinv as (_ & _ & _ & Hlog & Hrange).
  exists s', total. split; [reflexivity|]. split; [exact Hlog|].
  intros Ht. apply Hrange. lia.
Qed.

End FieldRanges.

(** X3.  Every value a run logs as a knot event is an energy above the
    knot threshold and at most [1 + noise_factor] (the upper clamp of
    [updateWaves]), whenever the noise factor is not negative. *)
Theorem logged_energies_between_threshold_and_clamp (engine : Js.Engine)
    (random : nat -> R) (p : SubQGParams) (s : SubQGSimulator.t) :
  SubQGSimulator.constructor p = inr s -> 0 <= noise_factor p ->
  exists s' result,
    SubQGSimulator.runSimulation engine random s = inr (s', result)
    /\ Forall (fun e => threshold_s p < e <= 1 + noise_factor p)
              (SubQGSimulator.detected_knot_base_values s').
Proof.
  intros Hctor Hnoise.
  destruct (runSimulation_ranges engine random p s Hctor Hnoise)
    as (s' & total & Hrun & Hlog & _).
  exists s', (SubQGSimulator.knot_map s', total). split; assumption.
Qed.

Lemma logged_energies_between_threshold_and_clamp_witness :
  exists s' result,
    SubQGSimulator.runSimulation sample_engine always_zero
      (fresh_4x4 scenario_params)
    = inr (s', result)
    /\ Forall (fun e => threshold_s scenario_params < e
                        <= 1 + noise_factor scenario_params)
              (SubQGSimulator.detected_knot_base_values s').
Proof.
  apply (logged_energies_between_threshold_and_clamp sample_engine
           always_zero scenario_params (fresh_4x4 scenario_params)).
  - reflexivity.
  - cbn. lra.
Defined.

(** X4.  After a run of at least one step with a noise factor that is not
    negative, on a grid the constructor accepts and whose width is below
    [2^32], the cells of the energy field and of the phase field are all
    alike: on a grid with a single column or a single row every cell is
    [NaN] (the one point of [linspace] is [NaN]); on any other grid every
    cell is a number in [[0, 1 + noise_factor]]. *)
Theorem fields_clamped_or_nan_after_run (engine : Js.Engine)
    (random : nat -> R) (p : SubQGParams) (s : SubQGSimulator.t) :
  SubQGSimulator.constructor p = inr s ->
  (field_w p < Js.array_length_limit)%Z -> 0 <= noise_factor p ->
  (0 < sim_duration p)%Z ->
  exists s' result,
    SubQGSimulator.runSimulation engine random s = inr (s', result)
    /\ forall r c v,
         grid_get r c (SubQGSimulator.energy_field s') = Some v
         \/ grid_get r c (SubQGSimulator.phase_field s') = Some v ->
         match v with
         | Js.Num x =>
           field_w p <> 1%Z /\ field_h p <> 1%Z
           /\ 0 <= x <= 1 + noise_factor p
         | Js.NaN => field_w p = 1%Z \/ field_h p = 1%Z
         end.
Proof.
  intros Hctor _ Hnoise Ht.
  destruct (runSimulation_ranges engine random p s Hctor Hnoise)
    as (s' & total & Hrun & _ & Hrange).
  exists s', (SubQGSimulator.knot_map s', total).
  split; [exact Hrun|]. apply Hrange, Ht.
Qed.

Lemma fields_clamped_or_nan_after_run_witness :
  exists s' result,
    SubQGSimulator.runSimulation sample_engine always_zero
      (fresh_4x4 scenario_params)
    = inr (s', result)
    /\ forall r c v,
         grid_get r c (SubQGSimulator.energy_field s') = Some v
         \/ grid_get r c (SubQGSimulator.phase_field s') = Some v ->
         match v with
         | Js.Num x =>
           field_w scenario_params <> 1%Z /\ field_h scenario_params <> 1%Z
           /\ 0 <= x <= 1 + noise_factor scenario_params
         | Js.NaN =>
           field_w scenario_params = 1%Z \/ field_h scenario_params = 1%Z
         end.
Proof.
  apply (fields_clamped_or_nan_after_run sample_engine always_zero
           scenario_params (fresh_4x4 scenario_params)).
  - reflexivity.
  - unfold Js.array_length_limit. cbn. lia.
  - cbn. lra.
  - cbn. lia.
Defined.

(** ** Runs in which every cell registers a knot *)

Section DenseRuns.
Import MathHelpers SubQGSimulator.
Variable engine : Js.Engine.
Variable random : nat -> R.
Variable p : SubQGParams.
Hypothesis Hnoise : noise_factor p = 0.
Hypothesis Hthreshold : threshold_s p < 0.
Hypothesis Hcolumns : field_w p <> 1%Z.
Hypothesis Hrows : field_h p <> 1%Z.

Let h := Z.to_nat (field_h p).
Let w := Z.to_nat (field_w p).

(** Without noise the value of a cell does not depend on the number
    drawn for it. *)
Lemma wave_value_no_noise (s : t) (time_component u u' : R) (r c : nat) :
  params s = p ->
  wave_value engine s time_component r c u
  = wave_value engine s time_component r c u'.
Proof.
  intros Hp. unfold wave_value. rewrite Hp, Hnoise.
  rewrite !Rmult_0_r. reflexivity.
Qed.

Lemma dense_knot_at (t0 : nat) (s : t) (r c : nat) :
  params s = p -> omega_energy s = omega_phase s ->
  grid_dims h w (energy_field s) -> grid_dims h w (phase_field s) ->
  (r < h)%nat -> (c < w)%nat ->
  knot_at (updateWaves engine random t0 s) r c = true.
Proof.
  intros Hp Homega Hde Hdp Hr Hc.
  assert (Hwaves := updateWaves_cells engine random t0 s).
  cbv zeta in Hwaves. rewrite Hp in Hwaves. fold h w in Hwaves.
  destruct (Hwaves Hde Hdp) as ((Hp1 & _) & _ & _ & _ & Hcells).
  destruct (Hcells r c Hr Hc (passed_all h r c Hr)) as [He Hph].
  rewrite <- Homega in Hph.
  rewrite (wave_value_no_noise s _ _ (random (draws s + 2 * (r * w + c)))
             r c Hp) in Hph.
  assert (Hrange := wave_value_range engine s
            (Js.Math_sin engine
               (omega_energy s * INR t0 / IZR (sim_duration (params s))))
            (random (draws s + 2 * (r * w + c))) r c).
  specialize (Hrange ltac:(rewrite Hp, Hnoise; lra)
                     ltac:(rewrite Hp; exact Hr)
                     ltac:(rewrite Hp; exact Hc)).
  unfold knot_at. rewrite He, Hph.
  destruct (wave_value _ _ _ _ _ _) as [v|];
    cbn [clamped_cell] in Hrange; rewrite Hp in Hrange; [|tauto].
  destruct Hrange as (_ & _ & Hv).
  unfold detected_knot. rewrite Hp1, Hp, eqb_refl, andb_true_r.
  replace (Js.gtb v (threshold_s p)) with true; [reflexivity|].
  symmetry. apply gtb_true. lra.
Qed.

(** The detection loops over fields that show a knot at every cell. *)
Lemma detect_all (s1 : t) :
  (forall r c, (r < h)%nat -> (c < w)%nat -> knot_at s1 r c = true) ->
  snd (for_range h (fun r => for_range w (fun c => detect_cell r c))
                 (s1, 0%nat))
  = (h * w)%nat.
Proof.
  intros Hall.
  assert (H : same_fields s1
                (fst (for_range h (fun r =>
                        for_range w (fun c => detect_cell r c))
                        (s1, 0%nat)))
              /\ snd (for_range h (fun r =>
                        for_range w (fun c => detect_cell r c))
                        (s1, 0%nat))
                 = (h * w + 0)%nat); [|rewrite (proj2 H); lia].
  apply (for_range2_ind
           (fun r c x => same_fields s1 (fst x)
                         /\ snd x = (r * w + c)%nat)).
  - split; [apply same_fields_refl|reflexivity].
  - intros r c [s n] Hr Hc [Hsame Hn]. cbn [fst snd] in *.
    assert (Hknot : knot_at s r c = true).
    { rewrite (same_fields_knot_at s1 s r c Hsame). apply Hall; assumption. }
    destruct (detect_cell_cases r c s n)
      as [(_ & e & _ & ->)|(Hnone & _)]; [|congruence].
    cbn [fst snd]. split; [exact Hsame|lia].
  - intros r x _ [Hsame Hn]. split; [exact Hsame|lia].
Qed.

Lemma dense_step (t0 : nat) (x : t * nat) :
  run_inv p x ->
  omega_energy (fst x) = omega_phase (fst x) ->
  grid_dims h w (energy_field (fst x)) ->
  grid_dims h w (phase_field (fst x)) ->
  let x' := step engine random t0 x in
  omega_energy (fst x') = omega_phase (fst x')
  /\ grid_dims h w (energy_field (fst x'))
  /\ grid_dims h w (phase_field (fst x'))
  /\ snd x' = (snd x + h * w)%nat.
Proof.
  destruct x as [s total]. intros (Hp & Hd & _) Homega Hde Hdp.
  cbn [fst snd] in *. rewrite step_eq. cbv zeta. cbn [fst snd].
  assert (Hknots := fun r c => dense_knot_at t0 s r c Hp Homega Hde Hdp).
  destruct (updateWaves_same_knots engine random t0 s)
    as (Hp1 & Hkm & _ & _ & Hoe & Hop).
  assert (Hwaves := updateWaves_cells engine random t0 s).
  cbv zeta in Hwaves. rewrite Hp in Hwaves. fold h w in Hwaves.
  destruct (Hwaves Hde Hdp) as (_ & Hde1 & Hdp1 & _).
  set (s1 := updateWaves engine random t0 s) in *.
  assert (Hq : params s1 = p) by congruence. rewrite Hq. fold h w.
  assert (Hd1 : grid_dims h w (knot_map s1)) by (rewrite Hkm; exact Hd).
  destruct (detect_loops h w s1 Hd1) as (Hsame & _).
  rewrite (detect_all s1 Hknots).
  set (res := for_range h _ _) in *. clearbody res.
  destruct Hsame as (_ & He & Hph & _ & Hoe2 & Hop2 & _).
  rewrite He, Hph, Hoe2, Hop2.
  split; [congruence|]. split; [exact Hde1|]. split; [exact Hdp1|].
  reflexivity.
Qed.

(** A run on such a configuration registers a knot at every cell in
    every step. *)
Lemma dense_run (s : t) :
  constructor p = inr s -> f_energy p = f_phase p ->
  exists s',
    runSimulation engine random s
    = inr (s', (knot_map s', (Z.to_nat (sim_duration p) * (h * w))%nat)).
Proof.
  intros Hctor Hfreq.
  destruct (constructor_fields p s Hctor) as [Hde Hdp].
  assert (Homega : omega_energy s = omega_phase s).
  { unfold constructor in Hctor.
    destruct (Js.Array_grid _ _ (Js.Num 0)); [discriminate|].
    destruct (Js.Array_grid _ _ 0%nat); [discriminate|].
    injection Hctor as <-. cbn [omega_energy omega_phase].
    rewrite Hfreq. reflexivity. }
  apply constructor_inr in Hctor as (Hp & _ & Hgrid).
  rewrite <- Hp in Hgrid. unfold runSimulation. rewrite Hgrid, Hp.
  set (res := for_range _ _ _).
  assert (Hinv :
    run_inv p res
    /\ omega_energy (fst res) = omega_phase (fst res)
    /\ grid_dims h w (energy_field (fst res))
    /\ grid_dims h w (phase_field (fst res))
    /\ snd res = (Z.to_nat (sim_duration p) * (h * w))%nat).
  { apply (for_range_ind
      (fun n x =>
         run_inv p x
         /\ omega_energy (fst x) = omega_phase (fst x)
         /\ grid_dims h w (energy_field (fst x))
         /\ grid_dims h w (phase_field (fst x))
         /\ snd x = (n * (h * w))%nat)).
    - cbn [fst snd with_knots energy_field phase_field omega_energy
           omega_phase].
      split.
      { unfold run_inv. cbn. split; [exact Hp|].
        apply Array_grid_inr in Hgrid. rewrite Hp in Hgrid.
        rewrite Hgrid. split; [apply grid_dims_replicate|].
        split; [apply knot_sum_zero|reflexivity]. }
      split; [exact Homega|]. split; [exact Hde|]. split; [exact Hdp|].
      reflexivity.
    - intros i x _ (Hinv & Ho & He & Hph & Hn).
      destruct (dense_step i x Hinv Ho He Hph) as (Ho' & He' & Hph' & Hn').
      split; [apply step_run_inv, Hinv|].
      split; [exact Ho'|]. split; [exact He'|]. split; [exact Hph'|].
      rewrite Hn', Hn. lia. }
  clearbody res. destruct res as [s' total]. cbn [fst snd] in Hinv.
  destruct Hinv as (_ & _ & _ & _ & ->).
  exists s'. reflexivity.
Qed.

End DenseRuns.

Lemma run_total_agrees_until_analysis_throws_witness :
  exists s s' km,
    SubQGSimulator.constructor dense_params = inr s
    /\ SubQGSimulator.runSimulation sample_engine always_zero s
       = inr (s', (km, Z.to_nat 1638400))
    /\ Z.to_nat 1638400 = knot_sum km
    /\ SubQGSimulator.analyzeRiemannProjection sample_engine s'
       = inl Js.RangeError.
Proof.
  assert (Hok : ~ grid_refused (field_h dense_params) (field_w dense_params)).
  { unfold grid_refused, array_length_ok, Js.array_length_limit. cbn. lia. }
  destruct (constructor_succeeds dense_params Hok) as (s & Hctor & Hp).
  destruct (run_total_agrees_until_analysis_throws sample_engine
              always_zero s s)
    as (s' & km & total & Hrun & _ & Hsum & _ & Hthrows & _).
  { rewrite Hp. exact Hctor. }
  { rewrite Hp. unfold Js.array_length_limit. cbn. lia. }
  destruct (dense_run sample_engine always_zero dense_params) with (s := s)
    as (s'' & Hdense);
    [reflexivity|cbn; lra|discriminate|discriminate|exact Hctor
    |reflexivity|].
  rewrite Hrun in Hdense.
  assert (Htotal : total = Z.to_nat 1638400).
  { apply (f_equal (fun x : Js.Error + (SubQGSimulator.t * (KnotMap * nat)) =>
                      match x with
                      | inr (_, (_, n)) => n
                      | inl _ => 0%nat
                      end)) in Hdense.
    cbv beta iota in Hdense. rewrite Hdense.
    cbn [dense_params sim_duration field_h field_w].
    rewrite <- !Z2Nat.inj_mul by lia. f_equal. }
  rewrite Htotal in Hrun, Hsum, Hthrows. clear Hdense Htotal.
  exists s, s', km. split; [exact Hctor|]. split; [exact Hrun|].
  split; [exact Hsum|].
  apply Hthrows. unfold too_many_arguments, sample_engine.
  cbn [Js.max_arguments]. lia.
Defined.

(** * Further properties of the statistics helpers *)

Section Linspace.
Import MathHelpers.

Lemma INR_to_nat (z : Z) : (0 <= z)%Z -> INR (Z.to_nat z) = IZR z.
Proof. intros Hz. rewrite INR_IZR_INZ, Z2Nat.id by exact Hz. reflexivity. Qed.

End Linspace.

(** X5.  [linspace(start, stop, num)] with [num >= 2] has [num] elements,
    none of them [NaN], begins at [start], ends at [stop] (the end point
    is included) and has the constant spacing [(stop - start) / (num - 1)];
    with [num = 1] it is the single element [NaN]; with [num <= 0] it is
    empty. *)
Theorem linspace_includes_both_ends (start stop : R) (num : Z) :
  ((2 <= num)%Z ->
   length (MathHelpers.linspace start stop num) = Z.to_nat num
   /\ Forall (fun v => v <> Js.NaN) (MathHelpers.linspace start stop num)
   /\ head (MathHelpers.linspace start stop num) = Some (Js.Num start)
   /\ last (MathHelpers.linspace start stop num) = Some (Js.Num stop)
   /\ forall i x y,
        MathHelpers.linspace start stop num !! i = Some (Js.Num x) ->
        MathHelpers.linspace start stop num !! S i = Some (Js.Num y) ->
        y - x = (stop - start) / (IZR num - 1))
  /\ (num = 1%Z -> MathHelpers.linspace start stop num = [Js.NaN])
  /\ ((num <= 0)%Z -> MathHelpers.linspace start stop num = []).
Proof.
  split; [|split].
  - intros Hnum. unfold MathHelpers.linspace.
    destruct (Z.eqb_spec num 1) as [|_]; [lia|].
    set (step := (stop - start) / (IZR num - 1)).
    set (n := Z.to_nat num).
    assert (Hn : (2 <= n)%nat) by (unfold n; lia).
    assert (Hnz : IZR num - 1 <> 0).
    { apply IZR_le in Hnum. lra. }
    split; [rewrite length_map, length_seq; reflexivity|].
    split.
    { apply Forall_forall. intros v Hv.
      apply list_elem_of_In, in_map_iff in Hv as (j & <- & _).
      discriminate. }
    split.
    { destruct n as [|n]; [lia|]. cbn [seq map head INR]. do 2 f_equal.
      lra. }
    split.
    { rewrite last_lookup, length_map, length_seq.
      rewrite list_lookup_fmap, lookup_seq_lt by lia.
      cbn [fmap option_fmap option_map Nat.add]. do 2 f_equal.
      replace (INR (Nat.pred n)) with (IZR num - 1).
      - unfold step. field. exact Hnz.
      - replace (Nat.pred n) with (n - 1)%nat by lia.
        rewrite minus_INR by lia. unfold n.
        rewrite INR_to_nat by lia. cbn [INR]. reflexivity. }
    intros i x y Hx Hy.
    rewrite list_lookup_fmap in Hx, Hy.
    destruct (seq 0 n !! i) as [j|] eqn:Hj; [|discriminate].
    destruct (seq 0 n !! S i) as [j'|] eqn:Hj'; [|discriminate].
    apply lookup_seq in Hj as [-> _]. apply lookup_seq in Hj' as [-> _].
    cbn in Hx, Hy. injection Hx as <-. injection Hy as <-.
    destruct i; cbn [INR Nat.add]; lra.
  - intros ->. reflexivity.
  - intros Hnum. unfold MathHelpers.linspace.
    destruct (Z.eqb_spec num 1) as [|_]; [lia|].
    replace (Z.to_nat num) with 0%nat by lia. reflexivity.
Qed.

Section Sorting.
Import MathHelpers.

#[local] Instance Rle_transitive : Transitive Rle.
Proof. intros x y z. apply Rle_trans. Qed.

#[local] Instance Rle_antisymm : AntiSymm eq Rle.
Proof. intros x y. apply Rle_antisym. Qed.

Lemma insert_sorted_Permutation (x : R) (l : list R) :
  Permutation (insert_sorted x l) (x :: l).
Proof.
  induction l as [|y l IH]; cbn [insert_sorted]; [reflexivity|].
  destruct (Rle_dec x y); [reflexivity|].
  rewrite IH. apply perm_swap.
Qed.

Lemma insert_sorted_Sorted (x : R) (l : list R) :
  Sorted Rle l -> Sorted Rle (insert_sorted x l).
Proof.
  induction l as [|y l IH]; intros Hs; cbn [insert_sorted].
  - repeat constructor.
  - destruct (Rle_dec x y) as [Hle|Hgt].
    + constructor; [exact Hs|]. constructor. exact Hle.
    + apply Sorted_inv in Hs as [Hs Hhd].
      constructor; [apply IH, Hs|].
      destruct l as [|z l]; cbn [insert_sorted].
      * constructor. lra.
      * destruct (Rle_dec x z); constructor; [lra|].
        apply HdRel_inv in Hhd. exact Hhd.
Qed.

Lemma sort_ascending_Permutation (l : list R) :
  Permutation (sort_ascending l) l.
Proof.
  unfold sort_ascending. induction l as [|x l IH]; cbn [fold_right];
    [reflexivity|].
  rewrite insert_sorted_Permutation, IH. reflexivity.
Qed.

Lemma sort_ascending_Sorted (l : list R) : Sorted Rle (sort_ascending l).
Proof.
  unfold sort_ascending. induction l as [|x l IH]; cbn [fold_right].
  - constructor.
  - apply insert_sorted_Sorted, IH.
Qed.

Lemma sort_ascending_perm_eq (l l' : list R) :
  Permutation l l' -> sort_ascending l = sort_ascending l'.
Proof.
  intros Hperm. apply (Sorted_unique Rle).
  - apply sort_ascending_Sorted.
  - apply sort_ascending_Sorted.
  - rewrite !sort_ascending_Permutation. exact Hperm.
Qed.

Lemma total_Permutation (l l' : list R) :
  Permutation l l' -> Spec.total l = Spec.total l'.
Proof.
  induction 1 as [|x l l' _ IH|x y l|l l' l'' _ IH1 _ IH2];
    cbn [Spec.total]; lra.
Qed.

Lemma nth_Forall (P : R -> Prop) (l : list R) (i : nat) :
  Forall P l -> (i < length l)%nat -> P (nth i l 0).
Proof.
  intros Hall Hi. rewrite Forall_forall in Hall. apply Hall.
  apply list_elem_of_In, nth_In, Hi.
Qed.

End Sorting.

(** X6.  The copy that [calculateMedian] sorts is an ascending
    rearrangement of the array: the same elements, each as often, in
    non-decreasing order. *)
Theorem sort_ascending_sorted_permutation (arr : list R) :
  Sorted Rle (MathHelpers.sort_ascending arr)
  /\ Permutation (MathHelpers.sort_ascending arr) arr.
Proof.
  split; [apply sort_ascending_Sorted|apply sort_ascending_Permutation].
Qed.

(** X7.  [calculateMedian] does not depend on the order of the array. *)
Theorem median_order_independent (arr arr' : list R) :
  Permutation arr arr' ->
  MathHelpers.calculateMedian arr = MathHelpers.calculateMedian arr'.
Proof.
  intros Hperm. unfold MathHelpers.calculateMedian.
  rewrite (Permutation_length Hperm).
  rewrite (sort_ascending_perm_eq arr arr' Hperm). reflexivity.
Qed.

Lemma median_order_independent_witness :
  MathHelpers.calculateMedian [3; 1; 2] = MathHelpers.calculateMedian [1; 2; 3].
Proof.
  apply (median_order_independent [3; 1; 2] [1; 2; 3]).
  apply (perm_trans (l' := [1; 3; 2])); [apply perm_swap|].
  apply perm_skip, perm_swap.
Defined.

(** X8.  On an array that is not empty, [calculateMedian] lies within
    any bounds that hold for every element; on the empty array it
    returns 0.  (The half-sum of the two middle elements is exact here;
    that of doubles stays within the bounds as long as the sum does not
    overflow.) *)
Theorem median_within_bounds (arr : list R) (lo hi : R) :
  (arr <> [] -> Forall (fun x => lo <= x <= hi) arr ->
   lo <= MathHelpers.calculateMedian arr <= hi)
  /\ MathHelpers.calculateMedian [] = 0.
Proof.
  split; [|reflexivity].
  intros Hne Hall.
  unfold MathHelpers.calculateMedian.
  destruct (Nat.eqb_spec (length arr) 0) as [Hz|Hnz].
  { destruct arr; [congruence|discriminate]. }
  cbv zeta.
  assert (Hlen : length (MathHelpers.sort_ascending arr) = length arr)
    by (apply Permutation_length, sort_ascending_Permutation).
  assert (Hsorted : Forall (fun x => lo <= x <= hi)
                           (MathHelpers.sort_ascending arr)).
  { rewrite sort_ascending_Permutation. exact Hall. }
  rewrite Hlen.
  assert (Hmid : (length arr / 2 < length arr)%nat)
    by (apply Nat.div_lt; lia).
  destruct (Nat.eqb_spec (length arr mod 2) 0) as [Heven|Hodd];
    cbn [negb].
  - assert (Hge : (2 <= length arr)%nat).
    { destruct (length arr) as [|[|n]]; [lia|cbn in Heven; lia|lia]. }
    assert (Hhalf : (1 <= length arr / 2)%nat)
      by (apply Nat.div_le_lower_bound; lia).
    assert (H1 := nth_Forall _ _ (length arr / 2 - 1) Hsorted
                    ltac:(rewrite Hlen; lia)).
    assert (H2 := nth_Forall _ _ (length arr / 2) Hsorted
                    ltac:(rewrite Hlen; lia)).
    cbv beta in H1, H2. lra.
  - exact (nth_Forall _ _ (length arr / 2) Hsorted
             ltac:(rewrite Hlen; lia)).
Qed.

Lemma median_within_bounds_witness :
  1 <= MathHelpers.calculateMedian [1; 4; 2; 3] <= 4.
Proof.
  apply (proj1 (median_within_bounds [1; 4; 2; 3] 1 4)).
  - discriminate.
  - repeat (apply Forall_cons; split; [lra|]). constructor.
Defined.
(** * Further properties of the projection analyser *)

Section Orderless.
Import MathHelpers SubQGSimulator.

Lemma calculateMean_Permutation (l l' : list R) :
Permutation l l' -> calculateMean l = calculateMean l'.
Proof.
intros Hperm. unfold calculateMean.
rewrite (Permutation_length Hperm).
rewrite !(reduce_sum (fun v => v)), !map_id.
rewrite (total_Permutation l l' Hperm). reflexivity.
Qed.

Lemma calculateStdDev_Permutation (l l' : list R) :
Permutation l l' -> calculateStdDev l = calculateStdDev l'.
Proof.
intros Hperm. unfold calculateStdDev.
rewrite (Permutation_length Hperm).
rewrite (calculateMean_Permutation l l' Hperm).
rewrite !(reduce_sum (fun v => (v - calculateMean l') ^ 2)).
rewrite (total_Permutation _ _ (Permutation_map _ Hperm)).
reflexivity.
Qed.

(** The largest element is an element, and no element is larger. *)
Lemma maximum_spec (x : R) (l : list R) :
In (Spec.maximum x l) (x :: l)
/\ Forall (fun y => y <= Spec.maximum x l) (x :: l).
Proof.
revert x. induction l as [|y l IH]; intros x; cbn [Spec.maximum].
- split; [left; reflexivity|].
  apply Forall_cons. split; [lra|constructor].
- destruct (IH y) as [Hin Hall]. unfold Rmax.
  destruct (Rle_dec x (Spec.maximum y l)) as [Hle|Hgt].
  + split; [right; exact Hin|].
    apply Forall_cons. split; [exact Hle|exact Hall].
  + split; [left; reflexivity|].
    apply Forall_cons. split; [lra|].
    eapply Forall_impl; [exact Hall|]. cbv beta. intros z Hz. lra.
Qed.

Lemma minimum_spec (x : R) (l : list R) :
In (Spec.minimum x l) (x :: l)
/\ Forall (fun y => Spec.minimum x l <= y) (x :: l).
Proof.
revert x. induction l as [|y l IH]; intros x; cbn [Spec.minimum].
- split; [left; reflexivity|].
  apply Forall_cons. split; [lra|constructor].
- destruct (IH y) as [Hin Hall]. unfold Rmin.
  destruct (Rle_dec x (Spec.minimum y l)) as [Hle|Hgt].
  + split; [left; reflexivity|].
    apply Forall_cons. split; [lra|].
    eapply Forall_impl; [exact Hall|]. cbv beta. intros z Hz. lra.
  + split; [right; exact Hin|].
    apply Forall_cons. split; [lra|exact Hall].
Qed.

Lemma range_Permutation (l l' : list R) :
Permutation l l' -> Spec.range l = Spec.range l'.
Proof.
intros Hperm. destruct l as [|x l], l' as [|x' l'].
- reflexivity.
- apply Permutation_nil in Hperm. discriminate.
- symmetry in Hperm. apply Permutation_nil in Hperm. discriminate.
- unfold Spec.range.
  destruct (maximum_spec x l) as [Hin Hall].
  destruct (maximum_spec x' l') as [Hin' Hall'].
  destruct (minimum_spec x l) as [Hmin Hlow].
  destruct (minimum_spec x' l') as [Hmin' Hlow'].
  rewrite Forall_forall in Hall, Hall', Hlow, Hlow'.
  assert (H1 := Hall' _ (proj2 (list_elem_of_In _ _)
                    (Permutation_in _ Hperm Hin))).
  assert (H2 := Hall _ (proj2 (list_elem_of_In _ _)
                    (Permutation_in _ (Permutation_sym Hperm) Hin'))).
  assert (H3 := Hlow' _ (proj2 (list_elem_of_In _ _)
                    (Permutation_in _ Hperm Hmin))).
  assert (H4 := Hlow _ (proj2 (list_elem_of_In _ _)
                    (Permutation_in _ (Permutation_sym Hperm) Hmin'))).
  cbv beta in H1, H2, H3, H4. lra.
Qed.

Lemma filter_Permutation (f : R -> bool) (l l' : list R) :
Permutation l l' -> Permutation (List.filter f l) (List.filter f l').
Proof.
induction 1 as [|x l l' _ IH|x y l|l l' l'' _ IH1 _ IH2];
  cbn [List.filter].
- reflexivity.
- destruct (f x); [apply perm_skip|]; exact IH.
- destruct (f x), (f y); try reflexivity. apply perm_swap.
- etransitivity; eassumption.
Qed.

End Orderless.

Lemma calculateMedian_Permutation (l l' : list R) :
  Permutation l l' ->
  MathHelpers.calculateMedian l = MathHelpers.calculateMedian l'.
Proof.
  intros Hperm. unfold MathHelpers.calculateMedian.
  rewrite (Permutation_length Hperm).
  rewrite (sort_ascending_perm_eq l l' Hperm). reflexivity.
Qed.

Lemma analysed_Permutation (log log' : list R) (c : R) :
  Permutation log log' -> analysed log c = analysed log' c.
Proof.
  intros Hperm. unfold analysed, projected_values.
  assert (Hmap : Permutation (map (fun val => val * 5.0 * c) log)
                             (map (fun val => val * 5.0 * c) log'))
    by (apply Permutation_map, Hperm).
  rewrite (calculateMean_Permutation _ _ Hmap).
  rewrite (calculateMedian_Permutation _ _ Hmap).
  rewrite (calculateStdDev_Permutation _ _ Hmap).
  rewrite (range_Permutation _ _ Hmap).
  rewrite (Permutation_length (filter_Permutation _ _ _ Hmap)).
  rewrite !length_map, (Permutation_length Hperm). reflexivity.
Qed.

(** X9.  The analysis does not depend on the order of the log: two logs
    with the same values, each as often, give the same result, the same
    statistics (mean, median, deviation, count near the target, total and
    harmony score; the sums being exact) or the same [RangeError]. *)
Theorem projection_order_independent (engine : Js.Engine)
    (log log' : list R) (c : R) :
  Permutation log log' ->
  SubQGSimulator.riemann_projection engine log c
  = SubQGSimulator.riemann_projection engine log' c.
Proof.
  intros Hperm.
  assert (Hlen := Permutation_length Hperm).
  destruct (log_too_long_dec engine log) as [Hlong|Hfits].
  - rewrite !riemann_projection_throws; [reflexivity| |exact Hlong].
    unfold log_too_long in *. rewrite <- Hlen. exact Hlong.
  - destruct log as [|x log].
    { apply Permutation_nil in Hperm. subst log'. reflexivity. }
    assert (Hne : log' <> []).
    { intros ->. symmetry in Hperm. apply Permutation_nil in Hperm.
      discriminate. }
    rewrite !riemann_projection_returns;
      [|exact Hne| |discriminate|exact Hfits].
    + f_equal. apply analysed_Permutation, Hperm.
    + unfold log_too_long in *. rewrite <- Hlen. exact Hfits.
Qed.

Lemma projection_order_independent_witness :
  SubQGSimulator.riemann_projection sample_engine [0.2; 0.1] 0.10
  = SubQGSimulator.riemann_projection sample_engine [0.1; 0.2] 0.10.
Proof.
  apply (projection_order_independent sample_engine [0.2; 0.1] [0.1; 0.2]
           0.10).
  apply perm_swap.
Defined.

Section Harmony.
Import MathHelpers SubQGSimulator.

Lemma calculateMean_scaled (k : R) (l : list R) :
calculateMean (map (fun val => val * k) l) = calculateMean l * k.
Proof.
unfold calculateMean. rewrite length_map.
destruct (Nat.eqb (length l) 0); [lra|].
rewrite !(reduce_sum (fun v => v)), !map_id.
replace (Spec.total (map (fun val => val * k) l))
  with (Spec.total l * k).
- unfold Rdiv. lra.
- induction l as [|x l IH]; cbn [map Spec.total]; [lra|].
  rewrite <- IH. lra.
Qed.

End Harmony.

(** X10.  For a log that is not empty and that the engine can spread,
    the analysis returns a record whose mean is the mean of the raw
    energies scaled by the prescale factor 5 and by [c] (the arithmetic
    being exact), whose prescale factor is 5, whose total is the length of
    the log, and whose count of values near the target never exceeds the
    total. *)
Theorem projection_mean_scales_and_count_bounded (engine : Js.Engine)
    (log : list R) (c : R) :
  log <> [] -> ~ log_too_long engine log ->
  exists stats,
    SubQGSimulator.riemann_projection engine log c = inr stats
    /\ mean_re_s stats = MathHelpers.calculateMean log * 5 * c
    /\ internal_prescale_factor_used stats = 5
    /\ (count_near_0_5 stats <= total_projected_knots stats)%nat
    /\ total_projected_knots stats = length log.
Proof.
  intros Hlog Hfits. exists (analysed log c).
  split; [apply riemann_projection_returns; assumption|].
  unfold analysed, projected_values.
  cbn [mean_re_s internal_prescale_factor_used count_near_0_5
       total_projected_knots].
  split.
  - rewrite (map_ext (fun val => val * 5.0 * c)
                     (fun val => val * (5 * c))) by (intros; lra).
    rewrite calculateMean_scaled. lra.
  - split; [reflexivity|]. split; [apply filter_length_le|].
    apply length_map.
Qed.

Lemma projection_mean_scales_and_count_bounded_witness :
  exists stats,
    SubQGSimulator.riemann_projection sample_engine [0.1; 0.2] 0.10
    = inr stats
    /\ mean_re_s stats = MathHelpers.calculateMean [0.1; 0.2] * 5 * 0.10
    /\ internal_prescale_factor_used stats = 5
    /\ (count_near_0_5 stats <= total_projected_knots stats)%nat
    /\ total_projected_knots stats = 2%nat.
Proof.
  apply (projection_mean_scales_and_count_bounded sample_engine
           [0.1; 0.2] 0.10).
  - discriminate.
  - unfold log_too_long, too_many_arguments, sample_engine.
    cbn [Js.max_arguments length]. lia.
Defined.

Section ConstantLogs.
Import MathHelpers.

Lemma total_constant (v : R) (l : list R) :
Forall (fun x => x = v) l -> Spec.total l = INR (length l) * v.
Proof.
induction 1 as [|x l -> _ IH]; [cbn; lra|].
cbn [Spec.total length]. rewrite IH, S_INR. lra.
Qed.

Lemma mean_constant (v : R) (l : list R) :
l <> [] -> Forall (fun x => x = v) l -> Spec.mean l = v.
Proof.
intros Hl Hall. unfold Spec.mean. rewrite (total_constant v l Hall).
assert (0 < INR (length l)).
{ apply lt_0_INR. destruct l; [congruence|cbn; lia]. }
field. lra.
Qed.

Lemma range_constant (v : R) (l : list R) :
Forall (fun x => x = v) l -> Spec.range l = 0.
Proof.
intros Hall. destruct l as [|x l]; [reflexivity|].
unfold Spec.range.
destruct (maximum_spec x l) as [Hmax _].
destruct (minimum_spec x l) as [Hmin _].
rewrite Forall_forall in Hall.
rewrite (Hall _ (proj2 (list_elem_of_In _ _) Hmax)).
rewrite (Hall _ (proj2 (list_elem_of_In _ _) Hmin)). lra.
Qed.

End ConstantLogs.

(** X11.  On a log whose values are all equal (a single value included)
    and that the engine can spread, the range is 0, so the deviation falls
    back to 1, the concentration term vanishes and the harmony score is
    0.6 times the proximity term of the common projected value, hence at
    most 0.6 (the arithmetic being exact). *)
Theorem harmony_of_constant_log_capped (engine : Js.Engine)
    (log : list R) (v c : R) :
  log <> [] -> Forall (fun x => x = v) log -> ~ log_too_long engine log ->
  exists stats,
    SubQGSimulator.riemann_projection engine log c = inr stats
    /\ std_dev_re_s stats = 1
    /\ harmony_score stats
       = 0.6 * (1 - Rmin 1 (Rabs (v * 5 * c - 0.5) / 0.25))
    /\ harmony_score stats <= 0.6.
Proof.
  intros Hlog Hall Hfits. exists (analysed log c).
  split; [apply riemann_projection_returns; assumption|].
  assert (Hproj : Forall (fun x => x = v * 5 * c) (projected_values log c)).
  { unfold projected_values. apply Forall_forall. intros y Hy.
    apply list_elem_of_In, in_map_iff in Hy as (x & <- & Hx).
    rewrite Forall_forall in Hall.
    rewrite (Hall x (proj2 (list_elem_of_In _ _) Hx)). lra. }
  assert (Hne : projected_values log c <> []).
  { unfold projected_values. destruct log; [congruence|discriminate]. }
  assert (Hsd : std_dev_re_s (analysed log c) = 1).
  { rewrite analysed_std_dev. unfold Spec.deviation_or_one.
    rewrite (range_constant _ _ Hproj).
    destruct (lt_dec 1 _); [|reflexivity].
    destruct (Rlt_dec 0 0); [lra|reflexivity]. }
  destruct (analysed_harmony log c) as [Hscore _].
  rewrite Hscore, Hsd, analysed_mean by exact Hlog.
  rewrite (mean_constant _ _ Hne Hproj).
  split; [reflexivity|].
  unfold Spec.harmony.
  set (proximity := 1 - Rmin 1 (Rabs (v * 5 * c - 0.5) / 0.25)).
  assert (Hprox : 0 <= proximity <= 1).
  { unfold proximity.
    assert (0 <= Rabs (v * 5 * c - 0.5) / 0.25).
    { apply Rmult_le_pos; [apply Rabs_pos|lra]. }
    unfold Rmin. destruct Rle_dec; lra. }
  assert (Hmin : Rmin 1 (1 / 0.15) = 1)
    by (unfold Rmin; destruct Rle_dec; lra).
  rewrite Hmin. unfold Spec.clamped.
  repeat destruct Rlt_dec; lra.
Qed.

Lemma harmony_of_constant_log_capped_witness :
  exists stats,
    SubQGSimulator.riemann_projection sample_engine [0.1; 0.1; 0.1] 1.0
    = inr stats
    /\ std_dev_re_s stats = 1
    /\ harmony_score stats
       = 0.6 * (1 - Rmin 1 (Rabs (0.1 * 5 * 1.0 - 0.5) / 0.25))
    /\ harmony_score stats <= 0.6.
Proof.
  apply (harmony_of_constant_log_capped sample_engine [0.1; 0.1; 0.1]
           0.1 1.0).
  - discriminate.
  - repeat (apply Forall_cons; split; [reflexivity|]). constructor.
  - unfold log_too_long, too_many_arguments, sample_engine.
    cbn [Js.max_arguments length]. lia.
Defined.


(** * The colour profile *)

Section ColorProfile.
Import Colors.














Lemma assign_activations_length (index : nat) (colors : list MainColor)
    (acts : list R) :
  length (assign_activations index colors acts) = length acts.
Proof.
  revert index acts. induction colors as [|color colors IH];
    intros index acts; cbn [assign_activations]; [reflexivity|].
  rewrite IH, length_insert. reflexivity.
Qed.

Lemma assign_activations_lookup (index : nat) (colors : list MainColor)
    (acts : list R) (i : nat) :
  (index + length colors <= length acts)%nat ->
  assign_activations index colors acts !! i
  = if Nat.leb index i && Nat.ltb i (index + length colors)
    then activation <$> colors !! (i - index)%nat
    else acts !! i.
Proof.
  revert index acts. induction colors as [|color colors IH];
    intros index acts Hlen; cbn [assign_activations length] in *.
  - destruct (Nat.leb_spec index i), (Nat.ltb_spec i (index + 0));
      cbn [andb]; try reflexivity; lia.
  - rewrite IH by (rewrite length_insert; lia).
    destruct (Nat.leb_spec (S index) i), (Nat.leb_spec index i),
      (Nat.ltb_spec i (S index + length colors)),
      (Nat.ltb_spec i (index + S (length colors)));
      cbn [andb]; try lia.
    + replace (i - index)%nat with (S (i - S index)) by lia. reflexivity.
    + apply list_lookup_insert_ne. lia.
    + assert (i = index) by lia. subst i.
      rewrite Nat.sub_diag. cbn. apply list_lookup_insert_eq. lia.
    + apply list_lookup_insert_ne. lia.
Qed.

End ColorProfile.


(** X13.  [createCategoryActivations] returns one activation per category
    label, six of them: that of the [i]-th colour where there is one, and
    the neutral 0.5 elsewhere; colours past the sixth are ignored. *)
Theorem createCategoryActivations_entries
    (mainColors : list Colors.MainColor) :
  length (Colors.createCategoryActivations mainColors) = 6%nat
  /\ forall i, (i < 6)%nat ->
       Colors.createCategoryActivations mainColors !! i
       = Some (match mainColors !! i with
               | Some color => Colors.activation color
               | None => 0.5
               end).
Proof.
  unfold Colors.createCategoryActivations.
  change (length CATEGORY_LABELS_ORDERED) with 6%nat. cbv zeta.
  split.
  - rewrite assign_activations_length, length_replicate. reflexivity.
  - intros i Hi.
    rewrite assign_activations_lookup
      by (rewrite length_take, length_replicate; lia).
    rewrite length_take. cbn [Nat.leb Nat.add andb]. rewrite Nat.sub_0_r.
    destruct (Nat.ltb_spec i (6 `min` length mainColors)) as [Hlt|Hge].
    + rewrite lookup_take_lt by lia.
      destruct (lookup_lt_is_Some_2 mainColors i) as [color Hc]; [lia|].
      rewrite Hc. reflexivity.
    + rewrite lookup_replicate_2 by exact Hi.
      rewrite lookup_ge_None_2 by lia. reflexivity.
Qed.

(** * Further properties of the pixel transform *)

Section Mods.
Import MathHelpers ImageUtils.

Lemma fold_activations_sum_product (acts : list R) (b c : R) :
  fold_activations acts b c
  = (b + 0.15 * Spec.total (map (fun a => a - 0.5) acts),
     c * fold_right Rmult 1 (map (fun a => 1 + 0.10 * (a - 0.5)) acts)).
Proof.
  unfold fold_activations. revert b c.
  induction acts as [|a acts IH]; intros b c.
  - cbn. f_equal; lra.
  - cbn [fold_left map Spec.total fold_right]. rewrite IH.
    replace 1.0 with 1 by lra. f_equal; [lra|].
    set (rest := fold_right Rmult 1 _).
    set (k := 1 + 0.10 * (a - 0.5)).
    replace (1 + (a - 0.5) * 0.10) with k by (unfold k; lra).
    rewrite Rmult_assoc. reflexivity.
Qed.

(** The redundant clamp of green is the only difference of the two
    colour stages, and it changes nothing on a channel in [0,1]. *)
Lemma colour_mood_revisions (harmonyScore fi r0 g0 b0 : R) :
  0 <= g0 <= 1 ->
  colour_mood Rev1 harmonyScore fi (r0, g0, b0)
  = colour_mood Rev2 harmonyScore fi (r0, g0, b0).
Proof.
  intros Hg. unfold colour_mood. rewrite (clamp_id g0) by exact Hg.
  reflexivity.
Qed.

Lemma colour_mood_unit rev (harmonyScore fi : R) (rgb : R * R * R) :
  let '(x, y, z) := colour_mood rev harmonyScore fi rgb in
  0 <= x <= 1 /\ 0 <= y <= 1 /\ 0 <= z <= 1.
Proof.
  destruct rgb as [[r0 g0] b0]. unfold colour_mood.
  destruct (Js.gtb _ 0);
    (split; [|split]; apply clamp_bounds; lra).
Qed.

(** Half-up against half-to-even on a number of [0,255]: the same byte,
    except half-way above an even integer, where half-up is one
    higher. *)
Lemma round_against_clamped_store (v : R) :
  0 <= v <= 255 ->
  is_byte (Js.Math_round v)
  /\ (half_above_even v -> Js.Math_round v = (Js.ToUint8Clamp v + 1)%Z)
  /\ (~ half_above_even v -> Js.Math_round v = Js.ToUint8Clamp v).
Proof.
  intros Hv. assert (Hb := Zfloor_bound v).
  assert (Hf0 : (0 <= Zfloor v)%Z) by (apply Zfloor_lub; lra).
  assert (Hf1 : (Zfloor v <= 255)%Z).
  { apply le_IZR. lra. }
  unfold half_above_even, Js.Math_round, Js.ToUint8Clamp.
  destruct (Rle_dec v 0) as [Hle|Hpos].
  { assert (v = 0) by lra. subst v.
    rewrite (Zfloor_eq 0 (0 + / 2)) by lra.
    rewrite (Zfloor_eq 0 0) by lra.
    split; [unfold is_byte; lia|]. split; [intros [Hhalf _]; lra|].
    reflexivity. }
  destruct (Rle_dec 255 v) as [Hge|Hlt].
  { assert (v = 255) by lra. subst v.
    rewrite (Zfloor_eq 255 (255 + / 2)) by lra.
    rewrite (Zfloor_eq 255 255) by lra.
    split; [unfold is_byte; lia|]. split; [intros [Hhalf _]; lra|].
    reflexivity. }
  assert (Hf2 : (Zfloor v < 255)%Z) by (apply lt_IZR; lra).
  destruct (Rlt_dec (v - IZR (Zfloor v)) (/ 2)) as [Hlow|Hnlow].
  { rewrite (Zfloor_eq (Zfloor v) (v + / 2)) by lra.
    split; [unfold is_byte; lia|]. split; [intros [Hhalf _]; lra|].
    reflexivity. }
  rewrite (Zfloor_eq (Zfloor v + 1) (v + / 2))
    by (rewrite plus_IZR; lra).
  split; [unfold is_byte; lia|].
  destruct (Rlt_dec (/ 2) (v - IZR (Zfloor v))) as [Hhigh|Hnhigh].
  { split; [intros [Hhalf _]; lra|reflexivity]. }
  destruct (Z.even (Zfloor v)) eqn:Heven.
  - split; [reflexivity|]. intros Hnot. exfalso. apply Hnot.
    split; [lra|reflexivity].
  - split; [intros [_ Habs]; discriminate|reflexivity].
Qed.

End Mods.

(** X14.  The effective brightness is the slider plus 0.15 times the sum
    of the activations' offsets from 0.5, and the effective contrast is
    the slider times the product of [1 + 0.10 * (activation - 0.5)]; so
    neither depends on the order of the activations. *)
Theorem effective_brightness_and_contrast (categoryActivations : list R)
    (brightnessFactor contrastFactor : R) :
  ImageUtils.fold_activations categoryActivations brightnessFactor
                              contrastFactor
  = (brightnessFactor
     + 0.15 * Spec.total (map (fun a => a - 0.5) categoryActivations),
     contrastFactor
     * fold_right Rmult 1
         (map (fun a => 1 + 0.10 * (a - 0.5)) categoryActivations)).
Proof. apply fold_activations_sum_product. Qed.

(** X15.  The two revisions of the transform compute the same three
    numbers of [0,255] for a pixel; the second stores them as they are
    (the array rounds halves to even), the first stores their
    [Math.round] (halves go up).  The two bytes of a channel are equal,
    except when the number is exactly half-way above an even integer:
    there, and only there, the first revision's byte is one higher.  (The
    numbers are those of exact arithmetic; half-way above an odd integer
    both revisions store the integer above.) *)
Theorem revisions_differ_only_in_rounding (mods : R * R)
    (harmonyScore : R) (fi : option R) (r0 g0 b0 a0 : Z) :
  exists x y z,
    ImageUtils.pixel_values Rev2 mods harmonyScore fi r0 g0 b0 = (x, y, z)
    /\ ImageUtils.pixel_values Rev1 mods harmonyScore fi r0 g0 b0
       = (IZR (Js.Math_round x), IZR (Js.Math_round y),
          IZR (Js.Math_round z))
    /\ pixel_result Rev2 mods harmonyScore fi (r0, g0, b0, a0)
       = (Js.ToUint8Clamp x, Js.ToUint8Clamp y, Js.ToUint8Clamp z,
          Js.ToUint8Clamp (IZR a0))
    /\ pixel_result Rev1 mods harmonyScore fi (r0, g0, b0, a0)
       = (Js.Math_round x, Js.Math_round y, Js.Math_round z,
          Js.ToUint8Clamp (IZR a0))
    /\ Forall (fun v =>
         0 <= v <= 255
         /\ (half_above_even v ->
             Js.Math_round v = (Js.ToUint8Clamp v + 1)%Z)
         /\ (~ half_above_even v -> Js.Math_round v = Js.ToUint8Clamp v))
         [x; y; z].
Proof.
  assert (Hstore : forall v, 0 <= v <= 255 ->
            Js.ToUint8Clamp (IZR (Js.Math_round v)) = Js.Math_round v).
  { intros v Hv. apply ToUint8Clamp_IZR.
    apply (round_against_clamped_store v Hv). }
  unfold pixel_result, ImageUtils.pixel_values. destruct fi as [fi|].
  - rewrite (colour_mood_revisions harmonyScore fi)
      by apply base_channel_unit.
    assert (Hunit := colour_mood_unit Rev2 harmonyScore fi
                       (ImageUtils.base_channel r0 mods,
                        ImageUtils.base_channel g0 mods,
                        ImageUtils.base_channel b0 mods)).
    destruct (ImageUtils.colour_mood Rev2 harmonyScore fi _)
      as [[x y] z].
    destruct Hunit as (Hx & Hy & Hz).
    unfold ImageUtils.stored.
    assert (Hcx := clamp_bounds (x * 255) 0 255 ltac:(lra)).
    assert (Hcy := clamp_bounds (y * 255) 0 255 ltac:(lra)).
    assert (Hcz := clamp_bounds (z * 255) 0 255 ltac:(lra)).
    do 3 eexists. split; [reflexivity|]. split; [reflexivity|].
    split; [reflexivity|].
    split; [rewrite !Hstore by assumption; reflexivity|].
    repeat (apply Forall_cons; split;
            [split; [assumption|
                     apply round_against_clamped_store; assumption]|]).
    constructor.
  - exists 0, 0, 0. split; [reflexivity|].
    assert (H0 : Js.Math_round 0 = 0%Z) by (apply Math_round_eq; lra).
    rewrite H0. split; [reflexivity|]. split; [reflexivity|].
    split.
    + rewrite (ToUint8Clamp_IZR 0) by (unfold is_byte; lia). reflexivity.
    + repeat (apply Forall_cons; split;
              [split; [lra|apply round_against_clamped_store; lra]|]).
      constructor.
Qed.

(** * Further properties of [resizeKnotMap] *)

Section ResizeSpan.
Import MathHelpers ImageUtils.

Lemma read_resized_dims (bytes : list Z) th tw :
  grid_dims th tw
    (fst (read_resized bytes th tw (replicate th (replicate tw 0)))).
Proof.
  unfold read_resized.
  apply (for_range2_ind (fun _ _ x => grid_dims th tw (fst x)));
    [apply grid_dims_replicate| |auto].
  intros r c [m mx] _ _ Hd. cbn [fst] in *.
  apply grid_dims_alter, Hd.
Qed.

Lemma renormalise_dims (mx : R) th tw (m : list (list R)) :
  grid_dims th tw m -> grid_dims th tw (renormalise mx th tw m).
Proof.
  intros Hd. unfold renormalise.
  apply (for_range2_ind (fun _ _ x => grid_dims th tw x));
    [exact Hd| |auto].
  intros r c x _ _ Hx. apply grid_dims_alter, Hx.
Qed.

Lemma resizeKnotMap_dims (canvas : Canvas) (knotMap : KnotMap) tw th m :
  resizeKnotMap canvas knotMap tw th = inr m -> grid_dims th tw m.
Proof.
  unfold resizeKnotMap.
  destruct (_ || _); [intros [= <-]; apply grid_dims_replicate|].
  destruct (negb (source_context canvas)); [discriminate|].
  destruct (negb (target_context canvas)); [discriminate|].
  destruct (_ || _); [discriminate|].
  set (bytes := drawImage canvas _ _ _ _ _).
  assert (Hd := read_resized_dims bytes th tw).
  destruct (read_resized _ _ _ _) as [resized mx]. cbn [fst] in Hd.
  destruct (Js.gtb mx 0); intros [= <-];
    [apply renormalise_dims|]; exact Hd.
Qed.

(** The largest value the third pair of loops reports bounds every
    entry, is never negative, and, when it is positive, is the entry of
    a cell the loops have passed. *)
Lemma read_resized_max (bytes : list Z) th tw :
  let x := read_resized bytes th tw (replicate th (replicate tw 0)) in
  0 <= snd x
  /\ (forall r c v, grid_get r c (fst x) = Some v -> v <= snd x)
  /\ (0 < snd x -> exists r c, grid_get r c (fst x) = Some (snd x)).
Proof.
  cbv zeta. unfold read_resized.
  assert (H :
    let x := for_range th (fun r_idx =>
               for_range tw (fun c_idx '(resizedKnotMap, maxResizedVal) =>
                 let val :=
                   IZR (default 0%Z
                          (bytes !! ((r_idx * tw + c_idx) * 4)%nat)) / 255 in
                 (grid_set r_idx c_idx val resizedKnotMap,
                  if Js.gtb val maxResizedVal then val else maxResizedVal)))
               (replicate th (replicate tw 0), 0) in
    grid_dims th tw (fst x) /\ 0 <= snd x
    /\ (forall r c v, grid_get r c (fst x) = Some v -> v <= snd x)
    /\ (0 < snd x ->
        exists r c, passed th 0 r c = true
                    /\ grid_get r c (fst x) = Some (snd x))).
  { cbv zeta.
    apply (for_range2_ind
      (fun r c (x : list (list R) * R) =>
         grid_dims th tw (fst x) /\ 0 <= snd x
         /\ (forall r0 c0 v, grid_get r0 c0 (fst x) = Some v -> v <= snd x)
         /\ (0 < snd x ->
             exists r0 c0, passed r c r0 c0 = true
                           /\ grid_get r0 c0 (fst x) = Some (snd x)))).
    - cbn [fst snd]. split; [apply grid_dims_replicate|].
      split; [lra|]. split; [|intros Hlt; lra].
      intros r0 c0 v Hv.
      destruct (grid_get_dims th tw r0 c0 _ v
                  (grid_dims_replicate th tw 0) Hv) as [Hr Hc].
      rewrite grid_get_replicate in Hv by assumption.
      injection Hv as <-. lra.
    - intros r c [m mx] Hr Hc (Hd & Hmx & Hall & Hatt).
      cbn [fst snd] in *.
      set (val := IZR (default 0%Z (bytes !! ((r * tw + c) * 4)%nat)) / 255).
      split; [apply grid_dims_alter, Hd|].
      destruct (Js.gtb val mx) eqn:Hgt.
      + apply gtb_true in Hgt. split; [lra|]. split.
        * intros r0 c0 v Hv.
          destruct (decide ((r, c) = (r0, c0))) as [[= <- <-]|Hne].
          -- unfold grid_set in Hv. rewrite grid_get_alter_eq in Hv.
             destruct (grid_get r c m); [|discriminate].
             injection Hv as <-. lra.
          -- unfold grid_set in Hv.
             rewrite grid_get_alter_ne in Hv by exact Hne.
             specialize (Hall r0 c0 v Hv). lra.
        * intros _. exists r, c. split.
          -- rewrite passed_next. destruct (decide _); [reflexivity|].
             congruence.
          -- unfold grid_set. rewrite grid_get_alter_eq.
             destruct (grid_get_in_dims th tw r c m Hd Hr Hc) as [v0 ->].
             reflexivity.
      + apply gtb_false in Hgt. split; [exact Hmx|]. split.
        * intros r0 c0 v Hv.
          destruct (decide ((r, c) = (r0, c0))) as [[= <- <-]|Hne].
          -- unfold grid_set in Hv. rewrite grid_get_alter_eq in Hv.
             destruct (grid_get r c m); [|discriminate].
             injection Hv as <-. lra.
          -- unfold grid_set in Hv.
             rewrite grid_get_alter_ne in Hv by exact Hne.
             exact (Hall r0 c0 v Hv).
        * intros Hpos. destruct (Hatt Hpos) as (r0 & c0 & Hp & Hv).
          exists r0, c0. rewrite passed_next.
          destruct (decide ((r, c) = (r0, c0))) as [[= <- <-]|Hne].
          -- exfalso. unfold passed in Hp.
             rewrite !Nat.ltb_irrefl, andb_false_r in Hp. discriminate.
          -- split; [exact Hp|]. unfold grid_set.
             rewrite grid_get_alter_ne by exact Hne. exact Hv.
    - intros r [m mx] Hr (Hd & Hmx & Hall & Hatt). cbn [fst snd] in *.
      split; [exact Hd|]. split; [exact Hmx|]. split; [exact Hall|].
      intros Hpos. destruct (Hatt Hpos) as (r0 & c0 & Hp & Hv).
      exists r0, c0. split; [|exact Hv].
      destruct (grid_get_dims th tw r0 c0 m mx Hd Hv) as [_ Hc0].
      rewrite (passed_row tw) by exact Hc0. exact Hp. }
  cbv zeta in H. destruct H as (_ & Hmx & Hall & Hatt).
  split; [exact Hmx|]. split; [exact Hall|].
  intros Hpos. destruct (Hatt Hpos) as (r & c & _ & Hv).
  exists r, c. exact Hv.
Qed.

(** The second normalisation divides every entry by the largest value,
    once. *)
Lemma renormalise_entries (mx : R) th tw (m : list (list R)) r c v :
  grid_dims th tw m -> grid_get r c m = Some v ->
  grid_get r c (renormalise mx th tw m) = Some (v / mx).
Proof.
  intros Hd Hv. unfold renormalise.
  assert (H : grid_dims th tw
                (for_range th (fun r_idx =>
                   for_range tw (fun c_idx =>
                     grid_alter (fun v => v / mx) r_idx c_idx)) m)
              /\ forall r0 c0 v0, grid_get r0 c0 m = Some v0 ->
                   grid_get r0 c0
                     (for_range th (fun r_idx =>
                        for_range tw (fun c_idx =>
                          grid_alter (fun v => v / mx) r_idx c_idx)) m)
                   = Some (if passed th 0 r0 c0 then v0 / mx else v0)).
  { apply (for_range2_ind
      (fun r1 c1 x =>
         grid_dims th tw x
         /\ forall r0 c0 v0, grid_get r0 c0 m = Some v0 ->
              grid_get r0 c0 x
              = Some (if passed r1 c1 r0 c0 then v0 / mx else v0))).
    - split; [exact Hd|]. intros r0 c0 v0 Hv0.
      rewrite passed_none. exact Hv0.
    - intros r1 c1 x _ _ [Hdx Hx].
      split; [apply grid_dims_alter, Hdx|].
      intros r0 c0 v0 Hv0. rewrite passed_next.
      destruct (decide ((r1, c1) = (r0, c0))) as [[= <- <-]|Hne].
      + rewrite grid_get_alter_eq, (Hx r1 c1 v0 Hv0).
        replace (passed r1 c1 r1 c1) with false; [reflexivity|].
        unfold passed. rewrite !Nat.ltb_irrefl, andb_false_r.
        reflexivity.
      + rewrite grid_get_alter_ne by exact Hne. apply Hx, Hv0.
    - intros r1 x _ [Hdx Hx]. split; [exact Hdx|].
      intros r0 c0 v0 Hv0.
      destruct (grid_get_dims th tw r0 c0 m v0 Hd Hv0) as [_ Hc0].
      rewrite (passed_row tw) by exact Hc0. apply Hx, Hv0. }
  destruct H as [_ H]. rewrite (H r c v Hv).
  destruct (grid_get_dims th tw r c m v Hd Hv) as [Hr _].
  rewrite (passed_all th r c Hr). reflexivity.
Qed.

End ResizeSpan.

(** X16.  The map [resizeKnotMap] returns has the target's height and
    width; and if any of its entries is positive, then one of its entries
    is exactly 1: the second normalisation makes the map span up to 1. *)
Theorem resized_map_spans_to_one (canvas : Canvas) (knotMap : KnotMap)
    (targetWidth targetHeight : nat) (m : list (list R)) :
  ImageUtils.resizeKnotMap canvas knotMap targetWidth targetHeight = inr m ->
  grid_dims targetHeight targetWidth m
  /\ ((exists r c v, grid_get r c m = Some v /\ 0 < v) ->
      exists r c, grid_get r c m = Some 1).
Proof.
  intros Hres. split; [exact (resizeKnotMap_dims _ _ _ _ _ Hres)|].
  revert Hres. unfold ImageUtils.resizeKnotMap.
  destruct (_ || _).
  { intros [= <-] (r & c & v & Hv & Hpos).
    destruct (grid_get_dims _ _ r c _ v
                (grid_dims_replicate targetHeight targetWidth 0) Hv)
      as [Hr Hc].
    rewrite grid_get_replicate in Hv by assumption.
    injection Hv as <-. lra. }
  destruct (negb (source_context canvas)); [discriminate|].
  destruct (negb (target_context canvas)); [discriminate|].
  destruct (_ || _); [discriminate|].
  set (bytes := drawImage canvas _ _ _ _ _).
  assert (Hd := read_resized_dims bytes targetHeight targetWidth).
  assert (Hmax := read_resized_max bytes targetHeight targetWidth).
  cbv zeta in Hmax.
  destruct (ImageUtils.read_resized _ _ _ _) as [resized mx].
  cbn [fst snd] in *. destruct Hmax as (Hmx & Hall & Hatt).
  destruct (Js.gtb mx 0) eqn:Hgt; intros [= <-].
  - intros _. apply gtb_true in Hgt.
    destruct (Hatt Hgt) as (r & c & Hv). exists r, c.
    rewrite (renormalise_entries mx _ _ resized r c mx Hd Hv).
    f_equal. field. lra.
  - intros (r & c & v & Hv & Hpos). apply gtb_false in Hgt.
    specialize (Hall r c v Hv). lra.
Qed.

(** ** A map with a single knot, through the nearest-pixel canvas *)

Section SingleKnot.
Import ImageUtils.

Lemma normVal_single : normVal [[1%nat]] 1 0 0 = 255.
Proof.
  unfold normVal. cbn [grid_get lookup list_lookup INR].
  unfold Js.Math_floor.
  rewrite (Zfloor_eq 255 (1 / 1 * 255)) by lra. reflexivity.
Qed.

Lemma paint_single :
  paint_source [[1%nat]] 1 1 1 = [255; 255; 255; 255]%Z.
Proof.
  unfold paint_source, for_range.
  cbn [seq fold_left Nat.mul Nat.add replicate].
  rewrite normVal_single.
  rewrite (ToUint8Clamp_IZR 255) by (unfold is_byte; lia).
  reflexivity.
Qed.

Lemma read_single :
  read_resized [255; 255; 255; 255]%Z 1 1 [[0]] = ([[1]], 1).
Proof.
  unfold read_resized, for_range.
  cbn [seq fold_left Nat.mul Nat.add lookup list_lookup default
       from_option Datatypes.id].
  replace (IZR 255 / 255) with 1 by lra.
  replace (Js.gtb 1 0) with true by (symmetry; apply gtb_true; lra).
  reflexivity.
Qed.

Lemma resize_single_knot :
  resizeKnotMap nearest_canvas [[1%nat]] 1 1 = inr [[1]].
Proof.
  unfold resizeKnotMap.
  change (length [[1%nat]]) with 1%nat.
  change (length (default [] ([[1%nat]] !! 0%nat))) with 1%nat.
  change (scan_max [[1%nat]] 1 1) with 1%nat.
  cbn [Nat.eqb orb negb nearest_canvas source_context target_context
       replicate].
  rewrite paint_single.
  change (drawImage nearest_canvas 1 1 [255; 255; 255; 255]%Z 1 1)
    with [255; 255; 255; 255]%Z.
  rewrite read_single.
  replace (Js.gtb 1 0) with true by (symmetry; apply gtb_true; lra).
  unfold renormalise, for_range.
  cbn [seq fold_left grid_alter alter list_alter].
  do 3 f_equal. lra.
Qed.

End SingleKnot.

Lemma resized_map_spans_to_one_witness :
  exists m,
    ImageUtils.resizeKnotMap nearest_canvas [[1%nat]] 1 1 = inr m
    /\ grid_dims 1 1 m
    /\ exists r c, grid_get r c m = Some 1.
Proof.
  exists [[1]]. split; [exact resize_single_knot|].
  destruct (resized_map_spans_to_one nearest_canvas [[1%nat]] 1 1 [[1]]
              resize_single_knot) as [Hdims Hspan].
  split; [exact Hdims|]. apply Hspan.
  exists 0%nat, 0%nat, 1. split; [reflexivity|lra].
Defined.

(** * The grid size of the application, and the pipeline *)

Section GridSize.
Import App.

Lemma eighth (side : nat) :
  INR side / 8
  = IZR (Z.of_nat side / 8) + IZR (Z.of_nat side mod 8) / 8
  /\ (0 <= Z.of_nat side mod 8 < 8)%Z.
Proof.
  assert (Hmod := Z.mod_pos_bound (Z.of_nat side) 8 ltac:(lia)).
  split; [|exact Hmod].
  rewrite INR_IZR_INZ.
  rewrite (Z.div_mod (Z.of_nat side) 8) at 1 by lia.
  rewrite plus_IZR, mult_IZR. field.
Qed.

Lemma floor_eighth (side : nat) :
  Js.Math_floor (INR side / 8) = (Z.of_nat side / 8)%Z.
Proof.
  destruct (eighth side) as [Heq [H0 H1]].
  apply IZR_le in H0. apply IZR_lt in H1.
  unfold Js.Math_floor. apply Zfloor_eq. lra.
Qed.

Lemma between_IZR (z : Z) :
  Rmax 32 (Rmin 128 (IZR z)) = IZR (Z.max 32 (Z.min 128 z)).
Proof.
  unfold Rmax, Rmin.
  destruct (Rle_dec 128 (IZR z)) as [H1|H1].
  - apply le_IZR in H1.
    destruct (Rle_dec 32 128); [|lra].
    f_equal. lia.
  - assert (H1' : (z < 128)%Z) by (apply lt_IZR; lra).
    destruct (Rle_dec 32 (IZR z)) as [H2|H2].
    + apply le_IZR in H2. f_equal. lia.
    + assert (H2' : (z < 32)%Z) by (apply lt_IZR; lra).
      f_equal. lia.
Qed.

Lemma array_length_IZR (z : Z) :
  array_length_ok z -> array_length (IZR z) = inr z.
Proof.
  intros Hz. unfold array_length.
  rewrite (Zfloor_eq z (IZR z)) by lra.
  destruct (Req_dec_T (IZR z) (IZR z)) as [_|Hne]; [|congruence].
  apply valid_array_length_spec in Hz as ->. reflexivity.
Qed.

Lemma grid_side_ok (z : Z) :
  (32 <= z <= 128)%Z -> array_length_ok z.
Proof. unfold array_length_ok, Js.array_length_limit. lia. Qed.

Lemma array_length_fraction (x : R) :
  IZR (Zfloor x) <> x -> array_length x = inl Js.RangeError.
Proof.
  intros Hne. unfold array_length.
  destruct (Req_dec_T (IZR (Zfloor x)) x); [contradiction|reflexivity].
Qed.

Lemma field_size_v2_integer (side : nat) :
  field_size_v2 side
  = IZR (Z.max 32 (Z.min 128 (Z.of_nat side / 8))).
Proof.
  unfold field_size_v2. rewrite floor_eighth. apply between_IZR.
Qed.

Lemma field_size_v1_integer (side : nat) :
  ~ fractional_side side ->
  field_size_v1 side
  = IZR (Z.max 32 (Z.min 128 (Z.of_nat side / 8))).
Proof.
  intros Hok. unfold field_size_v1.
  destruct (eighth side) as [Heq [H0 H1]].
  assert (Hq0 : (0 <= Z.of_nat side / 8)%Z) by (apply Z.div_pos; lia).
  destruct (Z.eq_dec (Z.of_nat side mod 8)%Z 0%Z) as [Hz|Hnz].
  - rewrite Heq, Hz. replace (IZR (Z.of_nat side / 8) + 0 / 8)
      with (IZR (Z.of_nat side / 8)) by lra.
    apply between_IZR.
  - assert (Hside : (side <= 256 \/ 1024 <= side)%nat).
    { unfold fractional_side in Hok. lia. }
    assert (Hsplit := Z.div_mod (Z.of_nat side) 8 ltac:(lia)).
    assert (H0r := IZR_le _ _ H0). assert (H1r := IZR_lt _ _ H1).
    destruct Hside as [Hlow|Hhigh].
    + assert (Hq' : (Z.of_nat side / 8 <= 31)%Z) by lia.
      replace (Z.max 32 (Z.min 128 (Z.of_nat side / 8))) with 32%Z by lia.
      apply IZR_le in Hq'.
      unfold Rmax, Rmin. repeat destruct Rle_dec; lra.
    + assert (Hq : (128 <= Z.of_nat side / 8)%Z) by lia.
      replace (Z.max 32 (Z.min 128 (Z.of_nat side / 8))) with 128%Z by lia.
      apply IZR_le in Hq.
      unfold Rmax, Rmin. repeat destruct Rle_dec; lra.
Qed.

Lemma field_size_v1_fraction (side : nat) :
  fractional_side side ->
  IZR (Zfloor (field_size_v1 side)) <> field_size_v1 side.
Proof.
  intros [Hside Hmod]. unfold field_size_v1.
  destruct (eighth side) as [Heq [H0 H1]].
  assert (Hpos : (0 < Z.of_nat side mod 8)%Z) by lia.
  assert (Hsplit := Z.div_mod (Z.of_nat side) 8 ltac:(lia)).
  assert (Hq : (32 <= Z.of_nat side / 8 < 128)%Z) by lia.
  destruct Hq as [Hq0 Hq1].
  assert (Hq1' : IZR (Z.of_nat side / 8) + 1 <= 128).
  { rewrite <- (plus_IZR _ 1). apply IZR_le. lia. }
  apply IZR_le in Hq0. apply IZR_lt in Hq1, Hpos, H1.
  assert (Hval : Rmax 32 (Rmin 128 (INR side / 8)) = INR side / 8).
  {
    unfold Rmax, Rmin. repeat destruct Rle_dec; lra. }
  rewrite Hval.
  rewrite (Zfloor_eq (Z.of_nat side / 8) (INR side / 8)) by lra.
  lra.
Qed.

Lemma grid_size_bounds (side : nat) :
  (32 <= Z.max 32 (Z.min 128 (Z.of_nat side / 8)) <= 128)%Z.
Proof. lia. Qed.

Lemma new_simulator_integers (p : SubQGParams) (w h : Z) :
  (32 <= w <= 128)%Z -> (32 <= h <= 128)%Z ->
  exists s,
    new_simulator p (IZR w) (IZR h) = inr s
    /\ field_w (SubQGSimulator.params s) = w
    /\ field_h (SubQGSimulator.params s) = h
    /\ SubQGSimulator.draws s = 0%nat.
Proof.
  intros Hw Hh. unfold new_simulator.
  rewrite !array_length_IZR by (apply grid_side_ok; assumption).
  destruct (Z.eqb_spec h 0) as [|_]; [lia|].
  set (p' := {| sim_duration := _ |}).
  assert (Hok : ~ grid_refused (field_h p') (field_w p')).
  { apply array_lengths_not_refused; apply grid_side_ok; assumption. }
  destruct (constructor_succeeds p' Hok) as (s & Hs & Hp).
  exists s. split; [exact Hs|]. rewrite Hp. cbn.
  split; [reflexivity|]. split; [reflexivity|].
  unfold SubQGSimulator.constructor in Hs.
  rewrite (Array_grid_succeeds _ _ (Js.Num 0) Hok) in Hs.
  rewrite (Array_grid_succeeds _ _ 0%nat Hok) in Hs.
  injection Hs as <-. reflexivity.
Qed.

Lemma fractional_side_dec (side : nat) :
  {fractional_side side} + {~ fractional_side side}.
Proof.
  unfold fractional_side.
  destruct (lt_dec 256 side); [|right; lia].
  destruct (lt_dec side 1024); [|right; lia].
  destruct (Z.eq_dec (Z.of_nat side mod 8)%Z 0%Z); [right; lia|left; lia].
Qed.

Lemma new_simulator_fraction (p : SubQGParams) (w h : nat) :
  fractional_side w \/ fractional_side h ->
  new_simulator p (field_size_v1 w) (field_size_v1 h)
  = inl Js.RangeError.
Proof.
  intros Hbad. unfold new_simulator.
  destruct (fractional_side_dec h) as [Hh|Hh].
  - rewrite (array_length_fraction (field_size_v1 h))
      by exact (field_size_v1_fraction h Hh).
    reflexivity.
  - destruct Hbad as [Hw|Hbad]; [|contradiction].
    rewrite (field_size_v1_integer h Hh).
    rewrite array_length_IZR by (apply grid_side_ok; lia).
    destruct (Z.eqb_spec (Z.max 32 (Z.min 128 (Z.of_nat h / 8))) 0)
      as [Hz|_]; [lia|].
    rewrite (array_length_fraction (field_size_v1 w))
      by exact (field_size_v1_fraction w Hw).
    reflexivity.
Qed.

Lemma floored_size_builds (p : SubQGParams) (w h : nat) :
  exists s, new_simulator p (field_size_v2 w) (field_size_v2 h) = inr s.
Proof.
  rewrite !field_size_v2_integer.
  destruct (new_simulator_integers p
              (Z.max 32 (Z.min 128 (Z.of_nat w / 8)))
              (Z.max 32 (Z.min 128 (Z.of_nat h / 8))))
    as (s & Hs & _); [lia|lia|].
  exists s. exact Hs.
Qed.

(** X17. In the second revision of the application the grid sides are
    [max(32, min(128, floor(side / 8)))]: for every image size the
    simulator is built, with integer sides between 32 and 128 and no
    random number drawn yet. *)
Theorem floored_grid_size_always_builds (p : SubQGParams) (w h : nat) :
  exists s,
    new_simulator p (field_size_v2 w) (field_size_v2 h) = inr s
    /\ field_w (SubQGSimulator.params s)
       = Z.max 32 (Z.min 128 (Z.of_nat w / 8))
    /\ field_h (SubQGSimulator.params s)
       = Z.max 32 (Z.min 128 (Z.of_nat h / 8))
    /\ (32 <= field_w (SubQGSimulator.params s) <= 128)%Z
    /\ (32 <= field_h (SubQGSimulator.params s) <= 128)%Z
    /\ SubQGSimulator.draws s = 0%nat.
Proof.
  rewrite !field_size_v2_integer.
  destruct (new_simulator_integers p
              (Z.max 32 (Z.min 128 (Z.of_nat w / 8)))
              (Z.max 32 (Z.min 128 (Z.of_nat h / 8))))
    as (s & Hs & Hw & Hh & Hd); [lia|lia|].
  exists s. rewrite Hw, Hh.
  split; [exact Hs|]. split; [reflexivity|]. split; [reflexivity|].
  split; [lia|]. split; [lia|exact Hd].
Qed.

(** X18. In the first revision of the application the grid sides are
    [max(32, min(128, side / 8))] with no rounding: building the
    simulator raises a RangeError exactly when the width or the height of
    the image lies strictly between 256 and 1024 and is no multiple
    of 8; for every other image size the simulator built is the one of
    the second revision. *)
Theorem unfloored_grid_size_fails_on_fractions (p : SubQGParams)
    (w h : nat) :
  (new_simulator p (field_size_v1 w) (field_size_v1 h)
   = inl Js.RangeError
   <-> fractional_side w \/ fractional_side h)
  /\ (new_simulator p (field_size_v1 w) (field_size_v1 h)
      <> inl Js.RangeError ->
      new_simulator p (field_size_v1 w) (field_size_v1 h)
      = new_simulator p (field_size_v2 w) (field_size_v2 h)).
Proof.
  assert (Hgood : ~ fractional_side w -> ~ fractional_side h ->
            new_simulator p (field_size_v1 w) (field_size_v1 h)
            = new_simulator p (field_size_v2 w) (field_size_v2 h)).
  { intros Hw Hh.
    rewrite (field_size_v1_integer w Hw), (field_size_v1_integer h Hh).
    rewrite !field_size_v2_integer. reflexivity. }
  split; [split|].
  - intros Hfail.
    destruct (fractional_side_dec w) as [Hw|Hw]; [left; exact Hw|].
    destruct (fractional_side_dec h) as [Hh|Hh]; [right; exact Hh|].
    exfalso. rewrite (Hgood Hw Hh) in Hfail.
    destruct (floored_size_builds p w h) as [s Hs]. congruence.
  - apply new_simulator_fraction.
  - intros Hok.
    destruct (fractional_side_dec w) as [Hw|Hw];
      [contradict Hok; apply new_simulator_fraction; left; exact Hw|].
    destruct (fractional_side_dec h) as [Hh|Hh];
      [contradict Hok; apply new_simulator_fraction; right; exact Hh|].
    exact (Hgood Hw Hh).
Qed.

End GridSize.

(** * The resized map in the transform *)

Section Pipeline.
Import ImageUtils.

(** X19.  The map [resizeKnotMap] returns for the size of an image is
    always accepted by [processImageWithSubQG], in both revisions: every
    row and column the transform reads exists, so it throws nothing; it
    returns an image of the same size, and at every place the alpha byte
    is the original one and the three channels are bytes. *)
Theorem resized_map_fits_the_transform (rev : Revision) (canvas : Canvas)
    (random : nat -> R) (st : Store) (img : ImageData) (knotMap : KnotMap)
    (categoryActivations : list R) (brightnessFactor contrastFactor : R)
    (harmonyScore : R) (m : list (list R)) :
  valid_image st img ->
  resizeKnotMap canvas knotMap (width img) (height img) = inr m ->
  exists st' img',
    processImageWithSubQG rev random st img categoryActivations
      brightnessFactor contrastFactor m harmonyScore = (st', inr img')
    /\ width img' = width img /\ height img' = height img
    /\ forall r c, (r < height img)%nat -> (c < width img)%nat ->
         exists r0 g0 b0 a0 r1 g1 b1,
           pixel_at (width img) (image_bytes st img) r c
           = Some (r0, g0, b0, a0)
           /\ pixel_at (width img) (image_bytes st' img') r c
              = Some (r1, g1, b1, a0)
           /\ is_byte r1 /\ is_byte g1 /\ is_byte b1.
Proof.
  intros Hvalid Hresize.
  assert (Hdims := resizeKnotMap_dims canvas knotMap _ _ m Hresize).
  unfold processImageWithSubQG.
  assert (Hinf : forall r c, (r < height img)%nat -> (c < width img)%nat ->
            exists fi, wave_influence random (width img) (height img) m
                         harmonyScore r c = inr fi).
  { intros r c Hr Hc.
    destruct (wave_influence_defined random _ _ _ harmonyScore r c
                Hdims Hr Hc) as [fi Hfi].
    eexists. exact Hfi. }
  destruct (processImageWith_result rev _ st img categoryActivations
              brightnessFactor contrastFactor harmonyScore Hvalid Hinf)
    as (st' & img' & bytes0 & bytes' & Hrun & Hw & Hh & Hb0 & Hb' & Hlen'
        & Hdata & Hold & Hpix).
  destruct Hvalid as (bytes & Hb & Hlen & Hpos & Hall).
  assert (bytes0 = bytes) by congruence. subst bytes0.
  exists st', img'. split; [exact Hrun|].
  split; [exact Hw|]. split; [exact Hh|].
  intros r c Hr Hc.
  destruct (pixel_at_Some (width img) (height img) bytes r c Hlen Hr Hc)
    as [[[[r0 g0] b0] a0] Hpx].
  destruct (Hinf r c Hr Hc) as [fi Hfi].
  assert (Ha : is_byte a0)
    by exact (pixel_at_bytes _ (height img) _ _ _ _ Hall Hpx).
  destruct (pixel_result_bytes rev
              (fold_activations categoryActivations brightnessFactor
                 contrastFactor)
              harmonyScore fi r0 g0 b0 a0 Ha)
    as (r1 & g1 & b1 & Hres & Hr1 & Hg1 & Hb1).
  exists r0, g0, b0, a0, r1, g1, b1.
  unfold image_bytes. rewrite Hb, Hb'. cbn [from_option Datatypes.id].
  split; [exact Hpx|].
  split; [rewrite (Hpix r c _ fi Hr Hc Hpx Hfi); rewrite Hres;
          reflexivity|].
  tauto.
Qed.

Lemma resized_map_fits_the_transform_witness :
  ImageUtils.resizeKnotMap nearest_canvas [[1%nat]] 1 1 = inr [[1]]
  /\ exists st' img' r1 g1 b1,
       processImageWithSubQG Rev1 (fun _ => 0) grey_store one_pixel
         neutral_activations 0 1 [[1]] 0.5 = (st', inr img')
       /\ pixel_at 1 (image_bytes st' img') 0 0 = Some (r1, g1, b1, 255%Z)
       /\ is_byte r1 /\ is_byte g1 /\ is_byte b1.
Proof.
  split; [exact resize_single_knot|].
  assert (Hvalid : valid_image grey_store one_pixel).
  { apply valid_one_pixel; unfold is_byte; lia. }
  destruct (resized_map_fits_the_transform Rev1 nearest_canvas
              (fun _ => 0) grey_store one_pixel [[1%nat]]
              neutral_activations 0 1 0.5 [[1]] Hvalid resize_single_knot)
    as (st' & img' & Hrun & Hw & _ & Hpix).
  destruct (Hpix 0%nat 0%nat) as (r0 & g0 & b0 & a0 & r1 & g1 & b1
                                   & Hpx & Hpx' & Hbytes);
    [cbn; lia|cbn; lia|].
  cbn in Hpx. injection Hpx as _ _ _ <-.
  exists st', img', r1, g1, b1. split; [exact Hrun|].
  split; [exact Hpx'|exact Hbytes].
Defined.

End Pipeline.

(** ** A map with too few rows *)

Section ShortMap.
Import ImageUtils.
Variables (rev : Revision) (mods : R * R) (harmonyScore : R).
Variable influence : nat -> nat -> Js.Error + option R.
Variables (w h src dst : nat).
Variable e : Js.Error.
Variable k : nat.
Hypothesis Hfine : forall r c, (r < k)%nat -> (c < w)%nat ->
                     exists fi, influence r c = inr fi.
Hypothesis Hfails : influence k 0%nat = inl e.
Hypothesis Hk : (k < h)%nat.
Hypothesis Hw : (0 < w)%nat.

Lemma process_pixel_fails (st : Store) (bytes bytes0 : list Z) :
  length bytes0 = (4 * w * h)%nat -> length bytes = length bytes0 ->
  st !! dst = Some bytes ->
  (src = dst \/ (src <> dst /\ st !! src = Some bytes0)) ->
  (forall i, ((k * w + 0) * 4 <= i)%nat -> bytes !! i = bytes0 !! i) ->
  process_pixel rev mods harmonyScore influence w src dst k 0 (st, None)
  = (st, Some e).
Proof.
  intros Hlen0 Hlen Hdst Hsrc Hrest.
  assert (Hi := pixel_index_lt w h k 0 Hk Hw).
  destruct (pixel_at_Some w h bytes0 k 0 Hlen0 Hk Hw)
    as [[[[r0 g0] b0] a0] Hpx].
  apply pixel_at_inv in Hpx as (Hr0 & Hg0 & Hb0 & Ha0).
  set (idx := ((k * w + 0) * 4)%nat) in *.
  assert (Hread : forall i, (idx <= i)%nat -> ta_get st src i = bytes0 !! i).
  { intros i Hle. destruct Hsrc as [->|[_ Hs]].
    - rewrite (ta_get_lookup _ _ _ _ Hdst). apply Hrest, Hle.
    - apply ta_get_lookup, Hs. }
  unfold process_pixel. fold idx.
  rewrite !Hread by lia. rewrite Hr0, Hg0, Hb0, Hfails. reflexivity.
Qed.

Lemma process_pixel_failed (r c : nat) (st : Store) (e0 : Js.Error) :
  process_pixel rev mods harmonyScore influence w src dst r c (st, Some e0)
  = (st, Some e0).
Proof. reflexivity. Qed.

Lemma process_pixels_fail (st : Store) (bytes0 : list Z) :
  length bytes0 = (4 * w * h)%nat ->
  st !! dst = Some bytes0 ->
  (src = dst \/ (src <> dst /\ st !! src = Some bytes0)) ->
  snd (process_pixels rev mods harmonyScore influence w h src dst st)
  = Some e.
Proof.
  intros Hlen0 Hdst Hsrc. unfold process_pixels.
  assert (Hend : failing_inv rev mods harmonyScore influence w dst e k st bytes0 h 0
            (for_range h (fun r_idx =>
               for_range w (fun c_idx =>
                 process_pixel rev mods harmonyScore influence w src dst
                               r_idx c_idx)) (st, None))).
  { apply (for_range2_ind (failing_inv rev mods harmonyScore influence w dst e k st bytes0)).
    - unfold failing_inv. destruct (decide _) as [_|Hn]; [|lia].
      unfold pixels_inv. cbn [fst snd].
      split; [reflexivity|]. split; [reflexivity|].
      split; [reflexivity|]. exists bytes0.
      split; [exact Hdst|]. split; [reflexivity|].
      split; [reflexivity|]. intros r1 c1 px fi _ Hlt. lia.
    - intros r c [st1 failure] Hr Hc Hinv. unfold failing_inv in *.
      destruct (decide (r * w + c <= k * w)%nat) as [Hle|Hgt].
      + destruct Hinv as (Hf & Hl & Hframe & bytes & Hb & Hlen & Hrest
                          & Hdone).
        cbn [fst snd] in *. subst failure.
        assert (Hsrc1 : src = dst
                        \/ (src <> dst /\ st1 !! src = Some bytes0)).
        { destruct Hsrc as [->|[Hne Hs]]; [left; reflexivity|right].
          split; [exact Hne|]. rewrite Hframe by exact Hne. exact Hs. }
        destruct (decide (r * w + S c <= k * w)%nat) as [Hle'|Hgt'].
        * assert (Hrk : (r < k)%nat) by nia.
          destruct (pixel_at_Some w h bytes0 r c Hlen0 Hr Hc) as [px Hpx].
          destruct (Hfine r c Hrk Hc) as [fi Hfi].
          destruct (process_pixel_step rev mods harmonyScore influence
                      w h src dst st1 bytes bytes0 r c px fi
                      Hr Hc Hlen0 Hlen Hb Hsrc1 Hrest Hpx Hfi)
            as (st2 & bytes2 & -> & Hl2 & Hframe2 & Hb2 & Hlen2 & Hout
                & Hres).
          unfold pixels_inv. cbn [fst snd].
          split; [reflexivity|]. split; [congruence|].
          split; [intros b Hne; rewrite Hframe2 by exact Hne;
                  apply Hframe, Hne|].
          exists bytes2. split; [exact Hb2|]. split; [congruence|].
          split.
          -- intros i Hi. rewrite Hout by lia. apply Hrest. lia.
          -- intros r1 c1 px1 fi1 Hc1 Hlt Hpx1 Hfi1.
             destruct (decide (r1 * w + c1 = r * w + c)%nat) as [Heq|Hne].
             ++ destruct (pixel_index_inj w r c r1 c1 Hc Hc1 Heq)
                  as [-> ->].
                rewrite Hres. congruence.
             ++ rewrite (pixel_at_ext w bytes bytes2).
                ** apply Hdone; [exact Hc1|lia|exact Hpx1|exact Hfi1].
                ** intros j Hj. apply Hout. lia.
        * assert (Hrc : r = k /\ c = 0%nat).
          { destruct (Nat.lt_trichotomy r k) as [Hlt|[->|Hlt]].
            - assert (H := Nat.mul_le_mono_r (S r) k w Hlt). lia.
            - lia.
            - assert (H := Nat.mul_le_mono_r (S k) r w Hlt). lia. }
          destruct Hrc as [-> ->].
          rewrite (process_pixel_fails st1 bytes bytes0 Hlen0 Hlen Hb
                     Hsrc1 Hrest).
          reflexivity.
      + cbn [snd] in Hinv. subst failure.
        destruct (decide (r * w + S c <= k * w)%nat) as [Hle'|_]; [lia|].
        reflexivity.
    - intros r x Hr Hinv. unfold failing_inv in *.
      destruct (decide (r * w + w <= k * w)%nat) as [Hle|Hgt].
      + destruct (decide (S r * w + 0 <= k * w)%nat) as [_|Hn]; [|lia].
        destruct Hinv as (Hf & Hl & Hframe & bytes & Hb & Hlen & Hrest
                          & Hdone).
        split; [exact Hf|]. split; [exact Hl|]. split; [exact Hframe|].
        exists bytes. split; [exact Hb|]. split; [exact Hlen|].
        split.
        * intros i Hi. apply Hrest. lia.
        * intros r1 c1 px fi Hc1 Hlt. apply Hdone; [exact Hc1|lia].
      + destruct (decide (S r * w + 0 <= k * w)%nat) as [Hle'|_]; [lia|].
        exact Hinv. }
  unfold failing_inv in Hend.
  destruct (decide (h * w + 0 <= k * w)%nat) as [Hle|_]; [nia|].
  exact Hend.
Qed.

End ShortMap.

Section ShortMapTransform.
Import ImageUtils.

(** X20.  A knot map with fewer rows than the image has makes
    [processImageWithSubQG] throw a TypeError (the read of a column of
    the missing row), in both revisions and whatever the other
    arguments. *)
Theorem short_knot_map_raises_type_error (rev : Revision)
    (random : nat -> R) (st : Store) (img : ImageData)
    (categoryActivations : list R) (brightnessFactor contrastFactor : R)
    (resizedKnotMap : list (list R)) (harmonyScore : R) :
  valid_image st img ->
  (length resizedKnotMap < height img)%nat ->
  snd (processImageWithSubQG rev random st img categoryActivations
         brightnessFactor contrastFactor resizedKnotMap harmonyScore)
  = inl Js.TypeError.
Proof.
  intros (bytes0 & Hb & Hlen & Hpos & _) Hshort.
  destruct (new_data_spec rev st img bytes0 Hb)
    as (st1 & dst & Hnew & Hdst & Hsrc & Hold & Hrev).
  unfold processImageWithSubQG, processImageWith.
  rewrite Hnew, Hdst. cbn [from_option Datatypes.id].
  rewrite Hlen, Nat.eqb_refl. cbn [negb orb].
  destruct (Nat.eqb_spec (4 * width img * height img) 0) as [Hz|_]; [lia|].
  assert (Hcase : data img = dst
                  \/ (data img <> dst /\ st1 !! data img = Some bytes0)).
  { destruct rev; [left; symmetry; apply Hrev|right].
    split; [apply Hrev|exact Hsrc]. }
  assert (Hfail := process_pixels_fail rev
            (fold_activations categoryActivations brightnessFactor
               contrastFactor)
            harmonyScore
            (wave_influence random (width img) (height img)
               resizedKnotMap harmonyScore)
            (width img) (height img) (data img) dst Js.TypeError
            (length resizedKnotMap)).
  assert (Hend : snd (process_pixels rev
            (fold_activations categoryActivations brightnessFactor
               contrastFactor)
            harmonyScore
            (wave_influence random (width img) (height img)
               resizedKnotMap harmonyScore)
            (width img) (height img) (data img) dst st1)
          = Some Js.TypeError).
  { apply (Hfail) with (bytes0 := bytes0);
      [| | | |exact Hlen|exact Hdst|exact Hcase].
    - intros r c Hr Hc. unfold wave_influence.
      destruct (lookup_lt_is_Some_2 resizedKnotMap r Hr) as [row ->].
      eexists. reflexivity.
    - unfold wave_influence.
      rewrite (lookup_ge_None_2 resizedKnotMap (length resizedKnotMap))
        by lia.
      reflexivity.
    - exact Hshort.
    - nia. }
  clear Hfail.
  destruct (process_pixels _ _ _ _ _ _ _ _ _) as [st2 failure].
  cbn [snd] in Hend. subst failure. reflexivity.
Qed.

Lemma short_knot_map_raises_type_error_witness :
  snd (processImageWithSubQG Rev1 (fun _ => 0) grey_store one_pixel
         neutral_activations 0 1 [] 0.5)
  = inl Js.TypeError.
Proof.
  apply short_knot_map_raises_type_error.
  - apply valid_one_pixel; unfold is_byte; lia.
  - cbn. lia.
Defined.

End ShortMapTransform.

(** * Instances *)

Lemma linspace_includes_both_ends_witness :
  length (MathHelpers.linspace 0 1 3) = Z.to_nat 3
  /\ head (MathHelpers.linspace 0 1 3) = Some (Js.Num 0)
  /\ last (MathHelpers.linspace 0 1 3) = Some (Js.Num 1).
Proof.
  destruct (linspace_includes_both_ends 0 1 3) as [Hmany _].
  destruct Hmany as (Hlen & _ & Hhead & Hlast & _); [lia|].
  split; [exact Hlen|]. split; [exact Hhead|exact Hlast].
Defined.


Lemma createCategoryActivations_entries_witness :
  Colors.createCategoryActivations [] !! 0%nat = Some 0.5.
Proof.
  destruct (createCategoryActivations_entries []) as [_ Hentry].
  apply (Hentry 0%nat). lia.
Defined.

Lemma unfloored_grid_size_fails_on_fractions_witness :
  App.new_simulator DEFAULT_SUBQG_PARAMS
    (App.field_size_v1 300) (App.field_size_v1 300)
  = inl Js.RangeError.
Proof.
  destruct (unfloored_grid_size_fails_on_fractions DEFAULT_SUBQG_PARAMS
              300 300) as [[_ Hfails] _].
  apply Hfails. left. unfold fractional_side.
  split; [lia|]. vm_compute. discriminate.
Defined.
